(** * Climate acquisition pipeline: daily-to-monthly aggregation and indices

    A shallow embedding of [download_nasa_power_data] and
    [collect_all_nasa_climate_data] from [scripts/download_climate_data.py],
    with the properties the specification states about them.

    Conventions of the embedding.
    - Numbers.  JSON numbers, numpy scalars and pandas columns are modelled
      by exact rationals ([Q], compared with [==]); binary floating-point
      rounding error is outside the model.  [round] is numpy's rounding:
      scale by a power of ten, round half to even, scale back.
    - Dictionaries.  A JSON object that the code iterates ([T2M]) is an
      association list in document order; one that is only indexed is a
      [gmap].  A variable absent from the response is [None].
    - Exceptions.  The body of the per-day [try] runs in a state monad with
      exceptions in which the state reached when the exception is raised is
      kept, as in Python: mutations made before the [raise] stay.
    - Effects.  HTTP requests, [time.sleep] and [to_csv] are recorded in a
      log of events; the remote service and the random generator are
      parameters.  [print] is not modelled.
    - Strings are byte strings: non-ASCII digits and spaces, which Python's
      [int] also accepts, are outside the model.
    - Dates.  [pd.to_datetime] is modelled on the strings it is certain to
      read as the dates they print: [YYYY-MM-DD] within the bounds of a
      [Timestamp].  What it does on a column with another string is a
      parameter of the fetcher, [other]. *)

From Stdlib Require Import QArith Qround Qminmax Lqa ZArith Lia.
From Stdlib Require Import DecimalString Ascii String Permutation.
From stdpp Require Import gmap strings list.

Local Open Scope Q_scope.

(** ** Numeric primitives *)

(** [np.rint]: the nearest integer, ties to the even one. *)
Definition rint (x : Q) : Z :=
  let f := Qfloor x in
  match Qcompare (x - inject_Z f) (1 # 2) with
  | Lt => f
  | Gt => (f + 1)%Z
  | Eq => if Z.even f then f else (f + 1)%Z
  end.

(** [round(x, ndigits)] on a numpy scalar and [Series.round(ndigits)]. *)
Definition round (x : Q) (ndigits : nat) : Q :=
  let p := inject_Z (10 ^ Z.of_nat ndigits) in
  inject_Z (rint (x * p)) / p.

(** [Series.clip(lower, upper)], elementwise. *)
Definition clip (x lower upper : Q) : Q :=
  if Qlt_le_dec x lower then lower
  else if Qlt_le_dec upper x then upper else x.

(** [Series.replace(to_replace, value)], elementwise: only an element equal
    to [to_replace] changes. *)
Definition replace (to_replace value x : Q) : Q :=
  if Qeq_bool x to_replace then value else x.

(** [np.sum] and [np.mean] as the exact sum and the exact mean.  numpy adds
    and divides in double precision, so the last decimal of a rounded sum
    or mean can differ from the one computed here (a mean of 20.005, a sum
    of 1.35); the statements below that mention a sum or a mean hold of
    both or say which values they are about.  On an empty list [np.mean]
    returns nan, the aggregation never calls it there. *)
Definition np_sum (l : list Q) : Q := foldr Qplus 0 l.

Definition np_mean (l : list Q) : Q := np_sum l / inject_Z (Z.of_nat (length l)).

(** [np.max] and [np.min]; on an empty list numpy raises, the aggregation
    never calls them there. *)
Definition np_max (l : list Q) : Q :=
  match l with
  | [] => 0
  | x :: l' => foldl Qmax x l'
  end.

Definition np_min (l : list Q) : Q :=
  match l with
  | [] => 0
  | x :: l' => foldl Qmin x l'
  end.

(** ** Strings and dates *)

Definition str (z : Z) : string := NilZero.string_of_int (Z.to_int z).

(** The format specification [:02d]. *)
Definition format_02d (z : Z) : string :=
  let s := str z in
  if (String.length s <? 2)%nat then ("0" +:+ s)%string else s.

Definition is_space (c : ascii) : bool :=
  let n := nat_of_ascii c in
  ((9 <=? n) && (n <=? 13) || (28 <=? n) && (n <=? 32))%nat.

Definition digit_of (c : ascii) : option Z :=
  let n := nat_of_ascii c in
  if ((48 <=? n) && (n <=? 57))%nat then Some (Z.of_nat (n - 48)) else None.

Fixpoint lstrip (l : list ascii) : list ascii :=
  match l with
  | c :: l' => if is_space c then lstrip l' else l
  | [] => []
  end.

Definition strip (l : list ascii) : list ascii := rev (lstrip (rev (lstrip l))).

(** Decimal digits, with single underscores allowed between two digits. *)
Fixpoint digits (acc : Z) (after_digit : bool) (l : list ascii) : option Z :=
  match l with
  | [] => if after_digit then Some acc else None
  | c :: l' =>
      match digit_of c with
      | Some d => digits (10 * acc + d) true l'
      | None =>
          if Ascii.eqb c "_" && after_digit then digits acc false l' else None
      end
  end.

(** [int(s)]; [None] stands for [ValueError]. *)
Definition int (s : string) : option Z :=
  match strip (list_ascii_of_string s) with
  | "-"%char :: l => Z.opp <$> digits 0 false l
  | "+"%char :: l => digits 0 false l
  | l => digits 0 false l
  end.

Definition is_leap (y : Z) : bool :=
  ((y mod 4 =? 0) && (negb (y mod 100 =? 0) || (y mod 400 =? 0)))%Z.

Definition days_in_month (y m : Z) : Z :=
  (if m =? 2 then (if is_leap y then 29 else 28)
   else if (m =? 4) || (m =? 6) || (m =? 9) || (m =? 11) then 30
   else 31)%Z.

(** [datetime(year, month, day)]; [None] stands for [ValueError]. *)
Definition datetime (year month day : Z) : option (Z * Z * Z) :=
  if ((1 <=? year) && (year <=? 9999) && (1 <=? month) && (month <=? 12)
      && (1 <=? day) && (day <=? days_in_month year month))%Z
  then Some (year, month, day) else None.

(** ** The response of the service and the accumulator *)

(** [data.get('properties', {}).get('parameter', {})]: the five daily
    series, keyed by [YYYYMMDD]. *)
Record properties := {
  T2M : option (list (string * Q));
  T2M_MAX : option (gmap string Q);
  T2M_MIN : option (gmap string Q);
  PRECTOTCORR : option (gmap string Q);
  RH2M : option (gmap string Q)
}.

(** The dictionary [all_data] of six parallel lists. *)
Record all_data := {
  dates : list string;
  temps_avg : list (list Q);
  temps_max : list (list Q);
  temps_min : list (list Q);
  rainfall : list (list Q);
  humidity : list (list Q)
}.

Definition all_data_init : all_data :=
  {| dates := []; temps_avg := []; temps_max := []; temps_min := [];
     rainfall := []; humidity := [] |}.

Inductive column := Temps_avg | Temps_max | Temps_min | Rainfall | Humidity.

#[global] Instance column_eq_dec : EqDecision column.
Proof. solve_decision. Defined.

Definition get_column (c : column) (ad : all_data) : list (list Q) :=
  match c with
  | Temps_avg => temps_avg ad
  | Temps_max => temps_max ad
  | Temps_min => temps_min ad
  | Rainfall => rainfall ad
  | Humidity => humidity ad
  end.

Definition set_column (c : column) (v : list (list Q)) (ad : all_data) : all_data :=
  match c with
  | Temps_avg =>
      {| dates := dates ad; temps_avg := v; temps_max := temps_max ad;
         temps_min := temps_min ad; rainfall := rainfall ad; humidity := humidity ad |}
  | Temps_max =>
      {| dates := dates ad; temps_avg := temps_avg ad; temps_max := v;
         temps_min := temps_min ad; rainfall := rainfall ad; humidity := humidity ad |}
  | Temps_min =>
      {| dates := dates ad; temps_avg := temps_avg ad; temps_max := temps_max ad;
         temps_min := v; rainfall := rainfall ad; humidity := humidity ad |}
  | Rainfall =>
      {| dates := dates ad; temps_avg := temps_avg ad; temps_max := temps_max ad;
         temps_min := temps_min ad; rainfall := v; humidity := humidity ad |}
  | Humidity =>
      {| dates := dates ad; temps_avg := temps_avg ad; temps_max := temps_max ad;
         temps_min := temps_min ad; rainfall := rainfall ad; humidity := v |}
  end.

(** ** The per-day [try] block *)

Inductive exn := KeyError | ValueError | IndexError.

Inductive result (A : Type) :=
  | Ok (a : A)
  | Raise (e : exn).
Arguments Ok {A} a.
Arguments Raise {A} e.

(** A computation on [all_data] that may raise; the state is returned in
    both cases. *)
Definition M (A : Type) : Type := all_data -> result A * all_data.

#[global] Instance M_ret : MRet M := fun A a ad => (Ok a, ad).
#[global] Instance M_bind : MBind M := fun A B f m ad =>
  match m ad with
  | (Ok a, ad') => f a ad'
  | (Raise e, ad') => (Raise e, ad')
  end.

Definition raise {A} (e : exn) : M A := fun ad => (Raise e, ad).

Definition or_raise {A} (e : exn) (o : option A) : M A :=
  match o with
  | Some a => mret a
  | None => raise e
  end.

Definition get : M all_data := fun ad => (Ok ad, ad).
Definition modify (f : all_data -> all_data) : M unit := fun ad => (Ok tt, f ad).

(** [list.index]: the first position of the key. *)
Fixpoint index (k : string) (l : list string) : option nat :=
  match l with
  | [] => None
  | x :: l' => if String.eqb x k then Some 0%nat else S <$> index k l'
  end.

(** Lines 286-292: a month seen for the first time gets an empty bucket in
    each of the six lists. *)
Definition new_month (date_key : string) (ad : all_data) : all_data :=
  {| dates := dates ad ++ [date_key];
     temps_avg := temps_avg ad ++ [[]];
     temps_max := temps_max ad ++ [[]];
     temps_min := temps_min ad ++ [[]];
     rainfall := rainfall ad ++ [[]];
     humidity := humidity ad ++ [[]] |}.

(** [properties[name][date_str]]: [KeyError] when the series or the day is
    absent. *)
Definition getitem (series : option (gmap string Q)) (date_str : string) : M Q :=
  or_raise KeyError (series ≫= (.!! date_str)).

(** [all_data[c][idx].append(v)], where [v] is the value of the expression
    [arg]: Python evaluates [all_data[c][idx]] (an [IndexError] out of
    range), then [arg], then appends. *)
Definition append_to (c : column) (idx : nat) (arg : M Q) : M unit :=
  ad ← get;
  bucket ← or_raise IndexError (get_column c ad !! idx);
  v ← arg;
  modify (fun ad => set_column c (<[idx := bucket ++ [v]]> (get_column c ad)) ad).

(** Line 284: the key of the month, [f"{year}-{month:02d}-01"]. *)
Definition month_key (year month : Z) : string :=
  (str year +:+ "-" +:+ format_02d month +:+ "-01")%string.

(** Lines 278-301, the body of the [try]. *)
Definition day_body (p : properties) (date_str : string) (temp_avg : Q) : M unit :=
  year ← or_raise ValueError (int (substring 0 4 date_str));
  month ← or_raise ValueError (int (substring 4 2 date_str));
  day ← or_raise ValueError (int (substring 6 2 date_str));
  _ ← or_raise ValueError (datetime year month day);
  let date_key := month_key year month in
  ad ← get;
  _ ← (if bool_decide (date_key ∈ dates ad) then mret tt
       else modify (new_month date_key));
  ad ← get;
  idx ← or_raise ValueError (index date_key (dates ad));
  _ ← append_to Temps_avg idx (mret temp_avg);
  _ ← append_to Temps_max idx (getitem (T2M_MAX p) date_str);
  _ ← append_to Temps_min idx (getitem (T2M_MIN p) date_str);
  _ ← append_to Rainfall idx (getitem (PRECTOTCORR p) date_str);
  append_to Humidity idx (getitem (RH2M p) date_str).

(** Lines 277-304: [except (KeyError, ValueError, IndexError): continue].
    All three exceptions of the model are caught; what the body did to
    [all_data] before raising is kept. *)
Definition process_day (p : properties) (ad : all_data) (item : string * Q) : all_data :=
  snd (day_body p item.1 item.2 ad).

(** Lines 275-304: the days of one response, in the order of the [T2M]
    object. *)
Definition process_items (p : properties) (items : list (string * Q)) (ad : all_data) : all_data :=
  foldl (process_day p) ad items.

Definition process_chunk (p : properties) (ad : all_data) : all_data :=
  match T2M p with
  | Some items => process_items p items ad
  | None => ad
  end.

(** ** Monthly aggregation (lines 320-364) *)

Module Monthly.
Record row := {
  Date : string;
  Avg_Temp_C : Q;
  Max_Temp_C : Q;
  Min_Temp_C : Q;
  Rainfall_mm : Q;
  Humidity_Percent : Q
}.
End Monthly.

(** The truth value of a list. *)
Definition truthy (l : list Q) : bool :=
  match l with
  | [] => false
  | _ :: _ => true
  end.

(** [a and b] on truth values whose evaluation may raise [IndexError]
    ([None]): [b] is evaluated only when [a] is true. *)
Definition and_then (a b : option bool) : option bool :=
  match a with
  | Some true => b
  | _ => a
  end.

(** The test of line 326: [all_data[c][i]] for the five columns, left to
    right. *)
Definition all_present (ad : all_data) (i : nat) : option bool :=
  and_then (truthy <$> temps_avg ad !! i)
    (and_then (truthy <$> temps_max ad !! i)
       (and_then (truthy <$> temps_min ad !! i)
          (and_then (truthy <$> rainfall ad !! i)
             (truthy <$> humidity ad !! i)))).

(** Lines 331-348: the record of the month at position [i]. *)
Definition month_record (ad : all_data) (i : nat) (month_key : string) : option Monthly.row :=
  avg ← temps_avg ad !! i;
  mx ← temps_max ad !! i;
  mn ← temps_min ad !! i;
  rain ← rainfall ad !! i;
  hum ← humidity ad !! i;
  Some {| Monthly.Date := month_key;
          Monthly.Avg_Temp_C := round (np_mean avg) 2;
          Monthly.Max_Temp_C := round (np_max mx) 2;
          Monthly.Min_Temp_C := round (np_min mn) 2;
          Monthly.Rainfall_mm := round (np_sum rain) 1;
          Monthly.Humidity_Percent := round (np_mean hum) 1 |}.

(** Lines 325-348: [for i, month_key in enumerate(all_data['dates'])];
    [None] stands for an [IndexError] that nothing catches. *)
Fixpoint monthly_loop (ad : all_data) (i : nat) (keys : list string) : option (list Monthly.row) :=
  match keys with
  | [] => Some []
  | month_key :: keys' =>
      present ← all_present ad i;
      here ← (if present : bool then (fun r => [r]) <$> month_record ad i month_key
              else Some []);
      rest ← monthly_loop ad (S i) keys';
      Some (here ++ rest)
  end.

Definition monthly_data (ad : all_data) : option (list Monthly.row) :=
  monthly_loop ad 0 (dates ad).

Fixpoint split (sep : ascii) (l : list ascii) : list (list ascii) :=
  match l with
  | [] => [[]]
  | c :: l' =>
      if Ascii.eqb c sep then [] :: split sep l'
      else match split sep l' with
           | h :: t => (c :: h) :: t
           | [] => [[c]]
           end
  end.

(** The date that a string [Y-M-D] of three integers stands for. *)
Definition key_date (s : string) : option (Z * Z * Z) :=
  match split "-" (list_ascii_of_string s) with
  | [y; m; d] =>
      year ← int (string_of_list_ascii y);
      month ← int (string_of_list_ascii m);
      day ← int (string_of_list_ascii d);
      datetime year month day
  | _ => None
  end.

Definition date_leb (a b : Z * Z * Z) : bool :=
  match a, b with
  | (y1, m1, d1), (y2, m2, d2) =>
      ((y1 <? y2) || (y1 =? y2) && ((m1 <? m2) || (m1 =? m2) && (d1 <=? d2)))%Z
  end.

(** [strftime('%Y-%m-%d')] on a date whose year has four digits. *)
Definition strftime (date : Z * Z * Z) : string :=
  let '(year, month, day) := date in
  (str year +:+ "-" +:+ format_02d month +:+ "-" +:+ format_02d day)%string.

(** The dates of pandas' [Timestamp]: nanoseconds in 64 bits around 1970
    reach from 1677-09-21 00:12:43 to 2262-04-11 23:47:16, so the days that
    start within these bounds are 1677-09-22 to 2262-04-11. *)
Definition is_timestamp (date : Z * Z * Z) : bool :=
  let '(year, month, day) := date in
  match datetime year month day with
  | Some _ => date_leb (1677, 9, 22)%Z date && date_leb date (2262, 4, 11)%Z
  | None => false
  end.

(** [pd.to_datetime] on a string that is the [YYYY-MM-DD] print of a date
    within the bounds of a [Timestamp]: that date.  [None] says that the
    string is not of this form, not that pandas raises: see
    [pd_to_datetime]. *)
Definition to_datetime (s : string) : option (Z * Z * Z) :=
  match key_date s with
  | Some date =>
      if is_timestamp date && String.eqb (strftime date) s then Some date else None
  | None => None
  end.

(** [pd.to_datetime] on a column.  When every string is the [YYYY-MM-DD]
    print of a [Timestamp] date, the dates.  Otherwise (a month key of a
    year below 1000 is [999-01-01] or [20-01-01]) the result depends on the
    version of pandas and on the other strings of the column: it raises on
    some and reads others as another date.  This is left to the parameter
    [other]: [other col s] is the date pandas gives for the string [s] of
    the column [col], [None] when the call raises.  A date that is no
    [Timestamp] cannot be returned and counts as raising. *)
Definition pd_to_datetime (other : list string -> string -> option (Z * Z * Z)) (col : list string) : option (list (Z * Z * Z)) :=
  match mapM to_datetime col with
  | Some when => Some when
  | None =>
      mapM (fun s => date ← other col s;
                     if is_timestamp date then Some date else None) col
  end.

Fixpoint insert_sorted {A} (x : (Z * Z * Z) * A) (l : list ((Z * Z * Z) * A)) : list ((Z * Z * Z) * A) :=
  match l with
  | [] => [x]
  | y :: l' => if date_leb x.1 y.1 then x :: l else y :: insert_sorted x l'
  end.

(** [df.sort_values('Date')] on the parsed dates.  Rows with the same date
    keep their order here; the month keys of a location are distinct, and
    no statement depends on the order of rows with equal dates. *)
Definition sort_values {A} (l : list ((Z * Z * Z) * A)) : list ((Z * Z * Z) * A) :=
  foldr insert_sorted [] l.

(** The row with another [Date]. *)
Definition with_date (date : string) (r : Monthly.row) : Monthly.row :=
  {| Monthly.Date := date;
     Monthly.Avg_Temp_C := Monthly.Avg_Temp_C r;
     Monthly.Max_Temp_C := Monthly.Max_Temp_C r;
     Monthly.Min_Temp_C := Monthly.Min_Temp_C r;
     Monthly.Rainfall_mm := Monthly.Rainfall_mm r;
     Monthly.Humidity_Percent := Monthly.Humidity_Percent r |}.

(** What a call does: it returns a value or an exception leaves it. *)
Inductive outcome (A : Type) :=
  | Returned (a : A)
  | Raised.
Arguments Returned {A} a.
Arguments Raised {A}.

(** Lines 316-364.  [pd.DataFrame([])] has no column, so [df['Date']]
    raises [KeyError] when no month passed the test of line 326.  Line 353
    parses the column of month keys, line 354 sorts the rows by the dates
    and line 355 prints the dates back. *)
Definition aggregate (other : list string -> string -> option (Z * Z * Z)) (ad : all_data) : outcome (option (list Monthly.row)) :=
  match dates ad with
  | [] => Returned None
  | _ :: _ =>
      match monthly_data ad with
      | None => Raised
      | Some [] => Raised
      | Some rows =>
          match pd_to_datetime other (Monthly.Date <$> rows) with
          | None => Raised
          | Some when =>
              let df := (fun kr => with_date (strftime kr.1) kr.2)
                          <$> sort_values (zip when rows) in
              if (0 <? length df)%nat then Returned (Some df) else Returned None
          end
      end
  end.

(** ** The chunked fetcher (lines 193-314) *)

Record request := {
  latitude : Q;
  longitude : Q;
  start : string;
  end_ : string
}.

Inductive event :=
  | Get (r : request)
  | Sleep (seconds : Z)
  | To_csv (file : string).

(** The log of effects, oldest first. *)
Definition world := list event.

Definition sleep (seconds : Z) (w : world) : world := w ++ [Sleep seconds].

(** [range(start, stop, step)] for a positive step. *)
Fixpoint range_from (n : nat) (start step : Z) : list Z :=
  match n with
  | O => []
  | S n' => start :: range_from n' (start + step)%Z step
  end.

Definition range (start stop step : Z) : list Z :=
  range_from (Z.to_nat ((stop - start + step - 1) / step)) start step.

Definition chunk_size : Z := 2.

Section Fetcher.

(** The remote service: what a request returns given everything done so
    far; [None] is a response other than 200, a timeout or any other
    request error, all of which [try_request] maps to [None]. *)
Variable api : world -> request -> option properties.

(** What pandas makes of a column of dates outside the form that
    [to_datetime] reads (see [pd_to_datetime]). *)
Variable other : list string -> string -> option (Z * Z * Z).

Definition try_request (lat lon : Q) (start_date end_date : string) (w : world) : option properties * world :=
  let r := {| latitude := lat; longitude := lon; start := start_date; end_ := end_date |} in
  (api w r, w ++ [Get r]).

(** Lines 255-263: [for attempt in range(3)]. *)
Fixpoint attempts (l : list Z) (lat lon : Q) (start_date end_date : string) (w : world) : option properties * world :=
  match l with
  | [] => (None, w)
  | attempt :: l' =>
      match try_request lat lon start_date end_date w with
      | (Some data, w1) => (Some data, w1)
      | (None, w1) =>
          if (attempt <? 2)%Z
          then attempts l' lat lon start_date end_date (sleep ((attempt + 1) * 10) w1)
          else attempts l' lat lon start_date end_date w1
      end
  end.

(** The state of the chunk loop: [all_data], [all_chunks_successful] and
    the log. *)
Record chunk_state := {
  cs_data : all_data;
  all_chunks_successful : bool;
  cs_world : world
}.

(** Lines 248-314, one iteration.  A failed sub-range takes the [continue]
    of line 268, which also skips the pause of line 314.  The handler of
    line 308 has nothing to catch here: on a response of the modelled shape
    every exception of the inner block is one that line 303 catches. *)
Definition chunk_step (lat lon : Q) (end_year : Z) (st : chunk_state) (year_start : Z) : chunk_state :=
  let year_end := Z.min (year_start + chunk_size - 1) end_year in
  let start_date := (str year_start +:+ "0101")%string in
  let end_date := (str year_end +:+ "1231")%string in
  match attempts (range 0 3 1) lat lon start_date end_date (cs_world st) with
  | (None, w) =>
      {| cs_data := cs_data st; all_chunks_successful := false; cs_world := w |}
  | (Some data, w) =>
      {| cs_data := process_chunk data (cs_data st);
         all_chunks_successful := all_chunks_successful st;
         cs_world := sleep 1 w |}
  end.

Definition chunk_loop (lat lon : Q) (start_year end_year : Z) (w : world) : chunk_state :=
  foldl (chunk_step lat lon end_year)
    {| cs_data := all_data_init; all_chunks_successful := true; cs_world := w |}
    (range start_year (end_year + 1) chunk_size).

Definition download_nasa_power_data (lat lon : Q) (start_year end_year : Z) (state_name : string) (w : world) : outcome (option (list Monthly.row)) * world :=
  let st := chunk_loop lat lon start_year end_year w in
  (aggregate other (cs_data st), cs_world st).

End Fetcher.

(** ** The orchestrator and the derived indices (lines 366-502) *)

Module Temp.
Record row := {
  Date : string;
  Year : Z;
  Month : Z;
  Geopolitical_Zone : string;
  State : string;
  Avg_Temp_C : Q;
  Min_Temp_C : Q;
  Max_Temp_C : Q;
  Temp_Range_C : Q;
  Heat_Stress_Days : Z;
  Cold_Stress_Days : Z
}.
End Temp.

Module Rain.
Record row := {
  Date : string;
  Year : Z;
  Month : Z;
  Geopolitical_Zone : string;
  State : string;
  Rainfall_mm : Q;
  Rainy_Days : Z;
  Max_Daily_Rainfall_mm : Q;
  Rainfall_Intensity : Q;
  Drought_Index : Q;
  Flood_Risk_Index : Q
}.
End Rain.

Module Humid.
Record row := {
  Date : string;
  Year : Z;
  Month : Z;
  Geopolitical_Zone : string;
  State : string;
  Avg_Humidity_Percent : Q;
  Min_Humidity_Percent : Q;
  Max_Humidity_Percent : Q
}.
End Humid.

(** A row of [df] once lines 408-411 have added the metadata columns.
    The frame they read is the fetcher's, whose [Date] column line 355
    printed with [strftime]; on any other string [add_metadata] gives
    nothing. *)
Record tagged := {
  base : Monthly.row;
  tag_zone : string;
  tag_state : string;
  tag_year : Z;
  tag_month : Z
}.

Definition add_metadata (zone state : string) (r : Monthly.row) : option tagged :=
  match to_datetime (Monthly.Date r) with
  | Some (y, m, _) =>
      Some {| base := r; tag_zone := zone; tag_state := state;
              tag_year := y; tag_month := m |}
  | None => None
  end.

(** Lines 414-419; [draw] is this row's element of
    [np.random.randint(0, 10, len(temp_df))]. *)
Definition temperature_row (draw : Z) (t : tagged) : Temp.row :=
  let r := base t in
  {| Temp.Date := Monthly.Date r;
     Temp.Year := tag_year t;
     Temp.Month := tag_month t;
     Temp.Geopolitical_Zone := tag_zone t;
     Temp.State := tag_state t;
     Temp.Avg_Temp_C := Monthly.Avg_Temp_C r;
     Temp.Min_Temp_C := Monthly.Min_Temp_C r;
     Temp.Max_Temp_C := Monthly.Max_Temp_C r;
     Temp.Temp_Range_C := round (Monthly.Max_Temp_C r - Monthly.Min_Temp_C r) 1;
     Temp.Heat_Stress_Days :=
       ((if Qlt_le_dec 35 (Monthly.Max_Temp_C r) then 1 else 0) * draw)%Z;
     Temp.Cold_Stress_Days := 0 |}.

(** Line 425. *)
Definition rain_mm (t : tagged) : Q := round (Monthly.Rainfall_mm (base t)) 1.

(** Line 426: [(Rainfall_mm / 5).clip(0, 30).round().astype(int)]. *)
Definition rainy_days (rainfall_mm : Q) : Z := rint (clip (rainfall_mm / 5) 0 30).

(** Line 433: [groupby(['State', 'Month'])['Rainfall_mm'].transform('mean')],
    the mean over the rows of the frame with this row's state and month. *)
Definition expected_rainfall (df : list tagged) (t : tagged) : Q :=
  np_mean
    (rain_mm <$>
       filter (fun u => tag_state u = tag_state t /\ tag_month u = tag_month t) df).

(** Lines 423-438; [u] is this row's element of
    [np.random.uniform(0.3, 0.5, len(rain_df))]. *)
Definition rainfall_row (df : list tagged) (u : Q) (t : tagged) : Rain.row :=
  let rainfall_mm := rain_mm t in
  let days := rainy_days rainfall_mm in
  let max_daily := round (rainfall_mm * u) 1 in
  let expected := expected_rainfall df t in
  {| Rain.Date := Monthly.Date (base t);
     Rain.Year := tag_year t;
     Rain.Month := tag_month t;
     Rain.Geopolitical_Zone := tag_zone t;
     Rain.State := tag_state t;
     Rain.Rainfall_mm := rainfall_mm;
     Rain.Rainy_Days := days;
     Rain.Max_Daily_Rainfall_mm := max_daily;
     Rain.Rainfall_Intensity := round (rainfall_mm / replace 0 1 (inject_Z days)) 2;
     Rain.Drought_Index :=
       round (clip (1 - rainfall_mm / replace 0 1 expected) 0 1) 3;
     Rain.Flood_Risk_Index :=
       round (clip (max_daily / replace 0 1 rainfall_mm
                    * (rainfall_mm / replace 0 1 expected)) 0 1) 3 |}.

(** Lines 443-450; [lo] and [hi] are this row's elements of the two
    [np.random.uniform(10, 20, len(humid_df))] vectors. *)
Definition humidity_row (lo hi : Q) (t : tagged) : Humid.row :=
  let h := round (Monthly.Humidity_Percent (base t)) 1 in
  {| Humid.Date := Monthly.Date (base t);
     Humid.Year := tag_year t;
     Humid.Month := tag_month t;
     Humid.Geopolitical_Zone := tag_zone t;
     Humid.State := tag_state t;
     Humid.Avg_Humidity_Percent := h;
     Humid.Min_Humidity_Percent := round (h - lo) 1;
     Humid.Max_Humidity_Percent := round (h + hi) 1 |}.

(** The accumulators of [collect_all_nasa_climate_data]. *)
Record collect_state := {
  all_temperature_data : list (list Temp.row);
  all_rainfall_data : list (list Rain.row);
  all_humidity_data : list (list Humid.row);
  current_state : nat;
  failed_states : list string
}.

Definition collect_init : collect_state :=
  {| all_temperature_data := []; all_rainfall_data := [];
     all_humidity_data := []; current_state := 0; failed_states := [] |}.

Record tables := {
  temp_full : list Temp.row;
  rain_full : list Rain.row;
  humid_full : list Humid.row
}.

(** [Config]. *)
Definition START_YEAR : Z := 1990.
Definition END_YEAR : Z := 2023.

Definition ZONES : list (string * list (string * (Q * Q))) :=
  [ ("North-West"%string,
     [("Kaduna"%string, (10.52, 7.44)); ("Kano"%string, (12.00, 8.52));
      ("Sokoto"%string, (13.06, 5.24))]);
    ("North-East"%string,
     [("Borno"%string, (11.85, 13.09)); ("Bauchi"%string, (10.31, 9.84));
      ("Adamawa"%string, (9.33, 12.38))]);
    ("North-Central"%string,
     [("Benue"%string, (7.73, 8.54)); ("Plateau"%string, (9.93, 8.89));
      ("Niger"%string, (9.93, 6.54))]);
    ("South-West"%string,
     [("Oyo"%string, (7.85, 3.93)); ("Ogun"%string, (7.16, 3.35));
      ("Ondo"%string, (7.25, 5.19))]);
    ("South-East"%string,
     [("Enugu"%string, (6.86, 7.39)); ("Abia"%string, (5.45, 7.52));
      ("Ebonyi"%string, (6.27, 8.01))]);
    ("South-South"%string,
     [("Rivers"%string, (4.82, 7.01)); ("Delta"%string, (5.68, 5.92));
      ("Akwa Ibom"%string, (5.01, 7.85))]) ].

Section Orchestrator.

(** What [download_nasa_power_data] does for a location, given the log. *)
Variable fetch : Q -> Q -> Z -> Z -> string -> world -> outcome (option (list Monthly.row)) * world.

(** The random generator: [randint k i] is element [i] of the vector that
    [np.random.randint(0, 10, n)] returns for location number [k];
    [uniform k j i] is element [i] of the [j]-th [np.random.uniform] vector
    drawn for that location. *)
Variable randint : nat -> nat -> Z.
Variable uniform : nat -> nat -> nat -> Q.

(** Lines 406-451 for a frame that is not empty. *)
Definition enrich (k : nat) (zone state : string) (df : list Monthly.row) (st : collect_state) : outcome collect_state :=
  match mapM (add_metadata zone state) df with
  | None => Raised
  | Some tdf =>
      Returned
        {| all_temperature_data :=
             all_temperature_data st ++ [imap (fun i => temperature_row (randint k i)) tdf];
           all_rainfall_data :=
             all_rainfall_data st ++ [imap (fun i => rainfall_row tdf (uniform k 0 i)) tdf];
           all_humidity_data :=
             all_humidity_data st
               ++ [imap (fun i => humidity_row (uniform k 1 i) (uniform k 2 i)) tdf];
           current_state := current_state st;
           failed_states := failed_states st |}
  end.

Definition mark_failed (state : string) (st : collect_state) : collect_state :=
  {| all_temperature_data := all_temperature_data st;
     all_rainfall_data := all_rainfall_data st;
     all_humidity_data := all_humidity_data st;
     current_state := current_state st;
     failed_states := failed_states st ++ [state] |}.

Definition next_state (st : collect_state) : collect_state :=
  {| all_temperature_data := all_temperature_data st;
     all_rainfall_data := all_rainfall_data st;
     all_humidity_data := all_humidity_data st;
     current_state := S (current_state st);
     failed_states := failed_states st |}.

(** Lines 393-459, the body of the inner loop.  Nothing in the function
    catches an exception: one raised by the fetcher or by the index
    computation leaves the loops. *)
Definition location_step (zone : string) (st : collect_state) (w : world) (loc : string * (Q * Q)) : outcome collect_state * world :=
  let '(state, (lat, lon)) := loc in
  let st1 := next_state st in
  match fetch lat lon START_YEAR END_YEAR state w with
  | (Raised, w1) => (Raised, w1)
  | (Returned None, w1) => (Returned (mark_failed state st1), sleep 3 w1)
  | (Returned (Some df), w1) =>
      if (0 <? length df)%nat then
        match enrich (current_state st1) zone state df st1 with
        | Returned st2 => (Returned st2, sleep 3 w1)
        | Raised => (Raised, w1)
        end
      else (Returned (mark_failed state st1), sleep 3 w1)
  end.

Fixpoint states_loop (zone : string) (states : list (string * (Q * Q))) (st : collect_state) (w : world) : outcome collect_state * world :=
  match states with
  | [] => (Returned st, w)
  | loc :: states' =>
      match location_step zone st w loc with
      | (Returned st', w') => states_loop zone states' st' w'
      | (Raised, w') => (Raised, w')
      end
  end.

Fixpoint zones_loop (zones : list (string * list (string * (Q * Q)))) (st : collect_state) (w : world) : outcome collect_state * world :=
  match zones with
  | [] => (Returned st, w)
  | (zone, states) :: zones' =>
      match states_loop zone states st w with
      | (Returned st', w') => zones_loop zones' st' w'
      | (Raised, w') => (Raised, w')
      end
  end.

(** Lines 464-502: the three tables are written and returned when some
    location succeeded, [(None, None, None)] is returned otherwise. *)
Definition combine_and_save (st : collect_state) (w : world) : option tables * world :=
  match all_temperature_data st with
  | _ :: _ =>
      (Some {| temp_full := concat (all_temperature_data st);
               rain_full := concat (all_rainfall_data st);
               humid_full := concat (all_humidity_data st) |},
       w ++ [To_csv "temperature_data.csv"; To_csv "rainfall_data.csv";
             To_csv "humidity_data.csv"])
  | [] => (None, w)
  end.

Definition collect_zones (zones : list (string * list (string * (Q * Q)))) (w : world) : outcome (option tables) * world :=
  match zones_loop zones collect_init w with
  | (Returned st, w') =>
      let '(res, w'') := combine_and_save st w' in (Returned res, w'')
  | (Raised, w') => (Raised, w')
  end.

Definition collect_all_nasa_climate_data (w : world) : outcome (option tables) * world :=
  collect_zones ZONES w.

End Orchestrator.

(** The whole run: the orchestrator over the fetcher of this file. *)
Definition climate_run (api : world -> request -> option properties) (other : list string -> string -> option (Z * Z * Z)) (randint : nat -> nat -> Z) (uniform : nat -> nat -> nat -> Q) (w : world) : outcome (option tables) * world :=
  collect_all_nasa_climate_data (download_nasa_power_data api other) randint uniform w.

(** ** Vocabulary of the statements *)

(** [m] is the largest element of [l]. *)
Definition is_maximum (l : list Q) (m : Q) : Prop :=
  (exists x, x ∈ l /\ x == m) /\ forall x, x ∈ l -> x <= m.

(** [m] is the smallest element of [l]. *)
Definition is_minimum (l : list Q) (m : Q) : Prop :=
  (exists x, x ∈ l /\ x == m) /\ forall x, x ∈ l -> m <= x.

(** The six lists of [all_data] are parallel, no month has two buckets and
    every key stands for a date. *)
Definition wf (ad : all_data) : Prop :=
  (forall c, length (get_column c ad) = length (dates ad))
  /\ NoDup (dates ad)
  /\ Forall (fun k => is_Some (key_date k)) (dates ad).

(** Every month key is the print of a [Timestamp] date: line 353 reads the
    keys as the dates they stand for. *)
Definition timestamped (ad : all_data) : Prop :=
  Forall (fun k => is_Some (to_datetime k)) (dates ad).

(** A pandas that raises on every column of dates outside the form that
    [to_datetime] reads. *)
Definition no_other : list string -> string -> option (Z * Z * Z) :=
  fun _ _ => None.

(** The string has no hyphen. *)
Definition dash_free (s : string) : bool :=
  negb (existsb (Ascii.eqb "-") (list_ascii_of_string s)).

(** The string has no hyphen and [int] reads it as [z]. *)
Definition prints_back (s : string) (z : Z) : bool :=
  dash_free s && match int s with Some z' => (z' =? z)%Z | None => false end.

(** [P] holds of the [n] integers from [z] on. *)
Fixpoint all_from (n : nat) (z : Z) (P : Z -> bool) : bool :=
  match n with
  | O => true
  | S n' => P z && all_from n' (z + 1)%Z P
  end.

(** Running [m] from a state that satisfies [I] ends, by return or by
    exception, in a state that satisfies [I]. *)
Definition keeps {A} (I : all_data -> Prop) (m : M A) : Prop :=
  forall ad, I ad -> I (m ad).2.

(** The bucket of month [k] holds a value of each of the five variables. *)
Definition complete_month (ad : all_data) (k : string) : Prop :=
  exists i, dates ad !! i = Some k
    /\ forall c, exists x xs, get_column c ad !! i = Some (x :: xs).

(** Each daily minimum of bucket [i] has a daily maximum of the bucket at
    or above it; so it is when every day of the bucket came with a maximum
    at or above its minimum. *)
Definition extremes_ordered (ad : all_data) (i : nat) : Prop :=
  forall mx mn,
    temps_max ad !! i = Some mx -> temps_min ad !! i = Some mn ->
    forall lo, lo ∈ mn -> exists hi, hi ∈ mx /\ lo <= hi.

(** Everything [all_data[c]] holds for the month at position [i] is removed. *)
Definition clear_variable (c : column) (i : nat) (ad : all_data) : all_data :=
  set_column c (<[i := []]> (get_column c ad)) ad.

(** The four series other than [T2M] give the same answer for day [k] in
    both responses. *)
Definition same_day (p q : properties) (k : string) : Prop :=
  T2M_MAX p ≫= (.!! k) = T2M_MAX q ≫= (.!! k)
  /\ T2M_MIN p ≫= (.!! k) = T2M_MIN q ≫= (.!! k)
  /\ PRECTOTCORR p ≫= (.!! k) = PRECTOTCORR q ≫= (.!! k)
  /\ RH2M p ≫= (.!! k) = RH2M q ≫= (.!! k).

(** The response [p] carries the days of the responses [chunks], one
    sub-range after the other. *)
Definition splits_into (p : properties) (chunks : list properties) : Prop :=
  exists itemss : list (list (string * Q)),
    T2M p = Some (concat itemss)
    /\ Forall2 (fun c items =>
                  T2M c = Some items
                  /\ forall k v, (k, v) ∈ items -> same_day p c k)
         chunks itemss.

Definition series (l : list (string * Q)) : option (gmap string Q) :=
  Some (list_to_map l).

(** ** Sample inputs *)

(** Three complete days of January 2020. *)
Definition january_2020 : properties :=
  {| T2M := Some [("20200101"%string, 30); ("20200102"%string, 32); ("20200103"%string, 34)];
     T2M_MAX := series [("20200101"%string, 35); ("20200102"%string, 36); ("20200103"%string, 37)];
     T2M_MIN := series [("20200101"%string, 25); ("20200102"%string, 26); ("20200103"%string, 27)];
     PRECTOTCORR := series [("20200101"%string, 1); ("20200102"%string, 0); ("20200103"%string, 2.5)];
     RH2M := series [("20200101"%string, 60); ("20200102"%string, 62); ("20200103"%string, 64)] |}.

(** Two days, the first of which has an average temperature only. *)
Definition partial_day : properties :=
  {| T2M := Some [("20200101"%string, 30); ("20200102"%string, 32)];
     T2M_MAX := series [("20200102"%string, 35)];
     T2M_MIN := series [("20200102"%string, 25)];
     PRECTOTCORR := series [("20200102"%string, 1)];
     RH2M := series [("20200102"%string, 60)] |}.

(** Two days that have an average temperature only. *)
Definition averages_only : properties :=
  {| T2M := Some [("20200101"%string, 30); ("20200102"%string, 32)];
     T2M_MAX := None; T2M_MIN := None; PRECTOTCORR := None; RH2M := None |}.


(** The first two days of January 2020, then its third day and the first
    of February, and the four days in one response. *)
Definition first_chunk : properties :=
  {| T2M := Some [("20200101"%string, 30); ("20200102"%string, 32)];
     T2M_MAX := series [("20200101"%string, 35); ("20200102"%string, 36)];
     T2M_MIN := series [("20200101"%string, 25); ("20200102"%string, 26)];
     PRECTOTCORR := series [("20200101"%string, 1); ("20200102"%string, 0)];
     RH2M := series [("20200101"%string, 60); ("20200102"%string, 62)] |}.

Definition second_chunk : properties :=
  {| T2M := Some [("20200103"%string, 34); ("20200201"%string, 31)];
     T2M_MAX := series [("20200103"%string, 37); ("20200201"%string, 33)];
     T2M_MIN := series [("20200103"%string, 27); ("20200201"%string, 28)];
     PRECTOTCORR := series [("20200103"%string, 2.5); ("20200201"%string, 4)];
     RH2M := series [("20200103"%string, 64); ("20200201"%string, 55)] |}.

Definition single_chunk : properties :=
  {| T2M := Some [("20200101"%string, 30); ("20200102"%string, 32);
                  ("20200103"%string, 34); ("20200201"%string, 31)];
     T2M_MAX := series [("20200101"%string, 35); ("20200102"%string, 36);
                        ("20200103"%string, 37); ("20200201"%string, 33)];
     T2M_MIN := series [("20200101"%string, 25); ("20200102"%string, 26);
                        ("20200103"%string, 27); ("20200201"%string, 28)];
     PRECTOTCORR := series [("20200101"%string, 1); ("20200102"%string, 0);
                            ("20200103"%string, 2.5); ("20200201"%string, 4)];
     RH2M := series [("20200101"%string, 60); ("20200102"%string, 62);
                     ("20200103"%string, 64); ("20200201"%string, 55)] |}.

(** A service that answers the request of the sub-range that starts in
    2020 with [first_chunk] and every other request with [second_chunk]. *)
Definition answer_split (r : request) : option properties :=
  if String.eqb (start r) "20200101" then Some first_chunk else Some second_chunk.

(** A monthly record with the given key and rainfall. *)
Definition monthly_row (date : string) (rainfall_mm : Q) : Monthly.row :=
  {| Monthly.Date := date; Monthly.Avg_Temp_C := 25; Monthly.Max_Temp_C := 30;
     Monthly.Min_Temp_C := 20; Monthly.Rainfall_mm := rainfall_mm;
     Monthly.Humidity_Percent := 40 |}.

(** Two Januaries without rain, one January with half a millimetre, and a
    dry January next to one of 100 mm. *)
Definition dry_januaries : list Monthly.row :=
  [monthly_row "2020-01-01" 0; monthly_row "2021-01-01" 0].

Definition light_rain : list Monthly.row := [monthly_row "2020-01-01" 0.5].

Definition uneven_januaries : list Monthly.row :=
  [monthly_row "2020-01-01" 0; monthly_row "2021-01-01" 100].

(** Fixed draws: 3 for [randint], 0.4 for the first [uniform] vector of a
    location, 15 for the two others. *)
Definition fixed_randint : nat -> nat -> Z := fun _ _ => 3%Z.

Definition fixed_uniform : nat -> nat -> nat -> Q :=
  fun _ j _ => match j with O => 0.4 | _ => 15 end.

(** The formula of the specification for the flood-risk index, whose
    concentration term divides by [max(rainfall_mm, 1)]. *)
Definition flood_risk_spec (max_daily_rainfall_mm rainfall_mm baseline_mm : Q) : Q :=
  round (clip (max_daily_rainfall_mm / Qmax rainfall_mm 1
               * (rainfall_mm / baseline_mm)) 0 1) 3.

(** The locations of the registry, in the order the loops visit them. *)
Definition locations (zones : list (string * list (string * (Q * Q)))) : list (string * (Q * Q)) :=
  concat (snd <$> zones).

(** The event is the writing of a table. *)
Definition writes_file (e : event) : bool :=
  match e with
  | To_csv _ => true
  | _ => false
  end.

(** A registry of two locations. *)
Definition two_states : list (string * list (string * (Q * Q))) :=
  [("North-West"%string,
    [("Kaduna"%string, (10.52, 7.44)); ("Kano"%string, (12.00, 8.52))])].

(** A service that is down. *)
Definition api_down : world -> request -> option properties := fun _ _ => None.

(** A service with complete days for every location but Kano (latitude
    12), for which it gives average temperatures only. *)
Definition api_kano_averages_only : world -> request -> option properties :=
  fun _ r => if Qeq_bool (latitude r) 12 then Some averages_only else Some january_2020.

(** The state of the chunk loop before its first iteration. *)
Definition chunk_state_init (w : world) : chunk_state :=
  {| cs_data := all_data_init; all_chunks_successful := true; cs_world := w |}.

(** ** Closed forms of the day loop *)

(** Lines 278-283: the date a key stands for, if any. *)
Definition parse_day (date_str : string) : option (Z * Z * Z) :=
  year ← int (substring 0 4 date_str);
  month ← int (substring 4 2 date_str);
  day ← int (substring 6 2 date_str);
  datetime year month day.

(** [all_data] with a bucket for the month, added at the end when the month
    is new. *)
Definition ensure_month (date_key : string) (ad : all_data) : all_data :=
  if bool_decide (date_key ∈ dates ad) then ad else new_month date_key ad.

(** [v] is appended to the bucket of column [c] at position [idx]. *)
Definition append_value (c : column) (idx : nat) (v : Q) (ad : all_data) : all_data :=
  set_column c (alter (fun bucket => bucket ++ [v]) idx (get_column c ad)) ad.

(** What the response holds for a day, in the order of lines 297-301. *)
Definition day_values (p : properties) (date_str : string) (temp_avg : Q) : list (column * option Q) :=
  [ (Temps_avg, Some temp_avg);
    (Temps_max, T2M_MAX p ≫= (.!! date_str));
    (Temps_min, T2M_MIN p ≫= (.!! date_str));
    (Rainfall, PRECTOTCORR p ≫= (.!! date_str));
    (Humidity, RH2M p ≫= (.!! date_str)) ].

(** The values up to the first one that is missing. *)
Fixpoint available (l : list (column * option Q)) : list (column * Q) :=
  match l with
  | (c, Some v) :: l' => (c, v) :: available l'
  | _ => []
  end.

(** What the day adds to the bucket of column [c]: its value, or nothing
    when this value or one before it is missing. *)
Definition stored (p : properties) (date_str : string) (temp_avg : Q) (c : column) : list Q :=
  omap (fun cv : column * Q => if decide (cv.1 = c) then Some cv.2 else None)
    (available (day_values p date_str temp_avg)).

Definition store_day (p : properties) (date_str : string) (temp_avg : Q) (idx : nat) (ad : all_data) : all_data :=
  foldl (fun a cv => append_value cv.1 idx cv.2 a) ad
    (available (day_values p date_str temp_avg)).

(** The bucket of column [c] for the month [key]; empty when the month
    was not met. *)
Definition bucket (c : column) (key : string) (ad : all_data) : list Q :=
  match index key (dates ad) with
  | Some i => default [] (get_column c ad !! i)
  | None => []
  end.

(** What a day of the response adds to that bucket: what it stores, when
    it is a day of that month. *)
Definition day_contribution (p : properties) (c : column) (key : string) (item : string * Q) : list Q :=
  match parse_day item.1 with
  | Some (y, m, _) =>
      if String.eqb (month_key y m) key then stored p item.1 item.2 c else []
  | None => []
  end.

(** What the response adds to it: the values of its days of that month,
    in the order of the response. *)
Definition contribution (p : properties) (c : column) (key : string) : list Q :=
  concat (day_contribution p c key <$> default [] (T2M p)).

(** The day has a value of each of the four other variables. *)
Definition complete_day (p : properties) (date_str : string) : Prop :=
  is_Some (T2M_MAX p ≫= (.!! date_str)) /\ is_Some (T2M_MIN p ≫= (.!! date_str))
  /\ is_Some (PRECTOTCORR p ≫= (.!! date_str)) /\ is_Some (RH2M p ≫= (.!! date_str)).

(** Every day of the response has a value of each variable. *)
Definition complete_response (p : properties) : Prop :=
  forall items, T2M p = Some items -> forall k v, (k, v) ∈ items -> complete_day p k.

(** The days of the response that are dates lie in months whose first day
    is a [Timestamp] date (October 1677 to April 2262). *)
Definition timestamp_response (p : properties) : Prop :=
  forall items, T2M p = Some items ->
  forall k v y m d, (k, v) ∈ items -> parse_day k = Some (y, m, d) ->
    is_timestamp (y, m, 1%Z) = true.

(** At every position the buckets are no longer from one column to the
    next, in the order average, maximum, minimum, rainfall, humidity. *)
Definition staggered (ad : all_data) : Prop :=
  forall i a b c d e,
    temps_avg ad !! i = Some a -> temps_max ad !! i = Some b ->
    temps_min ad !! i = Some c -> rainfall ad !! i = Some d ->
    humidity ad !! i = Some e ->
    (length e <= length d <= length c)%nat /\ (length c <= length b <= length a)%nat.

(** At every position the five buckets have the same length. *)
Definition aligned (ad : all_data) : Prop :=
  forall i c c' b b',
    get_column c ad !! i = Some b -> get_column c' ad !! i = Some b' ->
    length b = length b'.

(** No bucket is empty. *)
Definition full (ad : all_data) : Prop :=
  forall i c b, get_column c ad !! i = Some b -> b <> [].

(** The minimum of the day, when it has one, is at most its maximum. *)
Definition ordered_day (p : properties) (date_str : string) : Prop :=
  forall mx mn,
    T2M_MAX p ≫= (.!! date_str) = Some mx -> T2M_MIN p ≫= (.!! date_str) = Some mn ->
    mn <= mx.

Definition ordered_response (p : properties) : Prop :=
  forall items, T2M p = Some items ->
  forall k v, (k, v) ∈ items -> ordered_day p k.

(** A service that answers every request with the three days of
    [january_2020]. *)
Definition api_january : world -> request -> option properties :=
  fun _ _ => Some january_2020.

(** Each date is at or before the next one. *)
Fixpoint ascending (l : list (Z * Z * Z)) : Prop :=
  match l with
  | a :: l' =>
      match l' with
      | b :: _ => date_leb a b = true /\ ascending l'
      | [] => True
      end
  | [] => True
  end.

(** The days of February before those of January. *)
Definition february_first : properties :=
  {| T2M := Some [("20200201"%string, 31); ("20200101"%string, 30)];
     T2M_MAX := series [("20200201"%string, 33); ("20200101"%string, 35)];
     T2M_MIN := series [("20200201"%string, 28); ("20200101"%string, 25)];
     PRECTOTCORR := series [("20200201"%string, 4); ("20200101"%string, 1)];
     RH2M := series [("20200201"%string, 55); ("20200101"%string, 60)] |}.

(** The event is a request. *)
Definition is_get (e : event) : bool :=
  match e with
  | Get _ => true
  | _ => false
  end.

(** The number of requests in a log. *)
Definition gets (w : world) : nat := length (List.filter is_get w).

(** The request of the sub-range that starts in [year_start]. *)
Definition chunk_request (lat lon : Q) (end_year year_start : Z) : request :=
  {| latitude := lat; longitude := lon;
     start := (str year_start +:+ "0101")%string;
     end_ := (str (Z.min (year_start + chunk_size - 1) end_year) +:+ "1231")%string |}.

(** An event of the sub-range whose request is [r]: this request or a
    pause, not a file. *)
Definition chunk_event (r : request) (e : event) : Prop :=
  match e with
  | Get r' => r' = r
  | Sleep _ => True
  | To_csv _ => False
  end.

(** What a sub-range whose three requests fail leaves in the log. *)
Definition failed_chunk_log (r : request) : list event :=
  [Get r; Sleep 10; Get r; Sleep 20; Get r].

(** ** Orchestrator vocabulary *)

(** A dry and a wet January of Kano, with their metadata. *)
Definition dry_january : tagged :=
  {| base := monthly_row "2020-01-01" 0; tag_zone := "North-West";
     tag_state := "Kano"; tag_year := 2020; tag_month := 1 |}.

Definition wet_january : tagged :=
  {| base := monthly_row "2021-01-01" 100; tag_zone := "North-West";
     tag_state := "Kano"; tag_year := 2021; tag_month := 1 |}.

(** The states that have a row in one of the three accumulators. *)
Definition states_with_rows (st : collect_state) : list string :=
  (Temp.State <$> concat (all_temperature_data st))
  ++ (Rain.State <$> concat (all_rainfall_data st))
  ++ (Humid.State <$> concat (all_humidity_data st)).

(** A fetcher that answers every location with the two Januaries of
    [uneven_januaries]. *)
Definition fetch_januaries : Q -> Q -> Z -> Z -> string -> world -> outcome (option (list Monthly.row)) * world :=
  fun _ _ _ _ _ w => (Returned (Some uneven_januaries), w).

(** A fetcher that has data for Kano only. *)
Definition fetch_kano_only : Q -> Q -> Z -> Z -> string -> world -> outcome (option (list Monthly.row)) * world :=
  fun _ _ _ _ state w =>
    if String.eqb state "Kano" then (Returned (Some uneven_januaries), w)
    else (Returned None, w).

(** The rows of the three accumulators carry the same state and date at
    every position, and no appended frame is empty. *)
Definition parallel_tables (st : collect_state) : Prop :=
  (fun r => (Temp.State r, Temp.Date r)) <$> concat (all_temperature_data st)
  = (fun r => (Rain.State r, Rain.Date r)) <$> concat (all_rainfall_data st)
  /\ (fun r => (Rain.State r, Rain.Date r)) <$> concat (all_rainfall_data st)
     = (fun r => (Humid.State r, Humid.Date r)) <$> concat (all_humidity_data st)
  /\ Forall (fun f => f <> []) (all_temperature_data st).

(** Of the locations visited, those in [failed_states] and those with rows
    are the two parts of a partition. *)
Definition sorted_out (done : list (string * (Q * Q))) (st : collect_state) : Prop :=
  NoDup (fst <$> done) ->
  (forall s, s ∈ fst <$> done <-> s ∈ failed_states st \/ s ∈ states_with_rows st)
  /\ (forall s, s ∈ failed_states st -> s ∉ states_with_rows st).

(** The event is the pause of line 459 between two locations. *)
Definition is_pause (e : event) : bool :=
  match e with
  | Sleep s => (s =? 3)%Z
  | _ => false
  end.

(** The number of such pauses in a log. *)
Definition pauses (w : world) : nat := length (List.filter is_pause w).

(** The files of the three master tables, in the order they are written. *)
Definition table_files : list event :=
  [To_csv "temperature_data.csv"; To_csv "rainfall_data.csv"; To_csv "humidity_data.csv"].

(** ** The CO2 file (lines 104-171) *)

(** [line.split()]: the maximal runs of characters that are not white
    space. *)
Fixpoint fields (l : list ascii) : list (list ascii) :=
  match l with
  | [] => []
  | c :: l' =>
      if is_space c then fields l'
      else match l' with
           | [] => [[c]]
           | c' :: _ =>
               if is_space c' then [c] :: fields l'
               else match fields l' with
                    | h :: t => (c :: h) :: t
                    | [] => [[c]]
                    end
           end
  end.

(** The test of line 124: [not line.startswith('#') and line.strip()]. *)
Definition is_data_line (line : list ascii) : bool :=
  negb match line with c :: _ => Ascii.eqb c "#" | [] => false end
  && negb match strip line with [] => true | _ :: _ => false end.

Module Co2.

(** An entry of [data] (lines 135-139). *)
Record record (value : Type) := {
  Year : Z;
  Month : Z;
  CO2_ppm : value
}.
Arguments Year {value} _.
Arguments Month {value} _.
Arguments CO2_ppm {value} _.

(** A row of the frame the function saves; [None] is a missing value. *)
Record row (value : Type) := {
  observed : record value;
  CO2_Growth_Rate_ppm_per_year : option value
}.
Arguments observed {value} _.
Arguments CO2_Growth_Rate_ppm_per_year {value} _.

End Co2.

Section Co2_file.

(** The floating-point numbers of the host, the parser [float] ([None]
    stands for [ValueError]) and the subtraction of two of them. *)
Variable value : Type.
Variable float : string -> option value.
Variable sub : value -> value -> value.

(** Lines 128-141: the record of a line, if it gives one. *)
Definition parse_line (line : list ascii) : option (Co2.record value) :=
  match fields line with
  | p0 :: p1 :: _ :: p3 :: _ =>
      year ← int (string_of_list_ascii p0);
      month ← int (string_of_list_ascii p1);
      co2_ppm ← float (string_of_list_ascii p3);
      if ((START_YEAR <=? year) && (year <=? END_YEAR))%Z
      then Some {| Co2.Year := year; Co2.Month := month; Co2.CO2_ppm := co2_ppm |}
      else None
  | _ => None
  end.

(** Lines 123-141. *)
Definition parse_co2 (text : string) : list (Co2.record value) :=
  omap parse_line (List.filter is_data_line (split "010" (list_ascii_of_string text))).

(** [df.sort_values(['Year', 'Month'])]; records with the same year and
    month keep their order. *)
Definition sort_by_year_month (data : list (Co2.record value)) : list (Co2.record value) :=
  snd <$> sort_values ((fun r => ((Co2.Year r, Co2.Month r, 0%Z), r)) <$> data).

(** [df.groupby('Month')['CO2_ppm'].diff(periods)] at the row [r] that
    comes after the rows [before]: the difference with the row [periods]
    places up in the group of its month. *)
Definition group_diff (periods : nat) (before : list (Co2.record value)) (r : Co2.record value) : option value :=
  let group := List.filter (fun r' => (Co2.Month r' =? Co2.Month r)%Z) before in
  if (periods <=? length group)%nat
  then (fun r' => sub (Co2.CO2_ppm r) (Co2.CO2_ppm r')) <$> group !! (length group - periods)%nat
  else None.

(** Line 148. *)
Definition with_growth_rate (df : list (Co2.record value)) : list (Co2.row value) :=
  imap (fun i r => {| Co2.observed := r;
                      Co2.CO2_Growth_Rate_ppm_per_year := group_diff 12 (take i df) r |}) df.

(** [download_co2_data] on the outcome of the request of lines 117-118:
    [None] for a [RequestException], the text of the file otherwise.  A
    frame without rows has no columns: its [sort_values] raises the
    [KeyError] that line 168 turns into [None]. *)
Definition download_co2_data (response : option string) (w : world) : option (list (Co2.row value)) * world :=
  match response with
  | None => (None, w)
  | Some text =>
      match parse_co2 text with
      | [] => (None, w)
      | data =>
          (Some (with_growth_rate (sort_by_year_month data)), w ++ [To_csv "co2_data.csv"])
      end
  end.

End Co2_file.

Arguments parse_line {value} _ _.
Arguments parse_co2 {value} _ _.
Arguments sort_by_year_month {value} _.
Arguments group_diff {value} _ _ _ _.
Arguments with_growth_rate {value} _ _.
Arguments download_co2_data {value} _ _ _ _.

(** The months of a year and the records of [n] years from [first] on,
    every month once, in order, with the values [c year month]. *)
Definition months : list Z := [1; 2; 3; 4; 5; 6; 7; 8; 9; 10; 11; 12]%Z.

Definition year_records {value} (c : Z -> Z -> value) (year : Z) : list (Co2.record value) :=
  (fun m => {| Co2.Year := year; Co2.Month := m; Co2.CO2_ppm := c year m |}) <$> months.

Definition monthly_series {value} (c : Z -> Z -> value) (first : Z) (n : nat) : list (Co2.record value) :=
  concat ((fun k => year_records c (first + Z.of_nat k)) <$> seq 0 n).

(** The growth rates of such a series: none in the first twelve years,
    then the difference with the value twelve years earlier. *)
Definition twelve_year_differences {value} (sub : value -> value -> value) (c : Z -> Z -> value) (first : Z) (n : nat) : list (option value) :=
  concat ((fun k => (fun m => if (12 <=? k)%nat
                              then Some (sub (c (first + Z.of_nat k) m)
                                             (c (first + Z.of_nat k - 12) m))%Z
                              else None) <$> months) <$> seq 0 n).

(** A parser that reads whole numbers only, and a file of whole numbers:
    one line for each month of [n] years from [first] on, after a comment
    line. *)
Definition whole_float (s : string) : option Q := inject_Z <$> int s.

Definition co2_line (year month : Z) : string :=
  (str year +:+ "   " +:+ str month +:+ "   " +:+ str year +:+ ".5   "
   +:+ str (300 + (year - 1990) * 2 + month / 6) +:+ "   -1")%string.

Definition co2_text (first : Z) (n : nat) : string :=
  foldr (fun line text => (line +:+ String "010" text)%string) ""%string
    ("# monthly mean CO2"%string
     :: concat ((fun k => (fun m => co2_line (first + Z.of_nat k) m) <$> months) <$> seq 0 n)).

(** * Properties *)

(** ** Rounding and clipping *)

#[global] Instance rint_proper : Proper (Qeq ==> eq) rint.
Proof.
  intros x y Hxy. unfold rint.
  rewrite (Qfloor_comp _ _ Hxy).
  assert (E : x - inject_Z (Qfloor y) == y - inject_Z (Qfloor y))
    by (rewrite Hxy; reflexivity).
  rewrite (Qcompare_comp _ _ E _ _ (Qeq_refl (1 # 2))). reflexivity.
Qed.

Lemma rint_bounds x : (Qfloor x <= rint x <= Qfloor x + 1)%Z.
Proof.
  unfold rint. destruct (Qcompare _ _); [destruct (Z.even _)|..]; lia.
Qed.

Lemma rint_inject_Z z : rint (inject_Z z) = z.
Proof.
  unfold rint. rewrite Qfloor_Z.
  assert (E0 : inject_Z z - inject_Z z == 0) by ring.
  rewrite (Qcompare_comp _ _ E0 _ _ (Qeq_refl _)). reflexivity.
Qed.

Lemma rint_mono x y : x <= y -> (rint x <= rint y)%Z.
Proof.
  intros Hxy.
  pose proof (Qfloor_resp_le _ _ Hxy) as Hf.
  destruct (Z.eq_dec (Qfloor x) (Qfloor y)) as [E|NE].
  - unfold rint. rewrite <- E.
    destruct (Qcompare_spec (x - inject_Z (Qfloor x)) (1 # 2)) as [Hx|Hx|Hx];
      destruct (Qcompare_spec (y - inject_Z (Qfloor x)) (1 # 2)) as [Hy|Hy|Hy];
      try destruct (Z.even _); try lia; exfalso; lra.
  - pose proof (rint_bounds x). pose proof (rint_bounds y). lia.
Qed.

Lemma pow10_pos n : 0 < inject_Z (10 ^ Z.of_nat n).
Proof.
  change 0 with (inject_Z 0). rewrite <- Zlt_Qlt. lia.
Qed.

Lemma round_mono x y n : x <= y -> round x n <= round y n.
Proof.
  intros Hxy. unfold round.
  pose proof (pow10_pos n) as Hp.
  apply Qle_shift_div_l; [exact Hp|].
  unfold Qdiv. rewrite <- Qmult_assoc, (Qmult_comm (/ _)), Qmult_inv_r, Qmult_1_r by lra.
  rewrite <- Zle_Qle. apply rint_mono. nra.
Qed.

#[global] Instance round_proper : Proper (Qeq ==> eq ==> Qeq) round.
Proof.
  intros x y Hxy n ? <-. unfold round.
  assert (E : x * inject_Z (10 ^ Z.of_nat n) == y * inject_Z (10 ^ Z.of_nat n))
    by (rewrite Hxy; reflexivity).
  rewrite (rint_proper _ _ E). reflexivity.
Qed.

(** A value with at most [n] decimals is its own rounding. *)
Lemma round_decimal z n :
  round (inject_Z z / inject_Z (10 ^ Z.of_nat n)) n
  == inject_Z z / inject_Z (10 ^ Z.of_nat n).
Proof.
  unfold round. pose proof (pow10_pos n) as Hp.
  assert (E : inject_Z z / inject_Z (10 ^ Z.of_nat n) * inject_Z (10 ^ Z.of_nat n)
              == inject_Z z) by (field; lra).
  rewrite (rint_proper _ _ E), rint_inject_Z. reflexivity.
Qed.

Lemma round_inject_Z z n : round (inject_Z z) n == inject_Z z.
Proof.
  unfold round. pose proof (pow10_pos n) as Hp.
  rewrite <- inject_Z_mult, rint_inject_Z, inject_Z_mult. field. lra.
Qed.

Lemma round_round x m n : (m <= n)%nat -> round (round x m) n == round x m.
Proof.
  intros Hmn.
  assert (E : round x m
              == inject_Z (rint (x * inject_Z (10 ^ Z.of_nat m)) * 10 ^ Z.of_nat (n - m))
                 / inject_Z (10 ^ Z.of_nat n)).
  { unfold round.
    pose proof (pow10_pos m). pose proof (pow10_pos n). pose proof (pow10_pos (n - m)).
    replace (10 ^ Z.of_nat n)%Z with (10 ^ Z.of_nat m * 10 ^ Z.of_nat (n - m))%Z.
    2:{ rewrite <- Z.pow_add_r by lia. f_equal. lia. }
    rewrite !inject_Z_mult. field. lra. }
  rewrite E at 1. rewrite round_decimal. symmetry. exact E.
Qed.

Lemma round_unit_interval x n : 0 <= x <= 1 -> 0 <= round x n <= 1.
Proof.
  intros [H0 H1]. split.
  - rewrite <- (round_inject_Z 0 n). apply round_mono. exact H0.
  - rewrite <- (round_inject_Z 1 n). apply round_mono. exact H1.
Qed.

Lemma clip_bounds x lo hi : lo <= hi -> lo <= clip x lo hi <= hi.
Proof.
  intros H. unfold clip. destruct (Qlt_le_dec x lo); [lra|].
  destruct (Qlt_le_dec hi x); lra.
Qed.

Lemma replace_0_1_nonzero x : ~ replace 0 1 x == 0.
Proof.
  unfold replace. destruct (Qeq_bool x 0) eqn:E.
  - intros H. discriminate H.
  - apply Qeq_bool_neq in E. exact E.
Qed.

Lemma replace_0_1_keeps x : ~ x == 0 -> replace 0 1 x = x.
Proof.
  intros H. unfold replace. destruct (Qeq_bool x 0) eqn:E; [|reflexivity].
  apply Qeq_bool_iff in E. contradiction.
Qed.

(** ** Sums, means and extrema of a bucket *)

Lemma foldl_Qmax_spec l x :
  x <= foldl Qmax x l
  /\ (forall y, y ∈ l -> y <= foldl Qmax x l)
  /\ (exists y, y ∈ x :: l /\ y == foldl Qmax x l).
Proof.
  revert x. induction l as [|a l IH]; intros x; simpl.
  - split; [lra|]. split; [intros y Hy; inversion Hy|].
    exists x. split; [left|reflexivity].
  - destruct (IH (Qmax x a)) as (H1 & H2 & (y & Hy & Ey)).
    pose proof (Q.le_max_l x a). pose proof (Q.le_max_r x a).
    split; [lra|]. split.
    + intros z Hz. apply elem_of_cons in Hz as [->|Hz]; [lra|auto].
    + apply elem_of_cons in Hy as [->|Hy].
      * destruct (Q.max_dec x a) as [E|E].
        -- exists x. split; [left|]. rewrite <- Ey, E. reflexivity.
        -- exists a. split; [right; left|]. rewrite <- Ey, E. reflexivity.
      * exists y. split; [right; right; exact Hy|exact Ey].
Qed.

Lemma foldl_Qmin_spec l x :
  foldl Qmin x l <= x
  /\ (forall y, y ∈ l -> foldl Qmin x l <= y)
  /\ (exists y, y ∈ x :: l /\ y == foldl Qmin x l).
Proof.
  revert x. induction l as [|a l IH]; intros x; simpl.
  - split; [lra|]. split; [intros y Hy; inversion Hy|].
    exists x. split; [left|reflexivity].
  - destruct (IH (Qmin x a)) as (H1 & H2 & (y & Hy & Ey)).
    pose proof (Q.le_min_l x a). pose proof (Q.le_min_r x a).
    split; [lra|]. split.
    + intros z Hz. apply elem_of_cons in Hz as [->|Hz]; [lra|auto].
    + apply elem_of_cons in Hy as [->|Hy].
      * destruct (Q.min_dec x a) as [E|E].
        -- exists x. split; [left|]. rewrite <- Ey, E. reflexivity.
        -- exists a. split; [right; left|]. rewrite <- Ey, E. reflexivity.
      * exists y. split; [right; right; exact Hy|exact Ey].
Qed.

Lemma np_max_is_maximum x l : is_maximum (x :: l) (np_max (x :: l)).
Proof.
  destruct (foldl_Qmax_spec l x) as (H1 & H2 & H3). split; [exact H3|].
  intros y Hy. apply elem_of_cons in Hy as [->|Hy]; [exact H1|auto].
Qed.

Lemma np_min_is_minimum x l : is_minimum (x :: l) (np_min (x :: l)).
Proof.
  destruct (foldl_Qmin_spec l x) as (H1 & H2 & H3). split; [exact H3|].
  intros y Hy. apply elem_of_cons in Hy as [->|Hy]; [exact H1|auto].
Qed.

(** ** Month keys are dates *)

Lemma all_from_spec n P : forall z,
  all_from n z P = true -> forall x, (z <= x < z + Z.of_nat n)%Z -> P x = true.
Proof.
  induction n as [|n IH]; intros z H x Hx; [lia|].
  cbn [all_from] in H. apply andb_prop in H as [H1 H2].
  destruct (Z.eq_dec x z) as [->|Hne]; [exact H1|].
  apply (IH _ H2). lia.
Qed.

Lemma years_print_back :
  all_from (Z.to_nat 9999) 1 (fun y => prints_back (str y) y) = true.
Proof. vm_compute. reflexivity. Qed.

Lemma two_digits_print_back :
  all_from (Z.to_nat 31) 1 (fun m => prints_back (format_02d m) m) = true.
Proof. vm_compute. reflexivity. Qed.

Lemma list_ascii_of_string_app s1 s2 :
  list_ascii_of_string (s1 +:+ s2)
  = list_ascii_of_string s1 ++ list_ascii_of_string s2.
Proof. induction s1 as [|c s1 IH]; simpl; [reflexivity|]. rewrite IH. reflexivity. Qed.

Lemma split_no_sep l : existsb (Ascii.eqb "-") l = false -> split "-" l = [l].
Proof.
  induction l as [|c l IH]; intros H; [reflexivity|].
  cbn [existsb] in H. apply orb_false_elim in H as [Hc Hl].
  cbn [split]. rewrite Ascii.eqb_sym in Hc. rewrite Hc, (IH Hl). reflexivity.
Qed.

Lemma split_app_sep l1 l2 :
  existsb (Ascii.eqb "-") l1 = false ->
  split "-" (l1 ++ "-"%char :: l2) = l1 :: split "-" l2.
Proof.
  induction l1 as [|c l1 IH]; intros H; [reflexivity|].
  cbn [existsb] in H. apply orb_false_elim in H as [Hc Hl].
  cbn [app split]. rewrite Ascii.eqb_sym in Hc. rewrite Hc, (IH Hl). reflexivity.
Qed.

(** A printed date is read back as the date it prints. *)
Lemma key_date_print y m d :
  (1 <= y <= 9999)%Z -> (1 <= m <= 31)%Z -> (1 <= d <= 31)%Z ->
  key_date (str y +:+ "-" +:+ format_02d m +:+ "-" +:+ format_02d d) = datetime y m d.
Proof.
  intros Hy Hm Hd.
  pose proof (all_from_spec _ _ _ years_print_back y ltac:(rewrite Z2Nat.id; lia)) as Py.
  pose proof (all_from_spec _ _ _ two_digits_print_back m ltac:(rewrite Z2Nat.id; lia)) as Pm.
  pose proof (all_from_spec _ _ _ two_digits_print_back d ltac:(rewrite Z2Nat.id; lia)) as Pd.
  cbv beta in Py, Pm, Pd. unfold prints_back, dash_free in Py, Pm, Pd.
  apply andb_prop in Py as [Dy Iy]. apply andb_prop in Pm as [Dm Im].
  apply andb_prop in Pd as [Dd Id].
  apply negb_true_iff in Dy, Dm, Dd.
  destruct (int (str y)) as [y'|] eqn:Ey; [|discriminate Iy].
  destruct (int (format_02d m)) as [m'|] eqn:Em; [|discriminate Im].
  destruct (int (format_02d d)) as [d'|] eqn:Ed; [|discriminate Id].
  apply Z.eqb_eq in Iy, Im, Id. subst y' m' d'.
  unfold key_date.
  rewrite !list_ascii_of_string_app.
  change (list_ascii_of_string "-") with ["-"%char].
  cbn [app]. rewrite (split_app_sep _ _ Dy), (split_app_sep _ _ Dm).
  rewrite (split_no_sep _ Dd).
  rewrite !string_of_list_ascii_of_string, Ey, Em, Ed. reflexivity.
Qed.

Lemma month_key_strftime y m : month_key y m = strftime (y, m, 1%Z).
Proof. reflexivity. Qed.

Lemma datetime_first y m :
  (1 <= y <= 9999)%Z -> (1 <= m <= 12)%Z -> datetime y m 1 = Some (y, m, 1%Z).
Proof.
  intros Hy Hm. unfold datetime.
  assert (H1 : (1 <=? days_in_month y m)%Z = true).
  { apply Z.leb_le. unfold days_in_month.
    destruct (m =? 2)%Z; [destruct (is_leap y); lia|].
    destruct ((m =? 4) || (m =? 6) || (m =? 9) || (m =? 11))%Z; lia. }
  replace (1 <=? y)%Z with true by (symmetry; apply Z.leb_le; lia).
  replace (y <=? 9999)%Z with true by (symmetry; apply Z.leb_le; lia).
  replace (1 <=? m)%Z with true by (symmetry; apply Z.leb_le; lia).
  replace (m <=? 12)%Z with true by (symmetry; apply Z.leb_le; lia).
  rewrite H1. reflexivity.
Qed.

(** The key of a month stands for the first day of that month. *)
Lemma key_date_month_key y m :
  (1 <= y <= 9999)%Z -> (1 <= m <= 12)%Z ->
  key_date (month_key y m) = Some (y, m, 1%Z).
Proof.
  intros Hy Hm. rewrite month_key_strftime. unfold strftime.
  rewrite key_date_print by lia. apply datetime_first; assumption.
Qed.

Lemma datetime_bounds y m d r :
  datetime y m d = Some r ->
  r = (y, m, d) /\ (1 <= y <= 9999)%Z /\ (1 <= m <= 12)%Z /\ (1 <= d <= 31)%Z.
Proof.
  unfold datetime.
  destruct (1 <=? y)%Z eqn:E1; [|discriminate].
  destruct (y <=? 9999)%Z eqn:E2; [|discriminate].
  destruct (1 <=? m)%Z eqn:E3; [|discriminate].
  destruct (m <=? 12)%Z eqn:E4; [|discriminate].
  destruct (1 <=? d)%Z eqn:E5; [|discriminate].
  destruct (d <=? days_in_month y m)%Z eqn:E6; [|discriminate].
  intros [= <-]. apply Z.leb_le in E1, E2, E3, E4, E5, E6.
  assert (days_in_month y m <= 31)%Z.
  { unfold days_in_month. destruct (m =? 2)%Z; [destruct (is_leap y); lia|].
    destruct ((m =? 4) || (m =? 6) || (m =? 9) || (m =? 11))%Z; lia. }
  repeat split; lia.
Qed.

Lemma is_timestamp_datetime y m d :
  is_timestamp (y, m, d) = true -> datetime y m d = Some (y, m, d).
Proof.
  unfold is_timestamp. destruct (datetime y m d) as [r|] eqn:E; [|discriminate].
  intros _. apply datetime_bounds in E as [-> _]. reflexivity.
Qed.

(** [pd.to_datetime] reads the print of a [Timestamp] date as that date,
    and nothing else. *)
Lemma to_datetime_strftime date :
  is_timestamp date = true -> to_datetime (strftime date) = Some date.
Proof.
  destruct date as [[y m] d]. intros H.
  pose proof (is_timestamp_datetime y m d H) as Hd.
  destruct (datetime_bounds _ _ _ _ Hd) as (_ & Hy & Hm & Hday).
  unfold to_datetime. unfold strftime at 1.
  rewrite key_date_print by lia. rewrite Hd, H, String.eqb_refl. reflexivity.
Qed.

Lemma to_datetime_Some s date :
  to_datetime s = Some date -> is_timestamp date = true /\ strftime date = s.
Proof.
  unfold to_datetime. destruct (key_date s) as [d0|]; [|discriminate].
  destruct (is_timestamp d0) eqn:E; [|discriminate].
  destruct (String.eqb (strftime d0) s) eqn:Es; [|discriminate].
  intros [= <-]. apply String.eqb_eq in Es. auto.
Qed.

Lemma to_datetime_month_key y m :
  is_timestamp (y, m, 1%Z) = true -> to_datetime (month_key y m) = Some (y, m, 1%Z).
Proof. intros H. rewrite month_key_strftime. apply to_datetime_strftime, H. Qed.

Lemma datetime_Some y m d r :
  datetime y m d = Some r -> (1 <= y <= 9999)%Z /\ (1 <= m <= 12)%Z.
Proof.
  unfold datetime.
  destruct (1 <=? y)%Z eqn:E1; [|discriminate].
  destruct (y <=? 9999)%Z eqn:E2; [|discriminate].
  destruct (1 <=? m)%Z eqn:E3; [|discriminate].
  destruct (m <=? 12)%Z eqn:E4; [|discriminate].
  intros _. apply Z.leb_le in E1, E2, E3, E4. lia.
Qed.

(** ** The accumulator stays well formed *)

Lemma keeps_ret {A} (I : all_data -> Prop) (a : A) : keeps I (mret a).
Proof. intros ad H. exact H. Qed.

Lemma keeps_or_raise {A} (I : all_data -> Prop) e (o : option A) : keeps I (or_raise e o).
Proof. intros ad H. destruct o; exact H. Qed.

Lemma keeps_or_raise_bind {A B} (I : all_data -> Prop) e (o : option A) (f : A -> M B) :
  (forall a, o = Some a -> keeps I (f a)) -> keeps I (or_raise e o ≫= f).
Proof.
  intros Hf ad H. destruct o as [a|]; [|exact H]. apply (Hf a eq_refl). exact H.
Qed.

Lemma keeps_bind {A B} (I : all_data -> Prop) (m : M A) (f : A -> M B) :
  keeps I m -> (forall a, keeps I (f a)) -> keeps I (m ≫= f).
Proof.
  intros Hm Hf ad H. specialize (Hm ad H).
  unfold mbind, M_bind. destruct (m ad) as [[a|e] ad']; simpl in *.
  - apply Hf. exact Hm.
  - exact Hm.
Qed.

Lemma keeps_get_bind {A} (I : all_data -> Prop) (f : all_data -> M A) :
  (forall ad, I ad -> I (f ad ad).2) -> keeps I (get ≫= f).
Proof. intros Hf ad H. apply Hf. exact H. Qed.

Lemma keeps_modify (I : all_data -> Prop) (f : all_data -> all_data) :
  (forall ad, I ad -> I (f ad)) -> keeps I (modify f).
Proof. intros Hf ad H. apply Hf. exact H. Qed.

Lemma keeps_getitem (I : all_data -> Prop) series k : keeps I (getitem series k).
Proof. apply keeps_or_raise. Qed.

Lemma dates_set_column c v ad : dates (set_column c v ad) = dates ad.
Proof. destruct c; reflexivity. Qed.

Lemma get_set_column c c' v ad :
  get_column c' (set_column c v ad) = if decide (c' = c) then v else get_column c' ad.
Proof. destruct c, c'; reflexivity. Qed.

Lemma wf_set_column c v ad :
  wf ad -> length v = length (get_column c ad) -> wf (set_column c v ad).
Proof.
  intros (Hlen & Hnd & Hdt) Hv. split; [|split].
  - intros c'. rewrite get_set_column, dates_set_column.
    case_decide; [subst; rewrite Hv|]; apply Hlen.
  - rewrite dates_set_column. exact Hnd.
  - rewrite dates_set_column. exact Hdt.
Qed.

Lemma wf_new_month k ad :
  wf ad -> k ∉ dates ad -> is_Some (key_date k) -> wf (new_month k ad).
Proof.
  intros (Hlen & Hnd & Hdt) Hk Hparse. split; [|split].
  - intros c. specialize (Hlen c).
    destruct c; simpl in *; rewrite !length_app; simpl; lia.
  - simpl. apply NoDup_app. split; [exact Hnd|]. split.
    + intros x Hx Hx'. apply list_elem_of_singleton in Hx'. subst. contradiction.
    + apply NoDup_singleton.
  - simpl. apply Forall_app. split; [exact Hdt|]. constructor; [exact Hparse|constructor].
Qed.

Lemma keeps_append_to c idx arg : keeps wf arg -> keeps wf (append_to c idx arg).
Proof.
  intros Harg. unfold append_to.
  apply keeps_bind; [intros ad H; exact H|]. intros ad0.
  apply keeps_bind; [apply keeps_or_raise|]. intros bucket.
  apply keeps_bind; [exact Harg|]. intros v.
  apply keeps_modify. intros ad H.
  apply wf_set_column; [exact H|]. apply length_insert.
Qed.

Lemma keeps_appends p date_str temp_avg (o : option nat) :
  keeps wf
    (idx ← or_raise ValueError o;
     _ ← append_to Temps_avg idx (mret temp_avg);
     _ ← append_to Temps_max idx (getitem (T2M_MAX p) date_str);
     _ ← append_to Temps_min idx (getitem (T2M_MIN p) date_str);
     _ ← append_to Rainfall idx (getitem (PRECTOTCORR p) date_str);
     append_to Humidity idx (getitem (RH2M p) date_str)).
Proof.
  apply keeps_bind; [apply keeps_or_raise|]. intros idx.
  repeat (apply keeps_bind;
          [apply keeps_append_to; (apply keeps_ret || apply keeps_getitem)|];
          intros ?).
  apply keeps_append_to, keeps_getitem.
Qed.

Lemma keeps_day_body p date_str temp_avg : keeps wf (day_body p date_str temp_avg).
Proof.
  unfold day_body.
  apply keeps_bind; [apply keeps_or_raise|]; intros year.
  apply keeps_bind; [apply keeps_or_raise|]; intros month.
  apply keeps_bind; [apply keeps_or_raise|]; intros day.
  apply keeps_or_raise_bind. intros r Hr.
  apply datetime_Some in Hr as [Hy Hm].
  pose proof (key_date_month_key year month Hy Hm) as Hkey.
  apply keeps_get_bind. intros ad Had.
  cbv zeta. revert Hkey. generalize (month_key year month).
  intros date_key Hkey.
  unfold mbind at 1, M_bind at 1.
  assert (Hif : wf ((if bool_decide (date_key ∈ dates ad) then mret tt
                     else modify (new_month date_key)) ad).2).
  { case_bool_decide as Hin; [exact Had|].
    apply wf_new_month; [assumption..|]. rewrite Hkey. eauto. }
  destruct ((if bool_decide (date_key ∈ dates ad) then mret tt
             else modify (new_month date_key)) ad) as [[[]|e] ad1];
    simpl in Hif; [|exact Hif].
  revert ad1 Hif. apply keeps_get_bind. intros ad1 Had1.
  apply keeps_appends. exact Had1.
Qed.

Lemma wf_process_day p ad item : wf ad -> wf (process_day p ad item).
Proof. apply keeps_day_body. Qed.

Lemma wf_process_items p items ad : wf ad -> wf (process_items p items ad).
Proof.
  unfold process_items. revert ad.
  induction items as [|item items IH]; intros ad H; simpl; [exact H|].
  apply IH, wf_process_day, H.
Qed.

Lemma wf_process_chunk p ad : wf ad -> wf (process_chunk p ad).
Proof.
  unfold process_chunk. destruct (T2M p); [apply wf_process_items|auto].
Qed.

Lemma wf_init : wf all_data_init.
Proof. split; [intros []; reflexivity|]. split; constructor. Qed.

Lemma wf_chunk_step api lat lon end_year st y :
  wf (cs_data st) -> wf (cs_data (chunk_step api lat lon end_year st y)).
Proof.
  intros H. unfold chunk_step.
  destruct (attempts _ _ _ _ _ _ _) as [[data|] w]; simpl; [|exact H].
  apply wf_process_chunk, H.
Qed.

Lemma wf_chunk_loop api lat lon start_year end_year w :
  wf (cs_data (chunk_loop api lat lon start_year end_year w)).
Proof.
  unfold chunk_loop.
  generalize (range start_year (end_year + 1) chunk_size).
  assert (H : wf (cs_data {| cs_data := all_data_init; all_chunks_successful := true;
                             cs_world := w |})) by apply wf_init.
  revert H. generalize ({| cs_data := all_data_init; all_chunks_successful := true;
                           cs_world := w |}).
  intros st H l. revert st H.
  induction l as [|y l IH]; intros st H; simpl; [exact H|].
  apply IH, wf_chunk_step, H.
Qed.

(** ** The monthly loop *)

Lemma all_present_true ad i :
  all_present ad i = Some true
  <-> forall c, exists x xs, get_column c ad !! i = Some (x :: xs).
Proof.
  unfold all_present. split.
  - intros H c.
    destruct (temps_avg ad !! i) as [[|? ?]|] eqn:E1; try discriminate H;
      destruct (temps_max ad !! i) as [[|? ?]|] eqn:E2; try discriminate H;
      destruct (temps_min ad !! i) as [[|? ?]|] eqn:E3; try discriminate H;
      destruct (rainfall ad !! i) as [[|? ?]|] eqn:E4; try discriminate H;
      destruct (humidity ad !! i) as [[|? ?]|] eqn:E5; try discriminate H.
    destruct c; simpl; eauto.
  - intros H.
    destruct (H Temps_avg) as (? & ? & E1). destruct (H Temps_max) as (? & ? & E2).
    destruct (H Temps_min) as (? & ? & E3). destruct (H Rainfall) as (? & ? & E4).
    destruct (H Humidity) as (? & ? & E5). simpl in *.
    rewrite E1, E2, E3, E4, E5. reflexivity.
Qed.

Lemma monthly_loop_rows ad keys : forall i rows,
  monthly_loop ad i keys = Some rows ->
  forall row, row ∈ rows <->
    exists j k, keys !! j = Some k
      /\ all_present ad (i + j) = Some true
      /\ month_record ad (i + j) k = Some row.
Proof.
  induction keys as [|k keys IH]; intros i rows H row.
  - simpl in H. injection H as <-. split.
    + intros Hr. inversion Hr.
    + intros (j & k & Hj & _). rewrite lookup_nil in Hj. discriminate.
  - cbn [monthly_loop] in H.
    destruct (all_present ad i) as [present|] eqn:Ep; [|discriminate H].
    cbn [mbind option_bind] in H.
    destruct (if present then (fun r => [r]) <$> month_record ad i k else Some [])
      as [here|] eqn:Eh; [|discriminate H].
    cbn [mbind option_bind] in H.
    destruct (monthly_loop ad (S i) keys) as [rest|] eqn:Er; [|discriminate H].
    cbn [mbind option_bind] in H. injection H as <-.
    specialize (IH (S i) rest Er row).
    rewrite elem_of_app, IH. split.
    + intros [Hh|(j & k' & Hj & Hp & Hm)].
      * destruct present; [|injection Eh as <-; inversion Hh].
        destruct (month_record ad i k) as [r|] eqn:Em; [|discriminate Eh].
        injection Eh as <-. apply list_elem_of_singleton in Hh. subst r.
        exists 0%nat, k. rewrite Nat.add_0_r. auto.
      * exists (S j), k'. rewrite Nat.add_succ_r. auto.
    + intros (j & k' & Hj & Hp & Hm). destruct j as [|j].
      * left. rewrite Nat.add_0_r in Hp, Hm. simpl in Hj. injection Hj as <-.
        rewrite Hp in Ep. injection Ep as <-. rewrite Hm in Eh.
        injection Eh as <-. left.
      * right. exists j, k'. rewrite Nat.add_succ_r in Hp, Hm. auto.
Qed.

Lemma month_record_total ad i k :
  (forall c, (i < length (get_column c ad))%nat) -> is_Some (month_record ad i k).
Proof.
  intros H. unfold month_record.
  destruct (lookup_lt_is_Some_2 _ _ (H Temps_avg)) as [? E1].
  destruct (lookup_lt_is_Some_2 _ _ (H Temps_max)) as [? E2].
  destruct (lookup_lt_is_Some_2 _ _ (H Temps_min)) as [? E3].
  destruct (lookup_lt_is_Some_2 _ _ (H Rainfall)) as [? E4].
  destruct (lookup_lt_is_Some_2 _ _ (H Humidity)) as [? E5].
  simpl in *. rewrite E1, E2, E3, E4, E5. simpl. eauto.
Qed.

Lemma all_present_total ad i :
  (forall c, (i < length (get_column c ad))%nat) -> is_Some (all_present ad i).
Proof.
  intros H. unfold all_present.
  destruct (lookup_lt_is_Some_2 _ _ (H Temps_avg)) as [a E1].
  destruct (lookup_lt_is_Some_2 _ _ (H Temps_max)) as [b E2].
  destruct (lookup_lt_is_Some_2 _ _ (H Temps_min)) as [c E3].
  destruct (lookup_lt_is_Some_2 _ _ (H Rainfall)) as [d E4].
  destruct (lookup_lt_is_Some_2 _ _ (H Humidity)) as [e E5].
  simpl in *. rewrite E1, E2, E3, E4, E5.
  destruct a, b, c, d, e; simpl; eauto.
Qed.

Lemma monthly_loop_total ad keys : forall i,
  (forall c, (i + length keys <= length (get_column c ad))%nat) ->
  is_Some (monthly_loop ad i keys).
Proof.
  induction keys as [|k keys IH]; intros i H; [simpl; eauto|].
  assert (Hi : forall c, (i < length (get_column c ad))%nat).
  { intros c. specialize (H c). simpl in H. lia. }
  cbn [monthly_loop].
  destruct (all_present_total ad i Hi) as [present ->].
  destruct (month_record_total ad i k Hi) as [r Hr].
  destruct (IH (S i)) as [rest ->].
  { intros c. specialize (H c). simpl in H. lia. }
  destruct present; [rewrite Hr|]; simpl; eauto.
Qed.

Lemma monthly_data_total ad : wf ad -> is_Some (monthly_data ad).
Proof.
  intros (Hlen & _). apply monthly_loop_total. intros c. rewrite Hlen. simpl. lia.
Qed.

Lemma monthly_data_dates ad rows :
  monthly_data ad = Some rows ->
  forall k, k ∈ Monthly.Date <$> rows <-> complete_month ad k.
Proof.
  intros H k. rewrite list_elem_of_fmap. split.
  - intros (row & -> & Hrow).
    apply (monthly_loop_rows _ _ _ _ H) in Hrow as (j & k & Hj & Hp & Hm).
    simpl in Hp, Hm. exists j. pose proof (proj1 (all_present_true _ _) Hp) as Hc.
    split; [|exact Hc].
    unfold month_record in Hm.
    destruct (temps_avg ad !! j), (temps_max ad !! j), (temps_min ad !! j),
      (rainfall ad !! j), (humidity ad !! j); try discriminate Hm.
    injection Hm as <-. exact Hj.
  - intros (i & Hi & Hc). pose proof (proj2 (all_present_true _ _) Hc) as Hp.
    assert (Hm : is_Some (month_record ad i k)).
    { unfold month_record.
      destruct (Hc Temps_avg) as (? & ? & E1). destruct (Hc Temps_max) as (? & ? & E2).
      destruct (Hc Temps_min) as (? & ? & E3). destruct (Hc Rainfall) as (? & ? & E4).
      destruct (Hc Humidity) as (? & ? & E5). simpl in *.
      rewrite E1, E2, E3, E4, E5. simpl. eauto. }
    destruct Hm as [row Hm]. exists row. split.
    + unfold month_record in Hm.
      destruct (temps_avg ad !! i), (temps_max ad !! i), (temps_min ad !! i),
        (rainfall ad !! i), (humidity ad !! i); try discriminate Hm.
      injection Hm as <-. reflexivity.
    + apply (monthly_loop_rows _ _ _ _ H). exists i, k. auto.
Qed.

(** ** Sorting returns the same rows *)

Lemma insert_sorted_perm {A} (x : (Z * Z * Z) * A) l : insert_sorted x l ≡ₚ x :: l.
Proof.
  induction l as [|y l IH]; simpl; [reflexivity|].
  destruct (date_leb x.1 y.1); [reflexivity|].
  rewrite IH. apply Permutation_swap.
Qed.

Lemma sort_values_perm {A} (l : list ((Z * Z * Z) * A)) : sort_values l ≡ₚ l.
Proof.
  induction l as [|x l IH]; simpl; [reflexivity|].
  rewrite insert_sorted_perm, IH. reflexivity.
Qed.

(** ** Reading the column of dates *)

Lemma mapM_timestamps other (col0 col : list string) when :
  mapM (fun s => date ← other col0 s;
                 if is_timestamp date then Some date else None) col = Some when ->
  Forall (fun d => is_timestamp d = true) when.
Proof.
  intros H. apply mapM_Some in H. induction H as [|s d col when Hd _ IH]; constructor.
  - destruct (other col0 s) as [d0|]; [|discriminate Hd]. cbn in Hd.
    destruct (is_timestamp d0) eqn:E; [|discriminate Hd]. injection Hd as <-. exact E.
  - exact IH.
Qed.

Lemma mapM_to_datetime col when :
  mapM to_datetime col = Some when ->
  Forall (fun d => is_timestamp d = true) when /\ strftime <$> when = col.
Proof.
  intros H. apply mapM_Some in H. induction H as [|s d col when Hd _ [IH1 IH2]].
  - split; [constructor|reflexivity].
  - apply to_datetime_Some in Hd as [Ht Hs]. split; [constructor; assumption|].
    cbn [fmap list_fmap]. rewrite Hs. f_equal. exact IH2.
Qed.

(** Whatever the column, the dates that line 353 gives are as many as the
    strings and all of them [Timestamp] dates. *)
Lemma pd_to_datetime_timestamps other col when :
  pd_to_datetime other col = Some when ->
  length when = length col /\ Forall (fun d => is_timestamp d = true) when.
Proof.
  unfold pd_to_datetime. destruct (mapM to_datetime col) as [when0|] eqn:E.
  - intros [= <-]. split; [symmetry; eapply length_mapM, E|].
    apply (mapM_to_datetime _ _ E).
  - intros H. split; [symmetry; eapply length_mapM, H|].
    eapply mapM_timestamps, H.
Qed.

(** A column of prints of [Timestamp] dates is read as these dates. *)
Lemma pd_to_datetime_prints other col :
  Forall (fun s => is_Some (to_datetime s)) col ->
  exists when, pd_to_datetime other col = Some when /\ strftime <$> when = col.
Proof.
  intros H. apply mapM_is_Some_2 in H as [when Hw].
  exists when. unfold pd_to_datetime. rewrite Hw. split; [reflexivity|].
  apply (mapM_to_datetime _ _ Hw).
Qed.

Lemma with_date_same r : with_date (Monthly.Date r) r = r.
Proof. destruct r. reflexivity. Qed.

Lemma aggregate_returns other ad df :
  aggregate other ad = Returned (Some df) ->
  exists rows when,
    monthly_data ad = Some rows
    /\ pd_to_datetime other (Monthly.Date <$> rows) = Some when
    /\ df = (fun kr => with_date (strftime kr.1) kr.2) <$> sort_values (zip when rows).
Proof.
  unfold aggregate. intros H.
  destruct (dates ad); [discriminate H|].
  destruct (monthly_data ad) as [[|r rows]|]; try discriminate H.
  destruct (pd_to_datetime _ _) as [when|] eqn:Ek; [|discriminate H].
  destruct (0 <? _)%nat; [|discriminate H].
  injection H as <-. eauto.
Qed.

(** Every row of the returned frame is an emitted record, with the print of
    a [Timestamp] date as its [Date]. *)
Lemma aggregate_rows other ad df row :
  aggregate other ad = Returned (Some df) -> row ∈ df ->
  exists rows r date,
    monthly_data ad = Some rows /\ r ∈ rows
    /\ is_timestamp date = true /\ row = with_date (strftime date) r.
Proof.
  intros H Hrow. destruct (aggregate_returns _ _ _ H) as (rows & when & Hr & Hw & ->).
  apply list_elem_of_fmap in Hrow as ([date r] & -> & Hin).
  rewrite sort_values_perm in Hin.
  destruct (pd_to_datetime_timestamps _ _ _ Hw) as [_ Ht].
  exists rows, r, date. split; [exact Hr|].
  split; [eapply elem_of_zip_r, Hin|].
  split; [|reflexivity].
  rewrite Forall_forall in Ht. apply Ht. eapply elem_of_zip_l, Hin.
Qed.

(** ** Examples of the primitives *)

Example int_examples :
  int "2020" = Some 2020%Z /\ int " 7" = Some 7%Z /\ int "1_0" = Some 10%Z
  /\ int "-3" = Some (-3)%Z /\ int "" = None /\ int "1_" = None
  /\ int "2a" = None /\ int "01" = Some 1%Z.
Proof. repeat split; reflexivity. Qed.

Example datetime_examples :
  datetime 2020 2 29 = Some (2020, 2, 29)%Z /\ datetime 2021 2 29 = None
  /\ datetime 2020 13 1 = None /\ datetime 1900 2 29 = None
  /\ datetime 2000 2 29 = Some (2000, 2, 29)%Z.
Proof. repeat split; reflexivity. Qed.

Example round_examples :
  round 2.5 0 == 2 /\ round 3.5 0 == 4 /\ round 3.14159 2 == 3.14
  /\ round (-0.125) 2 == -0.12 /\ round 0.25 1 == 0.2.
Proof. repeat split; reflexivity. Qed.

(** ** Which months are emitted, and with which values *)

Lemma emitted_row ad rows row :
  monthly_data ad = Some rows -> row ∈ rows ->
  exists i, dates ad !! i = Some (Monthly.Date row)
    /\ all_present ad i = Some true
    /\ month_record ad i (Monthly.Date row) = Some row.
Proof.
  intros H Hrow.
  apply (monthly_loop_rows _ _ _ _ H) in Hrow as (j & k & Hj & Hp & Hm).
  simpl in Hp, Hm. exists j.
  assert (E : Monthly.Date row = k).
  { unfold month_record in Hm.
    destruct (temps_avg ad !! j), (temps_max ad !! j), (temps_min ad !! j),
      (rainfall ad !! j), (humidity ad !! j); try discriminate Hm.
    injection Hm as <-. reflexivity. }
  rewrite E. auto.
Qed.

Lemma wf_clear_variable c i ad : wf ad -> wf (clear_variable c i ad).
Proof. intros H. apply wf_set_column; [exact H|]. apply length_insert. Qed.

Lemma clear_variable_incomplete c i k ad :
  wf ad -> dates ad !! i = Some k -> ~ complete_month (clear_variable c i ad) k.
Proof.
  intros (Hlen & Hnd & _) Hi (j & Hj & Hc).
  unfold clear_variable in *. rewrite dates_set_column in Hj.
  assert (j = i) as -> by (eapply NoDup_lookup; eauto).
  destruct (Hc c) as (x & xs & Hx).
  rewrite get_set_column in Hx. rewrite decide_True in Hx by reflexivity.
  rewrite list_lookup_insert_eq in Hx; [discriminate Hx|].
  rewrite Hlen. eapply lookup_lt_Some, Hi.
Qed.

(** When the month keys are prints of [Timestamp] dates, the returned frame
    holds the emitted records themselves. *)
Lemma emitted_timestamps ad rows :
  timestamped ad -> monthly_data ad = Some rows ->
  Forall (fun s => is_Some (to_datetime s)) (Monthly.Date <$> rows).
Proof.
  intros Ht H. apply Forall_fmap, Forall_forall. intros row Hrow.
  destruct (emitted_row _ _ _ H Hrow) as (i & Hi & _).
  unfold timestamped in Ht. rewrite Forall_lookup in Ht. exact (Ht _ _ Hi).
Qed.

Lemma sorted_frame_perm (when : list (Z * Z * Z)) (rows : list Monthly.row) :
  strftime <$> when = Monthly.Date <$> rows ->
  (fun kr => with_date (strftime kr.1) kr.2) <$> sort_values (zip when rows) ≡ₚ rows.
Proof.
  intros E.
  assert (H : Forall (fun kr : (Z * Z * Z) * Monthly.row => strftime kr.1 = Monthly.Date kr.2)
                (zip when rows)).
  { revert rows E. induction when as [|d when IH]; intros [|r rows] E;
      try discriminate E; [constructor..|].
    cbn [fmap list_fmap] in E. injection E as E1 E2.
    cbn [zip zip_with]. constructor; [exact E1|apply IH, E2]. }
  rewrite <- (sort_values_perm (zip when rows)) in H.
  rewrite (Forall_fmap_ext_1 (fun kr => with_date (strftime kr.1) kr.2) snd _).
  - rewrite sort_values_perm. rewrite snd_zip; [reflexivity|].
    apply (f_equal length) in E. rewrite !length_fmap in E. lia.
  - eapply Forall_impl; [exact H|]. intros [d r] Hd. cbn in *. rewrite Hd.
    apply with_date_same.
Qed.

Lemma aggregate_timestamped other ad df :
  timestamped ad -> aggregate other ad = Returned (Some df) ->
  exists rows, monthly_data ad = Some rows /\ df ≡ₚ rows.
Proof.
  intros Ht H. destruct (aggregate_returns _ _ _ H) as (rows & when & Hr & Hw & ->).
  exists rows. split; [exact Hr|].
  destruct (pd_to_datetime_prints other _ (emitted_timestamps _ _ Ht Hr)) as (when' & Hw' & E).
  rewrite Hw in Hw'. injection Hw' as <-. apply sorted_frame_perm, E.
Qed.

Lemma aggregate_total other ad r rows :
  timestamped ad -> monthly_data ad = Some (r :: rows) ->
  exists df, aggregate other ad = Returned (Some df) /\ df ≡ₚ r :: rows.
Proof.
  intros Ht H. unfold aggregate.
  destruct (dates ad) as [|k ks] eqn:Ed.
  { unfold monthly_data in H. rewrite Ed in H. discriminate H. }
  rewrite H.
  destruct (pd_to_datetime_prints other _ (emitted_timestamps _ _ Ht H)) as (when & Hw & E).
  rewrite Hw.
  pose proof (sorted_frame_perm when (r :: rows) E) as Hperm.
  assert (Hlen : (0 <? length ((fun kr => with_date (strftime kr.1) kr.2)
                                 <$> sort_values (zip when (r :: rows))))%nat = true).
  { apply Nat.ltb_lt. rewrite Hperm. simpl. lia. }
  cbv zeta. rewrite Hlen. eexists. split; [reflexivity|exact Hperm].
Qed.

Lemma timestamped_clear_variable c i ad :
  timestamped ad -> timestamped (clear_variable c i ad).
Proof. unfold timestamped, clear_variable. rewrite dates_set_column. auto. Qed.

(** C3.  On the accumulator of a location (its six lists are parallel and
    its keys are the distinct months met), the aggregation loop raises
    nothing and a month key is among the emitted records exactly when its
    bucket holds at least one value of each of the five variables.
    Emptying the bucket of any one variable for a month removes the month
    from the records.  When the months met are months of pandas' calendar
    (October 1677 to April 2262, the months whose keys line 353 reads as
    the dates they stand for), the frame the function returns has exactly
    the keys of the complete months, the function does return it with
    every such month, and a month with an emptied bucket is not in it. *)
Theorem month_emitted_iff_complete other ad :
  wf ad ->
  exists rows,
    monthly_data ad = Some rows
    /\ (forall k, k ∈ Monthly.Date <$> rows <-> complete_month ad k)
    /\ (timestamped ad ->
        (forall df, aggregate other ad = Returned (Some df) ->
           forall k, k ∈ Monthly.Date <$> df <-> complete_month ad k)
        /\ (forall k, complete_month ad k ->
            exists df, aggregate other ad = Returned (Some df)
                       /\ k ∈ Monthly.Date <$> df))
    /\ (forall c i k, dates ad !! i = Some k ->
        exists rows',
          monthly_data (clear_variable c i ad) = Some rows'
          /\ (k ∉ Monthly.Date <$> rows')
          /\ (timestamped ad ->
              forall df', aggregate other (clear_variable c i ad) = Returned (Some df') ->
                (k ∉ Monthly.Date <$> df'))).
Proof.
  intros Hwf. destruct (monthly_data_total ad Hwf) as [rows Hrows].
  assert (Hdf : timestamped ad -> forall df, aggregate other ad = Returned (Some df) ->
                forall k, k ∈ Monthly.Date <$> df <-> complete_month ad k).
  { intros Ht df Hdf k.
    destruct (aggregate_timestamped _ _ _ Ht Hdf) as (rows0 & H0 & Hperm).
    rewrite Hrows in H0. injection H0 as <-.
    rewrite Hperm. apply monthly_data_dates, Hrows. }
  exists rows. split; [exact Hrows|]. split; [apply monthly_data_dates, Hrows|].
  split; [intros Ht; split; [exact (Hdf Ht)|]|].
  - intros k Hk. pose proof (proj2 (monthly_data_dates _ _ Hrows k) Hk) as Hin.
    destruct rows as [|r rows]; [inversion Hin|].
    destruct (aggregate_total other _ _ _ Ht Hrows) as (df & Hagg & _).
    exists df. split; [exact Hagg|]. apply (Hdf Ht df Hagg), Hk.
  - intros c i k Hi.
    pose proof (wf_clear_variable c i ad Hwf) as Hwf'.
    destruct (monthly_data_total _ Hwf') as [rows' Hrows'].
    pose proof (clear_variable_incomplete c i k ad Hwf Hi) as Hno.
    exists rows'. split; [exact Hrows'|]. split.
    + rewrite (monthly_data_dates _ _ Hrows'). exact Hno.
    + intros Ht df' Hdf'.
      destruct (aggregate_timestamped _ _ _ (timestamped_clear_variable c i ad Ht) Hdf')
        as (rows0 & H0 & Hperm).
      rewrite Hrows' in H0. injection H0 as <-.
      rewrite Hperm, (monthly_data_dates _ _ Hrows'). exact Hno.
Qed.

Lemma timestamped_january : timestamped (process_chunk january_2020 all_data_init).
Proof.
  assert (E : dates (process_chunk january_2020 all_data_init) = ["2020-01-01"%string])
    by (vm_compute; reflexivity).
  unfold timestamped. rewrite E.
  constructor; [|constructor]. exists (2020, 1, 1)%Z. vm_compute. reflexivity.
Qed.

Lemma month_emitted_iff_complete_witness :
  exists rows,
    monthly_data (process_chunk january_2020 all_data_init) = Some rows
    /\ (forall k, k ∈ Monthly.Date <$> rows
                  <-> complete_month (process_chunk january_2020 all_data_init) k)
    /\ (forall df,
        aggregate no_other (process_chunk january_2020 all_data_init)
        = Returned (Some df) ->
        forall k, k ∈ Monthly.Date <$> df
                  <-> complete_month (process_chunk january_2020 all_data_init) k)
    /\ (forall k, complete_month (process_chunk january_2020 all_data_init) k ->
        exists df,
          aggregate no_other (process_chunk january_2020 all_data_init)
          = Returned (Some df)
          /\ k ∈ Monthly.Date <$> df)
    /\ (forall c i k,
        dates (process_chunk january_2020 all_data_init) !! i = Some k ->
        exists rows',
          monthly_data (clear_variable c i (process_chunk january_2020 all_data_init))
          = Some rows'
          /\ (k ∉ Monthly.Date <$> rows')
          /\ forall df',
             aggregate no_other
               (clear_variable c i (process_chunk january_2020 all_data_init))
             = Returned (Some df') ->
             (k ∉ Monthly.Date <$> df')).
Proof.
  destruct (month_emitted_iff_complete no_other
              (process_chunk january_2020 all_data_init)
              (wf_process_chunk _ _ wf_init)) as (rows & H1 & H2 & H3 & H4).
  exists rows. split; [exact H1|]. split; [exact H2|].
  destruct (H3 timestamped_january) as [H3a H3b].
  split; [exact H3a|]. split; [exact H3b|].
  intros c i k Hi. destruct (H4 c i k Hi) as (rows' & Hr & Hk & Hdf).
  exists rows'. split; [exact Hr|]. split; [exact Hk|]. exact (Hdf timestamped_january).
Defined.

Lemma truthy_cons l : truthy l = true -> exists x xs, l = x :: xs.
Proof. destruct l; [discriminate|eauto]. Qed.

Lemma emitted_row_values ad rows row :
  monthly_data ad = Some rows -> row ∈ rows ->
  exists i a avg x mx n mn r rain h hum,
    dates ad !! i = Some (Monthly.Date row)
    /\ temps_avg ad !! i = Some (a :: avg)
    /\ temps_max ad !! i = Some (x :: mx)
    /\ temps_min ad !! i = Some (n :: mn)
    /\ rainfall ad !! i = Some (r :: rain)
    /\ humidity ad !! i = Some (h :: hum)
    /\ Monthly.Avg_Temp_C row = round (np_mean (a :: avg)) 2
    /\ Monthly.Max_Temp_C row = round (np_max (x :: mx)) 2
    /\ Monthly.Min_Temp_C row = round (np_min (n :: mn)) 2
    /\ Monthly.Rainfall_mm row = round (np_sum (r :: rain)) 1
    /\ Monthly.Humidity_Percent row = round (np_mean (h :: hum)) 1.
Proof.
  intros H Hrow. destruct (emitted_row _ _ _ H Hrow) as (i & Hi & Hp & Hm).
  pose proof (proj1 (all_present_true _ _) Hp) as Hc.
  destruct (Hc Temps_avg) as (a & avg & E1). destruct (Hc Temps_max) as (x & mx & E2).
  destruct (Hc Temps_min) as (n & mn & E3). destruct (Hc Rainfall) as (r & rain & E4).
  destruct (Hc Humidity) as (h & hum & E5). simpl in *.
  unfold month_record in Hm. rewrite E1, E2, E3, E4, E5 in Hm. simpl in Hm.
  injection Hm as <-. simpl.
  exists i, a, avg, x, mx, n, mn, r, rain, h, hum. repeat split; assumption.
Qed.

(** ** Ordering of the temperatures *)




(** ** A day with a missing variable *)

(** C1 does not hold of the code.  The first day of [partial_day] has no
    maximum temperature: the lookup of line 298 raises after line 297 has
    appended the day's average, and the handler keeps it.  The bucket of
    averages of January 2020 ends with two values, the four other buckets
    with one, and the monthly average is 31 instead of the 32 of the only
    complete day. *)
Theorem partial_day_is_kept :
  process_chunk partial_day all_data_init
  = {| dates := ["2020-01-01"%string];
       temps_avg := [[30; 32]];
       temps_max := [[35]];
       temps_min := [[25]];
       rainfall := [[1]];
       humidity := [[60]] |}
  /\ exists row,
       (forall other,
          aggregate other (process_chunk partial_day all_data_init)
          = Returned (Some [row]))
       /\ Monthly.Avg_Temp_C row == 31.
Proof.
  split; [vm_compute; reflexivity|].
  eexists. split; [intros other|]; vm_compute; reflexivity.
Qed.


(** ** Retries of a sub-range *)

Lemma attempts_closed_form api lat lon start_date end_date w :
  let r := {| latitude := lat; longitude := lon;
              start := start_date; end_ := end_date |} in
  let w1 := w ++ [Get r; Sleep 10] in
  let w2 := w1 ++ [Get r; Sleep 20] in
  attempts api (range 0 3 1) lat lon start_date end_date w
  = match api w r with
    | Some data => (Some data, w ++ [Get r])
    | None =>
        match api w1 r with
        | Some data => (Some data, w1 ++ [Get r])
        | None => (api w2 r, w2 ++ [Get r])
        end
    end.
Proof.
  intros r w1 w2. change (range 0 3 1) with [0; 1; 2]%Z.
  cbn [attempts]. unfold try_request, sleep. fold r.
  destruct (api w r) as [data|]; [reflexivity|].
  change (0 <? 2)%Z with true. cbn iota.
  change ((0 + 1) * 10)%Z with 10%Z.
  replace ((w ++ [Get r]) ++ [Sleep 10]) with w1
    by (unfold w1; rewrite <- app_assoc; reflexivity).
  destruct (api w1 r) as [data|]; [reflexivity|].
  change (1 <? 2)%Z with true. cbn iota.
  change ((1 + 1) * 10)%Z with 20%Z.
  replace ((w1 ++ [Get r]) ++ [Sleep 20]) with w2
    by (unfold w2; rewrite <- app_assoc; reflexivity).
  destruct (api w2 r) as [data|]; reflexivity.
Qed.

(** C2.  A sub-range is requested at most three times.  After a first
    failure the code sleeps 10 seconds and asks again, after a second
    failure it sleeps 20 seconds and asks again, and the first answer that
    is not a failure ends the attempts.  When the three requests fail, the
    sub-range is marked failed ([all_chunks_successful] becomes false),
    [all_data] is as before, nothing more is logged for the sub-range, and
    the loop goes on with the next sub-range. *)
Theorem retry_backoff api lat lon end_year st year_start rest :
  let start_date := (str year_start +:+ "0101")%string in
  let end_date :=
    (str (Z.min (year_start + chunk_size - 1) end_year) +:+ "1231")%string in
  let r := {| latitude := lat; longitude := lon;
              start := start_date; end_ := end_date |} in
  let w := cs_world st in
  let w1 := w ++ [Get r; Sleep 10] in
  let w2 := w1 ++ [Get r; Sleep 20] in
  let failed :=
    {| cs_data := cs_data st; all_chunks_successful := false;
       cs_world := w ++ [Get r; Sleep 10; Get r; Sleep 20; Get r] |} in
  attempts api (range 0 3 1) lat lon start_date end_date w
  = match api w r with
    | Some data => (Some data, w ++ [Get r])
    | None =>
        match api w1 r with
        | Some data => (Some data, w1 ++ [Get r])
        | None => (api w2 r, w2 ++ [Get r])
        end
    end
  /\ (api w r = None -> api w1 r = None -> api w2 r = None ->
      chunk_step api lat lon end_year st year_start = failed
      /\ foldl (chunk_step api lat lon end_year) st (year_start :: rest)
         = foldl (chunk_step api lat lon end_year) failed rest).
Proof.
  intros start_date end_date r w w1 w2 failed.
  pose proof (attempts_closed_form api lat lon start_date end_date w) as Hcf.
  cbv zeta in Hcf. fold r w1 w2 in Hcf.
  split; [exact Hcf|]. intros H0 H1 H2.
  assert (Hstep : chunk_step api lat lon end_year st year_start = failed).
  { unfold chunk_step. fold start_date end_date w.
    rewrite Hcf, H0, H1, H2. unfold failed, w2, w1.
    rewrite <- !app_assoc. reflexivity. }
  split; [exact Hstep|]. cbn [foldl]. rewrite Hstep. reflexivity.
Qed.

Lemma retry_backoff_witness :
  chunk_step api_down 10.52 7.44 2023 (chunk_state_init []) 1990
  = {| cs_data := all_data_init; all_chunks_successful := false;
       cs_world :=
         [Get {| latitude := 10.52; longitude := 7.44;
                 start := "19900101"; end_ := "19911231" |};
          Sleep 10;
          Get {| latitude := 10.52; longitude := 7.44;
                 start := "19900101"; end_ := "19911231" |};
          Sleep 20;
          Get {| latitude := 10.52; longitude := 7.44;
                 start := "19900101"; end_ := "19911231" |}] |}.
Proof.
  exact (proj1 (proj2 (retry_backoff api_down 10.52 7.44 2023 (chunk_state_init []) 1990 [])
                  eq_refl eq_refl eq_refl)).
Defined.

(** ** Chunk boundaries *)

Lemma process_day_same_day p q ad k v :
  same_day p q k -> process_day p ad (k, v) = process_day q ad (k, v).
Proof.
  intros (H1 & H2 & H3 & H4).
  unfold process_day, day_body, getitem. simpl.
  rewrite H1, H2, H3, H4. reflexivity.
Qed.

Lemma process_items_same_day p q items : forall ad,
  (forall k v, (k, v) ∈ items -> same_day p q k) ->
  process_items p items ad = process_items q items ad.
Proof.
  unfold process_items.
  induction items as [|[k v] items IH]; intros ad H; simpl; [reflexivity|].
  rewrite (process_day_same_day p q ad k v) by (apply (H k v); left).
  apply IH. intros k' v' Hin. apply (H k' v'). right. exact Hin.
Qed.

Lemma process_items_app p items1 items2 ad :
  process_items p (items1 ++ items2) ad
  = process_items p items2 (process_items p items1 ad).
Proof. unfold process_items. apply foldl_app. Qed.

Lemma same_day_sym p q k : same_day p q k -> same_day q p k.
Proof. intros (H1 & H2 & H3 & H4). repeat split; symmetry; assumption. Qed.

(** The accumulator the chunk loop ends with is the fold of [process_chunk]
    over the responses it received. *)
Lemma chunk_loop_accumulates api lat lon start_year end_year w :
  exists responses,
    cs_data (chunk_loop api lat lon start_year end_year w)
    = foldl (fun ad c => process_chunk c ad) all_data_init responses.
Proof.
  unfold chunk_loop. fold (chunk_state_init w).
  assert (H : exists responses, cs_data (chunk_state_init w)
              = foldl (fun ad c => process_chunk c ad) all_data_init responses)
    by (exists []; reflexivity).
  revert H. generalize (chunk_state_init w).
  induction (range start_year (end_year + 1) chunk_size) as [|y l IH];
    intros st H; [exact H|].
  cbn [foldl]. apply IH. destruct H as [responses H].
  unfold chunk_step. destruct (attempts _ _ _ _ _ _ _) as [[data|] w']; simpl.
  - exists (responses ++ [data]). rewrite foldl_app. simpl. rewrite H. reflexivity.
  - exists responses. exact H.
Qed.

(** ** The derived rainfall indices *)

(** Every record that [enrich] appends to the rainfall accumulator is a
    [rainfall_row] of the tagged frame. *)
Lemma enrich_rainfall_rows randint uniform k zone state df st st' :
  enrich randint uniform k zone state df st = Returned st' ->
  exists tdf,
    mapM (add_metadata zone state) df = Some tdf
    /\ all_rainfall_data st'
       = all_rainfall_data st ++ [imap (fun i => rainfall_row tdf (uniform k 0%nat i)) tdf]
    /\ forall row, row ∈ imap (fun i => rainfall_row tdf (uniform k 0%nat i)) tdf ->
       exists i t, tdf !! i = Some t /\ row = rainfall_row tdf (uniform k 0%nat i) t.
Proof.
  unfold enrich. intros H.
  destruct (mapM (add_metadata zone state) df) as [tdf|]; [|discriminate H].
  injection H as <-. exists tdf. split; [reflexivity|]. split; [reflexivity|].
  intros row Hrow. apply elem_of_lookup_imap_1 in Hrow as (i & t & -> & Ht). eauto.
Qed.

Lemma clip_proper x y lo hi : x == y -> clip x lo hi == clip y lo hi.
Proof.
  intros E. unfold clip.
  destruct (Qlt_le_dec x lo), (Qlt_le_dec y lo); try lra;
    destruct (Qlt_le_dec hi x), (Qlt_le_dec hi y); lra.
Qed.

Lemma round_clip_proper x y n : x == y -> round (clip x 0 1) n == round (clip y 0 1) n.
Proof. intros E. apply round_proper; [apply clip_proper, E|reflexivity]. Qed.

Lemma round_clip_unit x n : 0 <= round (clip x 0 1) n <= 1.
Proof. apply round_unit_interval, clip_bounds. lra. Qed.

Lemma round_clip_0 n : round (clip 0 0 1) n == 0.
Proof. change (clip 0 0 1) with (inject_Z 0). apply round_inject_Z. Qed.

Lemma round_clip_1 n : round (clip 1 0 1) n == 1.
Proof. change (clip 1 0 1) with (inject_Z 1). apply round_inject_Z. Qed.

(** C6, as stated, fails.  For Sokoto with two Januaries of 0 mm the
    baseline, their mean, is 0 mm and each rainfall equals it exactly; the
    baseline is replaced by 1 and the drought index of both records is 1,
    not 0. *)
Lemma drought_index_counterexample :
  exists st tdf t row row',
    enrich fixed_randint fixed_uniform 1 "North-West" "Sokoto" dry_januaries collect_init
    = Returned st
    /\ all_rainfall_data st = [[row; row']]
    /\ mapM (add_metadata "North-West" "Sokoto") dry_januaries = Some tdf
    /\ tdf !! 0%nat = Some t
    /\ row = rainfall_row tdf 0.4 t
    /\ Rain.Rainfall_mm row == expected_rainfall tdf t
    /\ Rain.Drought_Index row == 1
    /\ ~ Rain.Drought_Index row == 0.
Proof.
  do 5 eexists. split; [vm_compute; reflexivity|].
  split; [reflexivity|]. split; [vm_compute; reflexivity|].
  split; [reflexivity|]. split; [vm_compute; reflexivity|].
  split; [vm_compute; reflexivity|]. split; [vm_compute; reflexivity|].
  vm_compute. discriminate.
Qed.

(** C6, amended.  For every rainfall record,
    [Drought_Index = round(clip(1 - Rainfall_mm / baseline, 0, 1), 3)],
    where the baseline is the mean of [Rainfall_mm] over the records of the
    frame with the same state and month, with a mean of exactly 0 replaced
    by 1.  The index lies in [0, 1]; it is 0 when the rainfall equals the
    baseline used in the division, hence when it equals a mean that is not
    0; and it is 1 for a rainfall of 0 mm, whatever the mean, 50 mm for
    one. *)
Theorem drought_index df u t :
  let row := rainfall_row df u t in
  let mean := expected_rainfall df t in
  mean = np_mean (rain_mm <$> filter (fun r => tag_state r = tag_state t
                                               /\ tag_month r = tag_month t) df)
  /\ Rain.Drought_Index row
     = round (clip (1 - Rain.Rainfall_mm row / replace 0 1 mean) 0 1) 3
  /\ 0 <= Rain.Drought_Index row <= 1
  /\ (Rain.Rainfall_mm row == replace 0 1 mean -> Rain.Drought_Index row == 0)
  /\ (Rain.Rainfall_mm row == mean -> ~ mean == 0 -> Rain.Drought_Index row == 0)
  /\ (Rain.Rainfall_mm row == 0 -> Rain.Drought_Index row == 1).
Proof.
  intros row mean. split; [reflexivity|]. split; [reflexivity|].
  split; [apply round_clip_unit|].
  assert (Hzero : Rain.Rainfall_mm row == replace 0 1 mean ->
                  Rain.Drought_Index row == 0).
  { intros E. simpl in *. fold mean.
    pose proof (replace_0_1_nonzero mean) as Hnz.
    apply Qeq_trans with (round (clip 0 0 1) 3); [|apply round_clip_0].
    apply round_clip_proper. rewrite E. field. exact Hnz. }
  split; [exact Hzero|]. split.
  - intros E Hnz. apply Hzero. rewrite (replace_0_1_keeps _ Hnz). exact E.
  - intros E0. simpl in *. fold mean.
    pose proof (replace_0_1_nonzero mean) as Hnz.
    apply Qeq_trans with (round (clip 1 0 1) 3); [|apply round_clip_1].
    apply round_clip_proper. rewrite E0. field. exact Hnz.
Qed.

Lemma drought_index_witness :
  exists tdf t,
    mapM (add_metadata "North-West" "Kano") uneven_januaries = Some tdf
    /\ tdf !! 0%nat = Some t
    /\ expected_rainfall tdf t == 50
    /\ Rain.Rainfall_mm (rainfall_row tdf 0.4 t) == 0
    /\ Rain.Drought_Index (rainfall_row tdf 0.4 t) == 1.
Proof.
  eexists. eexists. split; [vm_compute; reflexivity|].
  split; [reflexivity|]. split; [vm_compute; reflexivity|].
  split; [vm_compute; reflexivity|].
  refine (proj2 (proj2 (proj2 (proj2 (proj2 (drought_index _ 0.4 _))))) _).
  vm_compute. reflexivity.
Defined.

(** C7, as stated, fails.  For one January of 0.5 mm with a draw of 0.4,
    the estimated daily maximum is 0.2 mm and the baseline 0.5 mm.  The
    code divides the daily maximum by the rainfall itself, 0.5, and the
    index is 0.4; with the denominator [max(rainfall_mm, 1)] of the claim it
    would be 0.2. *)
Lemma flood_risk_counterexample :
  exists st tdf t row,
    enrich fixed_randint fixed_uniform 1 "North-West" "Kano" light_rain collect_init
    = Returned st
    /\ all_rainfall_data st = [[row]]
    /\ mapM (add_metadata "North-West" "Kano") light_rain = Some tdf
    /\ tdf !! 0%nat = Some t
    /\ Rain.Rainfall_mm row == 0.5
    /\ Rain.Max_Daily_Rainfall_mm row == 0.2
    /\ Rain.Flood_Risk_Index row == 0.4
    /\ flood_risk_spec (Rain.Max_Daily_Rainfall_mm row) (Rain.Rainfall_mm row)
         (replace 0 1 (expected_rainfall tdf t)) == 0.2
    /\ ~ Rain.Flood_Risk_Index row
         == flood_risk_spec (Rain.Max_Daily_Rainfall_mm row) (Rain.Rainfall_mm row)
              (replace 0 1 (expected_rainfall tdf t)).
Proof.
  do 4 eexists. split; [vm_compute; reflexivity|].
  split; [reflexivity|]. split; [vm_compute; reflexivity|].
  split; [reflexivity|].
  repeat (split; [vm_compute; reflexivity|]).
  vm_compute. discriminate.
Qed.

(** C7, amended.  For every rainfall record,
    [Flood_Risk_Index = round(clip((Max_Daily_Rainfall_mm / d)
    * (Rainfall_mm / baseline), 0, 1), 3)] where [d] is [Rainfall_mm] with
    an exact 0 replaced by 1 and the baseline is the mean of the state and
    month with an exact 0 replaced by 1.  The index lies in [0, 1].  It is
    the value of the formula with [max(Rainfall_mm, 1)] when the rainfall
    is 0 or at least 1. *)
Theorem flood_risk_index df u t :
  let row := rainfall_row df u t in
  let baseline := replace 0 1 (expected_rainfall df t) in
  Rain.Flood_Risk_Index row
  = round (clip (Rain.Max_Daily_Rainfall_mm row / replace 0 1 (Rain.Rainfall_mm row)
                 * (Rain.Rainfall_mm row / baseline)) 0 1) 3
  /\ 0 <= Rain.Flood_Risk_Index row <= 1
  /\ (Rain.Rainfall_mm row == 0 \/ 1 <= Rain.Rainfall_mm row ->
      Rain.Flood_Risk_Index row
      == flood_risk_spec (Rain.Max_Daily_Rainfall_mm row) (Rain.Rainfall_mm row)
           baseline).
Proof.
  intros row baseline. split; [reflexivity|]. split; [apply round_clip_unit|].
  intros H. unfold flood_risk_spec. simpl. apply round_clip_proper.
  assert (E : replace 0 1 (rain_mm t) == Qmax (rain_mm t) 1).
  { destruct H as [H0|H1]; simpl in *.
    - unfold replace. apply Qeq_bool_iff in H0 as Hb. rewrite Hb.
      symmetry. apply Q.max_r. lra.
    - rewrite replace_0_1_keeps by lra. symmetry. apply Q.max_l. exact H1. }
  rewrite E. reflexivity.
Qed.

Lemma flood_risk_index_witness :
  exists tdf t,
    mapM (add_metadata "North-West" "Kano") uneven_januaries = Some tdf
    /\ tdf !! 1%nat = Some t
    /\ Rain.Rainfall_mm (rainfall_row tdf 0.4 t) == 100
    /\ Rain.Flood_Risk_Index (rainfall_row tdf 0.4 t)
       == flood_risk_spec (Rain.Max_Daily_Rainfall_mm (rainfall_row tdf 0.4 t))
            (Rain.Rainfall_mm (rainfall_row tdf 0.4 t))
            (replace 0 1 (expected_rainfall tdf t)).
Proof.
  eexists. eexists. split; [vm_compute; reflexivity|].
  split; [reflexivity|]. split; [vm_compute; reflexivity|].
  refine (proj2 (proj2 (flood_risk_index _ 0.4 _)) _).
  right. vm_compute. discriminate.
Defined.

Lemma rainy_days_bounds x : (0 <= rainy_days x <= 30)%Z.
Proof.
  unfold rainy_days.
  destruct (clip_bounds (x / 5) 0 30) as [H0 H30]; [unfold Qle; simpl; lia|].
  apply rint_mono in H0, H30.
  change (rint 0) with (rint (inject_Z 0)) in H0.
  change (rint 30) with (rint (inject_Z 30)) in H30.
  rewrite rint_inject_Z in H0, H30. lia.
Qed.

Lemma replace_0_1_days d :
  (0 <= d)%Z -> replace 0 1 (inject_Z d) = inject_Z (Z.max d 1).
Proof.
  intros Hd. unfold replace. destruct (Qeq_bool (inject_Z d) 0) eqn:E.
  - apply Qeq_bool_iff in E.
    assert (d = 0%Z) as -> by (unfold Qeq in E; simpl in E; lia). reflexivity.
  - f_equal. apply Qeq_bool_neq in E.
    assert (d <> 0%Z) by (intros ->; apply E; reflexivity). lia.
Qed.

(** C8.  For every rainfall record,
    [Rainfall_Intensity = round(Rainfall_mm / max(Rainy_Days, 1), 2)]: the
    count of rainy days is between 0 and 30, so replacing a count of 0 by 1,
    as the code does, is taking the maximum with 1, and the divisor is never
    0.  In a record with no rainy day the intensity is the rainfall. *)
Theorem rainfall_intensity df u t :
  let row := rainfall_row df u t in
  Rain.Rainfall_Intensity row
  = round (Rain.Rainfall_mm row / inject_Z (Z.max (Rain.Rainy_Days row) 1)) 2
  /\ (1 <= Z.max (Rain.Rainy_Days row) 1)%Z
  /\ (0 <= Rain.Rainy_Days row <= 30)%Z
  /\ (Rain.Rainy_Days row = 0%Z -> Rain.Rainfall_Intensity row == Rain.Rainfall_mm row).
Proof.
  intros row. pose proof (rainy_days_bounds (rain_mm t)) as Hd.
  assert (E : Rain.Rainfall_Intensity row
              = round (Rain.Rainfall_mm row / inject_Z (Z.max (Rain.Rainy_Days row) 1)) 2).
  { simpl. rewrite replace_0_1_days by apply Hd. reflexivity. }
  split; [exact E|]. split; [lia|]. split; [exact Hd|].
  intros H0. rewrite E, H0. simpl. unfold rain_mm.
  apply Qeq_trans with (round (round (Monthly.Rainfall_mm (base t)) 1) 2);
    [|apply round_round; lia].
  apply round_proper; [|reflexivity].
  change (inject_Z (Z.max 0 1)) with 1. unfold Qdiv.
  change (/ 1) with 1. apply Qmult_1_r.
Qed.

Lemma rainfall_intensity_witness :
  exists tdf t,
    mapM (add_metadata "North-West" "Kano") light_rain = Some tdf
    /\ tdf !! 0%nat = Some t
    /\ Rain.Rainy_Days (rainfall_row tdf 0.4 t) = 0%Z
    /\ Rain.Rainfall_mm (rainfall_row tdf 0.4 t) == 0.5
    /\ Rain.Rainfall_Intensity (rainfall_row tdf 0.4 t)
       == Rain.Rainfall_mm (rainfall_row tdf 0.4 t).
Proof.
  eexists. eexists. split; [vm_compute; reflexivity|].
  split; [reflexivity|]. split; [vm_compute; reflexivity|].
  split; [vm_compute; reflexivity|].
  refine (proj2 (proj2 (proj2 (rainfall_intensity _ 0.4 _))) _).
  vm_compute. reflexivity.
Defined.


(** ** Failed locations *)

Section Orchestrator_facts.

Variable fetch : Q -> Q -> Z -> Z -> string -> world -> outcome (option (list Monthly.row)) * world.
Variable randint : nat -> nat -> Z.
Variable uniform : nat -> nat -> nat -> Q.

Lemma location_step_no_data zone st w state lat lon r w1 :
  fetch lat lon START_YEAR END_YEAR state w = (Returned r, w1) ->
  r = None \/ r = Some [] ->
  location_step fetch randint uniform zone st w (state, (lat, lon))
  = (Returned (mark_failed state (next_state st)), sleep 3 w1).
Proof.
  intros H Hr. unfold location_step. rewrite H. destruct Hr as [->| ->]; reflexivity.
Qed.

Lemma location_step_count zone st w loc st' w' :
  location_step fetch randint uniform zone st w loc = (Returned st', w') ->
  (length (all_temperature_data st') + length (failed_states st')
   = S (length (all_temperature_data st) + length (failed_states st)))%nat.
Proof.
  destruct loc as [state [lat lon]]. unfold location_step.
  destruct (fetch lat lon START_YEAR END_YEAR state w) as [[[df|]|] w1];
    [|intros [= <- _]; simpl; rewrite length_app; simpl; lia|discriminate].
  destruct (0 <? length df)%nat;
    [|intros [= <- _]; simpl; rewrite length_app; simpl; lia].
  unfold enrich. destruct (mapM _ df) as [tdf|]; [|discriminate].
  intros [= <- _]. simpl. rewrite length_app. simpl. lia.
Qed.

Lemma states_loop_count zone states : forall st w st' w',
  states_loop fetch randint uniform zone states st w = (Returned st', w') ->
  (length (all_temperature_data st') + length (failed_states st')
   = length states + (length (all_temperature_data st) + length (failed_states st)))%nat.
Proof.
  induction states as [|loc states IH]; intros st w st' w' H.
  - injection H as <- _. reflexivity.
  - cbn [states_loop] in H.
    destruct (location_step fetch randint uniform zone st w loc) as [[st1|] w1] eqn:E;
      [|discriminate H].
    apply location_step_count in E. apply IH in H. simpl. lia.
Qed.

Lemma zones_loop_count zones : forall st w st' w',
  zones_loop fetch randint uniform zones st w = (Returned st', w') ->
  (length (all_temperature_data st') + length (failed_states st')
   = length (locations zones)
     + (length (all_temperature_data st) + length (failed_states st)))%nat.
Proof.
  induction zones as [|[zone states] zones IH]; intros st w st' w' H.
  - injection H as <- _. reflexivity.
  - cbn [zones_loop] in H.
    destruct (states_loop fetch randint uniform zone states st w) as [[st1|] w1] eqn:E;
      [|discriminate H].
    apply states_loop_count in E. apply IH in H.
    unfold locations in *. cbn [fmap list_fmap concat snd]. rewrite length_app. lia.
Qed.

(** When the fetcher returns no data for a location ([None], or a frame
    without rows), the step of that location ends normally: the state is
    appended to [failed_states], the three accumulators are as before, the
    pause of 3 seconds is taken, and the loop goes on with the locations
    that remain.  When the loops end and every location is in
    [failed_states], the run returns no table and logs nothing after the
    loops. *)
Lemma location_without_data :
  (forall zone st w state lat lon r w1 rest,
     fetch lat lon START_YEAR END_YEAR state w = (Returned r, w1) ->
     r = None \/ r = Some [] ->
     let st' := mark_failed state (next_state st) in
     location_step fetch randint uniform zone st w (state, (lat, lon))
     = (Returned st', sleep 3 w1)
     /\ failed_states st' = failed_states st ++ [state]
     /\ all_temperature_data st' = all_temperature_data st
     /\ all_rainfall_data st' = all_rainfall_data st
     /\ all_humidity_data st' = all_humidity_data st
     /\ states_loop fetch randint uniform zone ((state, (lat, lon)) :: rest) st w
        = states_loop fetch randint uniform zone rest st' (sleep 3 w1))
  /\ (forall zones w st w',
        zones_loop fetch randint uniform zones collect_init w = (Returned st, w') ->
        (length (all_temperature_data st) + length (failed_states st)
         = length (locations zones))%nat
        /\ (length (failed_states st) = length (locations zones) ->
            all_temperature_data st = []
            /\ collect_zones fetch randint uniform zones w = (Returned None, w'))).
Proof.
  split.
  - intros zone st w state lat lon r w1 rest H Hr st'.
    pose proof (location_step_no_data zone st w state lat lon r w1 H Hr) as Hstep.
    split; [exact Hstep|]. repeat (split; [reflexivity|]).
    cbn [states_loop]. rewrite Hstep. reflexivity.
  - intros zones w st w' H. pose proof (zones_loop_count _ _ _ _ _ H) as Hc.
    simpl in Hc. split; [lia|]. intros Hall.
    assert (E : all_temperature_data st = []).
    { destruct (all_temperature_data st); [reflexivity|simpl in Hc; lia]. }
    split; [exact E|]. unfold collect_zones, combine_and_save. rewrite H, E.
    reflexivity.
Qed.

End Orchestrator_facts.

(** With the service down for the whole run, the eighteen locations of
    the registry fail one after the other and the run returns no table. *)
Example run_with_service_down other :
  exists log,
    climate_run api_down other fixed_randint fixed_uniform [] = (Returned None, log)
    /\ existsb writes_file log = false
    /\ length (List.filter (fun e => match e with
                                       | Sleep s => (s =? 3)%Z
                                       | _ => false
                                       end) log) = 18%nat.
Proof.
  eexists. split; [vm_compute; reflexivity|]. split; vm_compute; reflexivity.
Qed.

(** C10 does not hold of the code.  A location can fail without the
    fetcher returning [None]: when the service gives days for it but no day
    with all five variables, months are met and none is complete,
    [pd.DataFrame([])] has no [Date] column and line 353 raises [KeyError]
    before the [return None] of line 364 is reached.  Nothing catches the
    exception in the fetcher or at its call in line 398.  With complete
    days for Kaduna and averages only for Kano, the fetcher raises for Kano
    and the run ends there, after the 34 requests of the two locations:
    Kano is in no list of failed locations, the sixteen locations that
    remain are not visited, and the records of Kaduna are not saved. *)
Theorem incomplete_location_aborts_run other :
  dates (process_chunk averages_only all_data_init) = ["2020-01-01"%string]
  /\ monthly_data (process_chunk averages_only all_data_init) = Some []
  /\ aggregate other (process_chunk averages_only all_data_init) = Raised
  /\ (download_nasa_power_data api_kano_averages_only other 12 8.52
        START_YEAR END_YEAR "Kano" []).1 = Raised
  /\ exists log,
       climate_run api_kano_averages_only other fixed_randint fixed_uniform []
       = (Raised, log)
       /\ gets log = 34%nat
       /\ existsb writes_file log = false.
Proof.
  split; [vm_compute; reflexivity|]. split; [vm_compute; reflexivity|].
  split; [vm_compute; reflexivity|]. split; [vm_compute; reflexivity|].
  eexists. split; [vm_compute; reflexivity|]. split; vm_compute; reflexivity.
Qed.

(** ** The day step in closed form *)

Lemma run_bind {A B} (m : M A) (f : A -> M B) ad :
  (m ≫= f) ad
  = match m ad with
    | (Ok a, ad') => f a ad'
    | (Raise e, ad') => (Raise e, ad')
    end.
Proof. reflexivity. Qed.

Lemma index_elem_of k l : k ∈ l -> exists i, index k l = Some i /\ l !! i = Some k.
Proof.
  induction l as [|x l IH]; intros H; [inversion H|].
  cbn [index]. destruct (String.eqb x k) eqn:E.
  - apply String.eqb_eq in E. subst. exists 0%nat. split; reflexivity.
  - apply String.eqb_neq in E. apply elem_of_cons in H as [->|H]; [congruence|].
    destruct (IH H) as (i & Hi & Hl). exists (S i). rewrite Hi. split; [reflexivity|exact Hl].
Qed.

Lemma ensure_month_elem key ad : key ∈ dates (ensure_month key ad).
Proof.
  unfold ensure_month. case_bool_decide as H; [exact H|].
  simpl. apply elem_of_app. right. left.
Qed.

Lemma wf_ensure_month key ad :
  wf ad -> is_Some (key_date key) -> wf (ensure_month key ad).
Proof.
  intros H Hk. unfold ensure_month. case_bool_decide as Hin; [exact H|].
  apply wf_new_month; assumption.
Qed.

Lemma insert_alter_bucket (l : list (list Q)) idx b v :
  l !! idx = Some b -> <[idx := b ++ [v]]> l = alter (fun bucket => bucket ++ [v]) idx l.
Proof.
  intros H. rewrite list_insert_alter. apply list_alter_ext; [|reflexivity].
  intros x Hx. rewrite H in Hx. injection Hx as <-. reflexivity.
Qed.

Lemma append_to_ok c idx v ad b :
  get_column c ad !! idx = Some b ->
  append_to c idx (or_raise KeyError (Some v)) ad = (Ok tt, append_value c idx v ad).
Proof.
  intros H. unfold append_to, append_value.
  unfold mbind, M_bind, get, or_raise, raise, modify, mret, M_ret.
  rewrite H. rewrite (insert_alter_bucket _ _ _ _ H). reflexivity.
Qed.

Lemma append_to_missing c idx ad b :
  get_column c ad !! idx = Some b ->
  append_to c idx (or_raise KeyError None) ad = (Raise KeyError, ad).
Proof.
  intros H. unfold append_to.
  unfold mbind, M_bind, get, or_raise, raise, modify, mret, M_ret.
  rewrite H. reflexivity.
Qed.

Lemma dates_append_value c idx v ad : dates (append_value c idx v ad) = dates ad.
Proof. apply dates_set_column. Qed.

Lemma get_append_value c c' idx v ad :
  get_column c' (append_value c idx v ad)
  = if decide (c' = c) then alter (fun bucket => bucket ++ [v]) idx (get_column c ad)
    else get_column c' ad.
Proof. unfold append_value. apply get_set_column. Qed.

Lemma wf_append_value c idx v ad : wf ad -> wf (append_value c idx v ad).
Proof. intros H. apply wf_set_column; [exact H|]. apply length_alter. Qed.

Lemma lookup_column_wf c ad idx k :
  wf ad -> dates ad !! idx = Some k -> is_Some (get_column c ad !! idx).
Proof.
  intros (Hlen & _) Hk. apply lookup_lt_is_Some_2. rewrite Hlen.
  eapply lookup_lt_Some, Hk.
Qed.

Lemma datetime_value y m d r : datetime y m d = Some r -> r = (y, m, d).
Proof. unfold datetime. destruct (_ && _); [|discriminate]. intros [= <-]. reflexivity. Qed.

Lemma run_or_raise_None {A B} e (f : A -> M B) ad :
  (or_raise e None ≫= f) ad = (Raise e, ad).
Proof. reflexivity. Qed.

Lemma run_or_raise_Some {A B} e (a : A) (f : A -> M B) ad :
  (or_raise e (Some a) ≫= f) ad = f a ad.
Proof. reflexivity. Qed.

(** The appends of lines 297-301 from a state that has the bucket. *)
Lemma run_appends p k v idx key ad :
  wf ad -> dates ad !! idx = Some key ->
  ((_ ← append_to Temps_avg idx (mret v);
    _ ← append_to Temps_max idx (getitem (T2M_MAX p) k);
    _ ← append_to Temps_min idx (getitem (T2M_MIN p) k);
    _ ← append_to Rainfall idx (getitem (PRECTOTCORR p) k);
    append_to Humidity idx (getitem (RH2M p) k)) ad).2
  = store_day p k v idx ad.
Proof.
  intros Hwf Hidx. unfold store_day, day_values, getitem.
  change (mret v) with (or_raise KeyError (Some v) : M Q).
  destruct (lookup_column_wf Temps_avg ad idx key Hwf Hidx) as [b0 H0].
  rewrite run_bind, (append_to_ok _ _ _ _ _ H0).
  set (a1 := append_value Temps_avg idx v ad).
  assert (W1 : wf a1) by (apply wf_append_value, Hwf).
  assert (D1 : dates a1 !! idx = Some key) by (unfold a1; rewrite dates_append_value; exact Hidx).
  destruct (lookup_column_wf Temps_max a1 idx key W1 D1) as [b1 H1].
  rewrite run_bind.
  destruct (T2M_MAX p ≫= (.!! k)) as [v1|];
    [rewrite (append_to_ok _ _ _ _ _ H1)|rewrite (append_to_missing _ _ _ _ H1); reflexivity].
  set (a2 := append_value Temps_max idx v1 a1).
  assert (W2 : wf a2) by (apply wf_append_value, W1).
  assert (D2 : dates a2 !! idx = Some key) by (unfold a2; rewrite dates_append_value; exact D1).
  destruct (lookup_column_wf Temps_min a2 idx key W2 D2) as [b2 H2].
  rewrite run_bind.
  destruct (T2M_MIN p ≫= (.!! k)) as [v2|];
    [rewrite (append_to_ok _ _ _ _ _ H2)|rewrite (append_to_missing _ _ _ _ H2); reflexivity].
  set (a3 := append_value Temps_min idx v2 a2).
  assert (W3 : wf a3) by (apply wf_append_value, W2).
  assert (D3 : dates a3 !! idx = Some key) by (unfold a3; rewrite dates_append_value; exact D2).
  destruct (lookup_column_wf Rainfall a3 idx key W3 D3) as [b3 H3].
  rewrite run_bind.
  destruct (PRECTOTCORR p ≫= (.!! k)) as [v3|];
    [rewrite (append_to_ok _ _ _ _ _ H3)|rewrite (append_to_missing _ _ _ _ H3); reflexivity].
  set (a4 := append_value Rainfall idx v3 a3).
  assert (W4 : wf a4) by (apply wf_append_value, W3).
  assert (D4 : dates a4 !! idx = Some key) by (unfold a4; rewrite dates_append_value; exact D3).
  destruct (lookup_column_wf Humidity a4 idx key W4 D4) as [b4 H4].
  destruct (RH2M p ≫= (.!! k)) as [v4|];
    [rewrite (append_to_ok _ _ _ _ _ H4)|rewrite (append_to_missing _ _ _ _ H4)]; reflexivity.
Qed.

Lemma day_step_spec p ad k v :
  wf ad ->
  match parse_day k with
  | None => process_day p ad (k, v) = ad
  | Some (y, m, _) =>
      exists idx,
        index (month_key y m) (dates (ensure_month (month_key y m) ad)) = Some idx
        /\ process_day p ad (k, v)
           = store_day p k v idx (ensure_month (month_key y m) ad)
  end.
Proof.
  intros Hwf. unfold parse_day, process_day, day_body. cbn [fst snd].
  destruct (int (substring 0 4 k)) as [y|]; [|reflexivity].
  destruct (int (substring 4 2 k)) as [m|]; [|reflexivity].
  destruct (int (substring 6 2 k)) as [d|]; [|reflexivity].
  cbn [mbind option_bind]. rewrite !run_or_raise_Some.
  destruct (datetime y m d) as [r|] eqn:Er; [|reflexivity].
  rewrite run_or_raise_Some.
  pose proof (datetime_value _ _ _ _ Er) as ->.
  apply datetime_Some in Er as [Hy Hm].
  pose proof (key_date_month_key y m Hy Hm) as Hkey.
  cbv zeta. set (key := month_key y m) in *.
  pose proof (ensure_month_elem key ad) as Hin.
  destruct (index_elem_of _ _ Hin) as (idx & Hidx & Hlook).
  exists idx. split; [exact Hidx|].
  assert (W0 : wf (ensure_month key ad)).
  { apply wf_ensure_month; [exact Hwf|]. rewrite Hkey. eauto. }
  rewrite <- (run_appends p k v idx key _ W0 Hlook).
  rewrite run_bind. cbn [get]. rewrite run_bind.
  assert (E : (if bool_decide (key ∈ dates ad) then mret tt
               else modify (new_month key)) ad = (Ok tt, ensure_month key ad)).
  { unfold ensure_month. case_bool_decide; reflexivity. }
  rewrite E. rewrite run_bind. cbn [get]. rewrite Hidx, run_or_raise_Some. reflexivity.
Qed.

(** X1.  The per-day [try] block in closed form, on a well-formed
    accumulator.  A key that is not a valid date changes nothing.  A key
    that is one is stored under the key of its month, which gets a bucket
    at the end of the lists when it is new: the day's values are appended
    to the buckets of that month in the order average, maximum, minimum,
    rainfall, humidity, up to the first variable the response lacks for the
    day. *)
Theorem day_step_closed_form p ad k v :
  wf ad ->
  match parse_day k with
  | None => process_day p ad (k, v) = ad
  | Some (y, m, _) =>
      exists idx,
        index (month_key y m) (dates (ensure_month (month_key y m) ad)) = Some idx
        /\ process_day p ad (k, v)
           = store_day p k v idx (ensure_month (month_key y m) ad)
  end.
Proof. apply day_step_spec. Qed.

Lemma day_step_closed_form_witness :
  process_day partial_day all_data_init ("20200101"%string, 30)
  = store_day partial_day "20200101" 30 0
      (ensure_month (month_key 2020 1) all_data_init)
  /\ process_day partial_day all_data_init ("20200230"%string, 30) = all_data_init.
Proof.
  split.
  - destruct (day_step_closed_form partial_day all_data_init "20200101" 30 wf_init)
      as (idx & Hidx & H).
    vm_compute in Hidx. injection Hidx as <-. exact H.
  - exact (day_step_closed_form partial_day all_data_init "20200230" 30 wf_init).
Defined.

Lemma attempts_from_api api l lat lon start_date end_date : forall w data,
  (attempts api l lat lon start_date end_date w).1 = Some data ->
  exists w' r, api w' r = Some data.
Proof.
  induction l as [|a l IH]; intros w data H; [discriminate H|].
  cbn [attempts] in H. unfold try_request in H.
  destruct (api w _) as [d|] eqn:E.
  - injection H as <-. eauto.
  - destruct (a <? 2)%Z; eapply IH, H.
Qed.

(** ** Invariants of the buckets *)

Lemma lookup_append_value c c' idx i v ad :
  get_column c' (append_value c idx v ad) !! i
  = if decide (c' = c /\ i = idx)
    then (fun b => b ++ [v]) <$> get_column c' ad !! i
    else get_column c' ad !! i.
Proof.
  rewrite get_append_value.
  destruct (decide (c' = c)) as [->|Hc].
  - destruct (decide (i = idx)) as [->|Hi].
    + rewrite decide_True by auto. apply list_lookup_alter_eq.
    + rewrite decide_False by (intros [_ ?]; auto).
      apply list_lookup_alter_ne. auto.
  - rewrite decide_False by (intros [? _]; auto). reflexivity.
Qed.

Lemma lookup_new_month c key ad i b :
  wf ad -> get_column c (new_month key ad) !! i = Some b ->
  get_column c ad !! i = Some b \/ (i = length (dates ad) /\ b = []).
Proof.
  intros (Hlen & _) H.
  assert (E : get_column c (new_month key ad) = get_column c ad ++ [[]])
    by (destruct c; reflexivity).
  rewrite E in H. apply lookup_app_Some in H as [H|[Hge H]]; [left; exact H|].
  right. destruct (i - length (get_column c ad))%nat as [|n] eqn:En; [|destruct n; discriminate H].
  injection H as <-. rewrite <- (Hlen c). split; [lia|reflexivity].
Qed.

Lemma staggered_ensure_month key ad :
  wf ad -> staggered ad -> staggered (ensure_month key ad).
Proof.
  intros Hwf Hs. unfold ensure_month. case_bool_decide; [exact Hs|].
  intros i a b c d e Ha Hb Hc Hd He.
  apply (lookup_new_month Temps_avg key ad i a Hwf) in Ha.
  apply (lookup_new_month Temps_max key ad i b Hwf) in Hb.
  apply (lookup_new_month Temps_min key ad i c Hwf) in Hc.
  apply (lookup_new_month Rainfall key ad i d Hwf) in Hd.
  apply (lookup_new_month Humidity key ad i e Hwf) in He.
  destruct Hwf as (Hlen & _).
  pose proof (Hlen Temps_avg). pose proof (Hlen Temps_max). pose proof (Hlen Temps_min).
  pose proof (Hlen Rainfall). pose proof (Hlen Humidity). simpl in *.
  destruct Ha as [Ha|[-> ->]], Hb as [Hb|[Hb' ->]], Hc as [Hc|[Hc' ->]],
    Hd as [Hd|[Hd' ->]], He as [He|[He' ->]];
    try (simpl; lia);
    try (eapply Hs; eassumption);
    exfalso;
    repeat match goal with
           | H : _ !! _ = Some _ |- _ => apply lookup_lt_Some in H
           end; lia.
Qed.

Lemma lookup_append_value_eq c idx v ad :
  get_column c (append_value c idx v ad) !! idx
  = (fun b => b ++ [v]) <$> get_column c ad !! idx.
Proof. rewrite lookup_append_value, decide_True by auto. reflexivity. Qed.

Lemma lookup_append_value_col c c' idx i v ad :
  c' <> c -> get_column c' (append_value c idx v ad) !! i = get_column c' ad !! i.
Proof. intros H. rewrite lookup_append_value, decide_False by tauto. reflexivity. Qed.

Lemma lookup_append_value_pos c c' idx i v ad :
  i <> idx -> get_column c' (append_value c idx v ad) !! i = get_column c' ad !! i.
Proof. intros H. rewrite lookup_append_value, decide_False by tauto. reflexivity. Qed.

Ltac at_bucket H :=
  repeat first [ rewrite lookup_append_value_eq in H
               | rewrite lookup_append_value_col in H by discriminate ].

Ltac at_other H Hne :=
  repeat rewrite (lookup_append_value_pos _ _ _ _ _ _ Hne) in H.

Ltac old_bucket H :=
  match type of H with
  | _ <$> ?o = Some _ =>
      let b := fresh "b" in
      destruct o as [b|] eqn:?; [injection H as <-|discriminate H]
  | _ => idtac
  end.

Lemma lookup_store_day_other c p k v idx i ad :
  i <> idx -> get_column c (store_day p k v idx ad) !! i = get_column c ad !! i.
Proof.
  intros Hne. unfold store_day. generalize (available (day_values p k v)).
  intros l. revert ad. induction l as [|[c0 v0] l IH]; intros ad; [reflexivity|].
  cbn [foldl fst snd]. rewrite IH. apply lookup_append_value_pos, Hne.
Qed.

Lemma staggered_store_day p k v idx ad :
  staggered ad -> staggered (store_day p k v idx ad).
Proof.
  intros Hs.
  intros i a b c d e Ha Hb Hc Hd He.
  change (temps_avg ?x) with (get_column Temps_avg x) in Ha.
  change (temps_max ?x) with (get_column Temps_max x) in Hb.
  change (temps_min ?x) with (get_column Temps_min x) in Hc.
  change (rainfall ?x) with (get_column Rainfall x) in Hd.
  change (humidity ?x) with (get_column Humidity x) in He.
  destruct (decide (i = idx)) as [->|Hne].
  - unfold store_day, day_values in Ha, Hb, Hc, Hd, He.
    destruct (T2M_MAX p ≫= (.!! k)) as [v1|];
      [destruct (T2M_MIN p ≫= (.!! k)) as [v2|];
       [destruct (PRECTOTCORR p ≫= (.!! k)) as [v3|];
        [destruct (RH2M p ≫= (.!! k)) as [v4|]|]|]|];
      cbn [available foldl fst snd] in Ha, Hb, Hc, Hd, He;
      at_bucket Ha; at_bucket Hb; at_bucket Hc; at_bucket Hd; at_bucket He;
      old_bucket Ha; old_bucket Hb; old_bucket Hc; old_bucket Hd; old_bucket He;
      match goal with
      | Ha' : get_column Temps_avg ad !! idx = Some ?a',
        Hb' : get_column Temps_max ad !! idx = Some ?b',
        Hc' : get_column Temps_min ad !! idx = Some ?c',
        Hd' : get_column Rainfall ad !! idx = Some ?d',
        He' : get_column Humidity ad !! idx = Some ?e' |- _ =>
          pose proof (Hs idx a' b' c' d' e' Ha' Hb' Hc' Hd' He')
      end;
      rewrite ?length_app; simpl; lia.
  - rewrite lookup_store_day_other in Ha, Hb, Hc, Hd, He by exact Hne.
    exact (Hs i a b c d e Ha Hb Hc Hd He).
Qed.

Lemma staggered_process_day p ad item :
  wf ad -> staggered ad -> staggered (process_day p ad item).
Proof.
  intros Hwf Hs. destruct item as [k v].
  pose proof (day_step_spec p ad k v Hwf) as H.
  destruct (parse_day k) as [[[y m] d]|]; [|rewrite H; exact Hs].
  destruct H as (idx & _ & ->).
  apply staggered_store_day, staggered_ensure_month; assumption.
Qed.

Lemma staggered_process_chunk p ad :
  wf ad -> staggered ad -> wf (process_chunk p ad) /\ staggered (process_chunk p ad).
Proof.
  intros Hwf Hs. split; [apply wf_process_chunk, Hwf|].
  unfold process_chunk. destruct (T2M p) as [items|]; [|exact Hs].
  unfold process_items. revert ad Hwf Hs.
  induction items as [|item items IH]; intros ad Hwf Hs; [exact Hs|].
  cbn [foldl]. apply IH; [apply wf_process_day, Hwf|apply staggered_process_day; assumption].
Qed.

Lemma staggered_init : staggered all_data_init.
Proof. intros i a b c d e Ha. simpl in Ha. rewrite lookup_nil in Ha. discriminate Ha. Qed.

(** A property kept by every response is kept by the chunk loop. *)
Lemma chunk_loop_invariant (I : all_data -> Prop) api lat lon start_year end_year w :
  I all_data_init ->
  (forall p ad w' r, api w' r = Some p -> I ad -> I (process_chunk p ad)) ->
  I (cs_data (chunk_loop api lat lon start_year end_year w)).
Proof.
  intros H0 Hstep. unfold chunk_loop. fold (chunk_state_init w).
  assert (H : I (cs_data (chunk_state_init w))) by exact H0.
  revert H. generalize (chunk_state_init w).
  induction (range start_year (end_year + 1) chunk_size) as [|y l IH];
    intros st H; [exact H|].
  cbn [foldl]. apply IH. unfold chunk_step.
  pose proof (attempts_from_api api (range 0 3 1) lat lon
                (str y +:+ "0101") (str (Z.min (y + chunk_size - 1) end_year) +:+ "1231")
                (cs_world st)) as Hatt.
  destruct (attempts _ _ _ _ _ _ _) as [[data|] w']; simpl; [|exact H].
  destruct (Hatt data eq_refl) as (w0 & r & Hr). eapply Hstep; eassumption.
Qed.

(** X2.  In the accumulator of a location, at every month the bucket of
    averages is at least as long as the bucket of maxima, which is at least
    as long as that of minima, then rainfall, then humidity: a day's values
    are appended in this order up to the first missing one.  A month is
    therefore complete exactly when its humidity bucket is not empty. *)
Theorem bucket_lengths_staggered api lat lon start_year end_year w :
  let ad := cs_data (chunk_loop api lat lon start_year end_year w) in
  staggered ad
  /\ forall k, complete_month ad k
               <-> exists i x xs, dates ad !! i = Some k
                                  /\ humidity ad !! i = Some (x :: xs).
Proof.
  intros ad.
  assert (H : wf ad /\ staggered ad).
  { apply (chunk_loop_invariant (fun a => wf a /\ staggered a)).
    - split; [apply wf_init|apply staggered_init].
    - intros p a _ _ _ [Hwf Hs]. apply staggered_process_chunk; assumption. }
  destruct H as [Hwf Hs]. split; [exact Hs|]. intros k. split.
  - intros (i & Hi & Hc). destruct (Hc Humidity) as (x & xs & Hx). eauto.
  - intros (i & x & xs & Hi & Hx). exists i. split; [exact Hi|].
    destruct (lookup_column_wf Temps_avg ad i k Hwf Hi) as [a Ha].
    destruct (lookup_column_wf Temps_max ad i k Hwf Hi) as [b Hb].
    destruct (lookup_column_wf Temps_min ad i k Hwf Hi) as [c Hc].
    destruct (lookup_column_wf Rainfall ad i k Hwf Hi) as [d Hd].
    simpl in *. pose proof (Hs i a b c d (x :: xs) Ha Hb Hc Hd Hx) as Hl.
    simpl in Hl.
    intros col. destruct col; simpl;
      [destruct a|destruct b|destruct c|destruct d|]; simpl in Hl; eauto; lia.
Qed.

Lemma index_Some k l i : index k l = Some i -> l !! i = Some k.
Proof.
  revert i. induction l as [|x l IH]; intros i H; [discriminate H|].
  cbn [index] in H. destruct (String.eqb x k) eqn:E.
  - injection H as <-. apply String.eqb_eq in E. subst. reflexivity.
  - destruct (index k l) as [j|]; [|discriminate H]. injection H as <-.
    simpl. apply IH. reflexivity.
Qed.

Lemma lookup_ensure_month c key ad i b :
  wf ad -> get_column c (ensure_month key ad) !! i = Some b ->
  get_column c ad !! i = Some b
  \/ ((key ∉ dates ad) /\ i = length (dates ad) /\ b = []).
Proof.
  intros Hwf H. unfold ensure_month in H. case_bool_decide as Hin; [left; exact H|].
  apply lookup_new_month in H as [H|[-> ->]]; auto.
Qed.

Lemma ensure_month_position key ad idx :
  wf ad -> key ∉ dates ad -> dates (ensure_month key ad) !! idx = Some key ->
  idx = length (dates ad).
Proof.
  intros Hwf Hnew H. unfold ensure_month in H.
  rewrite bool_decide_eq_false_2 in H by exact Hnew. simpl in H.
  apply lookup_app_Some in H as [H|[Hge H]].
  - exfalso. apply Hnew. eapply list_elem_of_lookup_2, H.
  - destruct (idx - length (dates ad))%nat eqn:E; [lia|].
    simpl in H. rewrite lookup_nil in H. discriminate H.
Qed.

Lemma aligned_ensure_month key ad : wf ad -> aligned ad -> aligned (ensure_month key ad).
Proof.
  intros Hwf Ha i c c' b b' Hb Hb'.
  apply lookup_ensure_month in Hb, Hb'; try exact Hwf.
  destruct Hwf as (Hlen & _).
  destruct Hb as [Hb|(_ & -> & ->)], Hb' as [Hb'|(_ & Hi & ->)].
  - eapply Ha; eassumption.
  - apply lookup_lt_Some in Hb. rewrite Hlen in Hb. lia.
  - apply lookup_lt_Some in Hb'. rewrite Hlen in Hb'. lia.
  - reflexivity.
Qed.

Lemma lookup_store_day_complete p k v idx ad c :
  complete_day p k ->
  exists x, get_column c (store_day p k v idx ad) !! idx
            = (fun b => b ++ [x]) <$> get_column c ad !! idx.
Proof.
  intros ([v1 E1] & [v2 E2] & [v3 E3] & [v4 E4]).
  unfold store_day, day_values. rewrite E1, E2, E3, E4.
  cbn [available foldl fst snd].
  destruct c; eexists;
    repeat first [ rewrite lookup_append_value_eq
                 | rewrite lookup_append_value_col by discriminate ];
    reflexivity.
Qed.

Lemma complete_day_step p ad k v :
  wf ad -> aligned ad -> full ad -> complete_day p k ->
  aligned (process_day p ad (k, v)) /\ full (process_day p ad (k, v)).
Proof.
  intros Hwf Ha Hf Hc.
  pose proof (day_step_spec p ad k v Hwf) as H.
  destruct (parse_day k) as [[[y m] d]|]; [|rewrite H; auto].
  destruct H as (idx & Hidx & ->). apply index_Some in Hidx.
  set (key := month_key y m) in *. split.
  - intros i c c' b b' Hb Hb'.
    destruct (decide (i = idx)) as [->|Hne].
    + destruct (lookup_store_day_complete p k v idx (ensure_month key ad) c Hc) as [x Ex].
      destruct (lookup_store_day_complete p k v idx (ensure_month key ad) c' Hc) as [x' Ex'].
      rewrite Ex in Hb. rewrite Ex' in Hb'.
      destruct (get_column c (ensure_month key ad) !! idx) as [b0|] eqn:E0; [|discriminate Hb].
      destruct (get_column c' (ensure_month key ad) !! idx) as [b0'|] eqn:E0'; [|discriminate Hb'].
      injection Hb as <-. injection Hb' as <-. rewrite !length_app. simpl.
      rewrite (aligned_ensure_month key ad Hwf Ha idx c c' b0 b0' E0 E0'). reflexivity.
    + rewrite lookup_store_day_other in Hb, Hb' by exact Hne.
      eapply (aligned_ensure_month key ad Hwf Ha); eassumption.
  - intros i c b Hb.
    destruct (decide (i = idx)) as [->|Hne].
    + destruct (lookup_store_day_complete p k v idx (ensure_month key ad) c Hc) as [x Ex].
      rewrite Ex in Hb.
      destruct (get_column c (ensure_month key ad) !! idx) as [b0|]; [|discriminate Hb].
      injection Hb as <-. destruct b0; discriminate.
    + rewrite lookup_store_day_other in Hb by exact Hne.
      destruct (lookup_ensure_month c key ad i b Hwf Hb) as [Hb0|(Hnew & -> & ->)].
      * eapply Hf, Hb0.
      * exfalso. apply Hne. symmetry.
        apply (ensure_month_position key ad idx Hwf Hnew Hidx).
Qed.

Lemma complete_response_step p ad :
  complete_response p -> wf ad /\ aligned ad /\ full ad ->
  wf (process_chunk p ad) /\ aligned (process_chunk p ad) /\ full (process_chunk p ad).
Proof.
  intros Hc (Hwf & Ha & Hf). split; [apply wf_process_chunk, Hwf|].
  unfold process_chunk. destruct (T2M p) as [items|] eqn:ET; [|auto].
  specialize (Hc items ET). clear ET. unfold process_items. revert ad Hwf Ha Hf.
  induction items as [|[k v] items IH]; intros ad Hwf Ha Hf; [auto|].
  cbn [foldl].
  destruct (complete_day_step p ad k v Hwf Ha Hf) as [Ha' Hf'].
  { apply (Hc k v). left. }
  apply IH; [intros k' v' Hin; apply (Hc k' v'); right; exact Hin
            |apply wf_process_day, Hwf|exact Ha'|exact Hf'].
Qed.

Lemma monthly_loop_full ad keys : forall i rows,
  full ad -> monthly_loop ad i keys = Some rows -> Monthly.Date <$> rows = keys.
Proof.
  induction keys as [|k keys IH]; intros i rows Hf H.
  - simpl in H. injection H as <-. reflexivity.
  - cbn [monthly_loop] in H.
    destruct (all_present ad i) as [present|] eqn:Ep; [|discriminate H].
    cbn [mbind option_bind] in H.
    assert (present = true) as ->.
    { destruct present; [reflexivity|]. exfalso. unfold all_present in Ep.
      destruct (temps_avg ad !! i) as [a|] eqn:E1; [|discriminate Ep].
      destruct (temps_max ad !! i) as [b|] eqn:E2;
        [|destruct a; [exact (Hf i Temps_avg [] E1 eq_refl)|discriminate Ep]].
      destruct (temps_min ad !! i) as [c|] eqn:E3;
        [|destruct a; [exact (Hf i Temps_avg [] E1 eq_refl)|];
          destruct b; [exact (Hf i Temps_max [] E2 eq_refl)|discriminate Ep]].
      destruct (rainfall ad !! i) as [d|] eqn:E4;
        [|destruct a; [exact (Hf i Temps_avg [] E1 eq_refl)|];
          destruct b; [exact (Hf i Temps_max [] E2 eq_refl)|];
          destruct c; [exact (Hf i Temps_min [] E3 eq_refl)|discriminate Ep]].
      destruct (humidity ad !! i) as [e|] eqn:E5;
        [|destruct a; [exact (Hf i Temps_avg [] E1 eq_refl)|];
          destruct b; [exact (Hf i Temps_max [] E2 eq_refl)|];
          destruct c; [exact (Hf i Temps_min [] E3 eq_refl)|];
          destruct d; [exact (Hf i Rainfall [] E4 eq_refl)|discriminate Ep]].
      destruct a; [exact (Hf i Temps_avg [] E1 eq_refl)|].
      destruct b; [exact (Hf i Temps_max [] E2 eq_refl)|].
      destruct c; [exact (Hf i Temps_min [] E3 eq_refl)|].
      destruct d; [exact (Hf i Rainfall [] E4 eq_refl)|].
      destruct e; [exact (Hf i Humidity [] E5 eq_refl)|discriminate Ep]. }
    destruct (month_record ad i k) as [r|] eqn:Er; [|discriminate H].
    cbn [fmap option_fmap option_map mbind option_bind] in H.
    destruct (monthly_loop ad (S i) keys) as [rest|] eqn:El; [|discriminate H].
    cbn [mbind option_bind] in H. injection H as <-.
    cbn [app fmap list_fmap]. f_equal; [|apply (IH (S i)); assumption].
    unfold month_record in Er.
    destruct (temps_avg ad !! i), (temps_max ad !! i), (temps_min ad !! i),
      (rainfall ad !! i), (humidity ad !! i); try discriminate Er.
    injection Er as <-. reflexivity.
Qed.

(** *** Months of pandas' calendar *)

Lemma dates_store_day p k v idx ad : dates (store_day p k v idx ad) = dates ad.
Proof.
  unfold store_day. generalize (available (day_values p k v)). intros l. revert ad.
  induction l as [|[c0 v0] l IH]; intros ad; [reflexivity|].
  cbn [foldl fst snd]. rewrite IH. apply dates_append_value.
Qed.

Lemma timestamped_ensure_month key ad :
  timestamped ad -> is_Some (to_datetime key) -> timestamped (ensure_month key ad).
Proof.
  intros H Hk. unfold ensure_month. case_bool_decide; [exact H|].
  unfold timestamped. cbn [new_month dates]. apply Forall_app. split; [exact H|].
  constructor; [exact Hk|constructor].
Qed.

Lemma timestamped_process_day p ad k v :
  wf ad -> timestamped ad ->
  (forall y m d, parse_day k = Some (y, m, d) -> is_timestamp (y, m, 1%Z) = true) ->
  timestamped (process_day p ad (k, v)).
Proof.
  intros Hwf Ht Hk. pose proof (day_step_spec p ad k v Hwf) as H.
  destruct (parse_day k) as [[[y m] d]|]; [|rewrite H; exact Ht].
  destruct H as (idx & _ & ->). unfold timestamped. rewrite dates_store_day.
  apply timestamped_ensure_month; [exact Ht|].
  rewrite to_datetime_month_key by (eapply Hk; reflexivity). eauto.
Qed.

Lemma timestamped_process_chunk p ad :
  timestamp_response p -> wf ad /\ timestamped ad ->
  wf (process_chunk p ad) /\ timestamped (process_chunk p ad).
Proof.
  intros Hp [Hwf Ht]. split; [apply wf_process_chunk, Hwf|].
  unfold process_chunk. destruct (T2M p) as [items|] eqn:ET; [|exact Ht].
  specialize (Hp items ET). clear ET. unfold process_items. revert ad Hwf Ht.
  induction items as [|[k v] items IH]; intros ad Hwf Ht; [exact Ht|].
  cbn [foldl]. apply IH.
  - intros k' v' y m d Hin. apply (Hp k' v' y m d). right. exact Hin.
  - apply wf_process_day, Hwf.
  - apply timestamped_process_day; [exact Hwf|exact Ht|].
    intros y m d. apply (Hp k v y m d). left.
Qed.

Lemma timestamp_response_january : timestamp_response january_2020.
Proof.
  intros items H k v y m d Hin. injection H as <-.
  repeat (apply elem_of_cons in Hin as [Hin|Hin];
          [injection Hin as -> ->; vm_compute; intros [= <- <- <-]; reflexivity|]).
  inversion Hin.
Qed.

(** X3.  When every response the service gives has, for each day of its
    [T2M] series, a value of the four other variables, the five buckets of
    every month have the same length and none is empty when the chunk loop
    ends: every month met is emitted, in the order the months were met.
    When the days are also days of pandas' calendar (October 1677 to April
    2262), the function returns [None] (no month met) or a frame with
    exactly these months; it does not raise. *)
Theorem complete_responses_emit_every_month api other lat lon start_year end_year w :
  (forall w' r p, api w' r = Some p -> complete_response p) ->
  let ad := cs_data (chunk_loop api lat lon start_year end_year w) in
  aligned ad /\ full ad
  /\ (exists rows, monthly_data ad = Some rows /\ Monthly.Date <$> rows = dates ad)
  /\ (dates ad = [] -> aggregate other ad = Returned None)
  /\ ((forall w' r p, api w' r = Some p -> timestamp_response p) ->
      timestamped ad
      /\ (dates ad <> [] ->
          exists df, aggregate other ad = Returned (Some df)
                     /\ Monthly.Date <$> df ≡ₚ dates ad)).
Proof.
  intros Hapi ad.
  assert (H : wf ad /\ aligned ad /\ full ad).
  { apply (chunk_loop_invariant (fun a => wf a /\ aligned a /\ full a)).
    - split; [apply wf_init|]. split.
      + intros i c c' b b' Hb. destruct c; simpl in Hb; rewrite lookup_nil in Hb; discriminate Hb.
      + intros i c b Hb. destruct c; simpl in Hb; rewrite lookup_nil in Hb; discriminate Hb.
    - intros p a w' r Hp Ha. apply complete_response_step; [|exact Ha].
      eapply Hapi, Hp. }
  destruct H as (Hwf & Ha & Hf). split; [exact Ha|]. split; [exact Hf|].
  destruct (monthly_data_total ad Hwf) as [rows Hrows].
  pose proof (monthly_loop_full ad (dates ad) 0 rows Hf Hrows) as Hdates.
  split; [exists rows; auto|]. split.
  - intros E. unfold aggregate. rewrite E. reflexivity.
  - intros Hts.
    assert (Ht : wf ad /\ timestamped ad).
    { apply (chunk_loop_invariant (fun a => wf a /\ timestamped a)).
      - split; [apply wf_init|constructor].
      - intros p a w' r Hp Hi. apply timestamped_process_chunk; [|exact Hi].
        eapply Hts, Hp. }
    destruct Ht as [_ Ht]. split; [exact Ht|].
    intros Hne. destruct rows as [|r rows].
    { exfalso. apply Hne. rewrite <- Hdates. reflexivity. }
    destruct (aggregate_total other ad r rows Ht Hrows) as (df & Hdf & Hperm).
    exists df. split; [exact Hdf|]. rewrite Hperm. rewrite Hdates. reflexivity.
Qed.

Lemma complete_response_january : complete_response january_2020.
Proof.
  intros items H k v Hin. injection H as <-.
  repeat (apply elem_of_cons in Hin as [Hin|Hin];
          [injection Hin as -> ->; vm_compute; repeat split; eauto|]).
  inversion Hin.
Qed.

Lemma complete_responses_emit_every_month_witness :
  exists df,
    aggregate no_other (cs_data (chunk_loop api_january 10.52 7.44 2020 2020 []))
    = Returned (Some df)
    /\ Monthly.Date <$> df
       ≡ₚ dates (cs_data (chunk_loop api_january 10.52 7.44 2020 2020 [])).
Proof.
  refine (proj2 (proj2 (proj2 (proj2 (proj2
            (complete_responses_emit_every_month api_january no_other 10.52 7.44
               2020 2020 [] _)))) _) _).
  - intros w' r p H. injection H as <-. apply complete_response_january.
  - intros w' r p H. injection H as <-. apply timestamp_response_january.
  - vm_compute. discriminate.
Defined.

(** ** Days whose minimum is at most their maximum *)

(** The bucket of the day's month after the day is stored. *)
Lemma lookup_store_day p k v idx ad c :
  get_column c (store_day p k v idx ad) !! idx
  = (fun b => b ++ stored p k v c) <$> get_column c ad !! idx.
Proof.
  unfold store_day, stored. generalize (available (day_values p k v)). intros l.
  revert ad. induction l as [|[c0 v0] l IH]; intros ad.
  - cbn [foldl omap list_omap]. destruct (get_column c ad !! idx); [|reflexivity].
    cbn. rewrite app_nil_r. reflexivity.
  - cbn [foldl fst snd omap list_omap]. rewrite IH, lookup_append_value.
    destruct (decide (c0 = c)) as [->|Hne].
    + rewrite decide_True by auto.
      destruct (get_column c ad !! idx); [|reflexivity]. cbn.
      rewrite <- app_assoc. reflexivity.
    + rewrite decide_False by (intros [E _]; congruence). reflexivity.
Qed.

Lemma stored_extremes p k v :
  stored p k v Temps_max = match T2M_MAX p ≫= (.!! k) with Some mx => [mx] | None => [] end
  /\ stored p k v Temps_min
     = match T2M_MAX p ≫= (.!! k), T2M_MIN p ≫= (.!! k) with
       | Some _, Some mn => [mn]
       | _, _ => []
       end.
Proof.
  unfold stored, day_values.
  destruct (T2M_MAX p ≫= (.!! k)) as [mx|]; [|split; reflexivity].
  destruct (T2M_MIN p ≫= (.!! k)) as [mn|]; [|split; reflexivity].
  destruct (PRECTOTCORR p ≫= (.!! k)) as [v3|]; [|split; reflexivity].
  destruct (RH2M p ≫= (.!! k)) as [v4|]; split; reflexivity.
Qed.

Lemma extremes_ensure_month key ad :
  wf ad -> (forall i, extremes_ordered ad i) ->
  forall i, extremes_ordered (ensure_month key ad) i.
Proof.
  intros Hwf Hb i mx mn Hx Hn lo Hlo.
  change (temps_max ?x) with (get_column Temps_max x) in Hx.
  change (temps_min ?x) with (get_column Temps_min x) in Hn.
  destruct (lookup_ensure_month _ _ _ _ _ Hwf Hn) as [Hn0|(_ & _ & ->)]; [|inversion Hlo].
  destruct (lookup_ensure_month _ _ _ _ _ Hwf Hx) as [Hx0|(_ & -> & _)];
    [|apply lookup_lt_Some in Hn0; destruct Hwf as (Hlen & _);
      rewrite (Hlen Temps_min) in Hn0; lia].
  exact (Hb i mx mn Hx0 Hn0 lo Hlo).
Qed.

Lemma extremes_step p ad k v :
  wf ad -> (forall i, extremes_ordered ad i) -> ordered_day p k ->
  forall i, extremes_ordered (process_day p ad (k, v)) i.
Proof.
  intros Hwf Hb Hday.
  pose proof (day_step_spec p ad k v Hwf) as H.
  destruct (parse_day k) as [[[y m] d]|]; [|rewrite H; exact Hb].
  destruct H as (idx & _ & ->). set (key := month_key y m).
  pose proof (extremes_ensure_month key ad Hwf Hb) as Hb0.
  intros i mx' mn' Hx Hn lo Hlo.
  change (temps_max ?x) with (get_column Temps_max x) in Hx.
  change (temps_min ?x) with (get_column Temps_min x) in Hn.
  destruct (decide (i = idx)) as [->|Hne].
  - rewrite lookup_store_day in Hx, Hn.
    destruct (stored_extremes p k v) as [Ex En]. rewrite Ex in Hx. rewrite En in Hn.
    destruct (get_column Temps_max (ensure_month key ad) !! idx) as [mxs|] eqn:Emx;
      [|discriminate Hx].
    destruct (get_column Temps_min (ensure_month key ad) !! idx) as [mns|] eqn:Emn;
      [|discriminate Hn].
    injection Hx as <-. injection Hn as <-.
    assert (Hold : forall l, l ∈ mns -> exists hi,
                     hi ∈ mxs ++ match T2M_MAX p ≫= (.!! k) with
                                 | Some mx => [mx]
                                 | None => []
                                 end /\ l <= hi).
    { intros l Hl. destruct (Hb0 idx mxs mns Emx Emn l Hl) as (hi & Hhi & Hle).
      exists hi. split; [apply elem_of_app; left; exact Hhi|exact Hle]. }
    unfold ordered_day in Hday.
    destruct (T2M_MAX p ≫= (.!! k)) as [mx|];
      [destruct (T2M_MIN p ≫= (.!! k)) as [mn|]|].
    + apply elem_of_app in Hlo as [Hlo|Hlo]; [apply Hold, Hlo|].
      apply list_elem_of_singleton in Hlo. subst lo.
      exists mx. split; [apply elem_of_app; right; left|]. apply Hday; reflexivity.
    + rewrite app_nil_r in Hlo. apply Hold, Hlo.
    + rewrite app_nil_r in Hlo. apply Hold, Hlo.
  - rewrite lookup_store_day_other in Hx, Hn by exact Hne.
    exact (Hb0 i mx' mn' Hx Hn lo Hlo).
Qed.

Lemma ordered_response_step p ad :
  ordered_response p -> wf ad /\ (forall i, extremes_ordered ad i) ->
  wf (process_chunk p ad) /\ forall i, extremes_ordered (process_chunk p ad) i.
Proof.
  intros Hc (Hwf & Hb). split; [apply wf_process_chunk, Hwf|].
  unfold process_chunk. destruct (T2M p) as [items|] eqn:ET; [|exact Hb].
  specialize (Hc items ET). clear ET. unfold process_items. revert ad Hwf Hb.
  induction items as [|[k v] items IH]; intros ad Hwf Hb; [exact Hb|].
  cbn [foldl].
  apply IH; [intros k' v' Hin; apply (Hc k' v'); right; exact Hin
            |apply wf_process_day, Hwf|].
  apply extremes_step; [exact Hwf|exact Hb|apply (Hc k v); left].
Qed.

(** X4.  When every day the service returns with a maximum and a minimum
    temperature has its minimum at or below its maximum, every record the
    function emits or returns has [Min_Temp_C <= Max_Temp_C], whatever
    variables other days lack. *)
Theorem ordered_days_order_extremes api other lat lon start_year end_year state_name w :
  (forall w' r p, api w' r = Some p -> ordered_response p) ->
  let ad := cs_data (chunk_loop api lat lon start_year end_year w) in
  (forall rows row, monthly_data ad = Some rows -> row ∈ rows ->
     Monthly.Min_Temp_C row <= Monthly.Max_Temp_C row)
  /\ (forall w' df row,
        download_nasa_power_data api other lat lon start_year end_year state_name w
        = (Returned (Some df), w') -> row ∈ df ->
        Monthly.Min_Temp_C row <= Monthly.Max_Temp_C row).
Proof.
  intros Hapi ad.
  assert (H : wf ad /\ forall i, extremes_ordered ad i).
  { apply (chunk_loop_invariant (fun a => wf a /\ forall i, extremes_ordered a i)).
    - split; [apply wf_init|]. intros i mx mn Hx. simpl in Hx.
      rewrite lookup_nil in Hx. discriminate Hx.
    - intros p a w' r Hp Ha. apply ordered_response_step; [|exact Ha].
      eapply Hapi, Hp. }
  destruct H as [Hwf Hb].
  assert (Hrows : forall rows row, monthly_data ad = Some rows -> row ∈ rows ->
            Monthly.Min_Temp_C row <= Monthly.Max_Temp_C row).
  { intros rows row H Hrow.
    destruct (emitted_row_values _ _ _ H Hrow)
      as (i & a & avg & x & mx & n & mn & r & rain & h & hum & Hi & _ & E2 & E3 & _ & _
          & _ & V2 & V3 & _).
    pose proof (Hb i _ _ E2 E3) as Hbi.
    destruct (np_max_is_maximum x mx) as [_ Hmax].
    destruct (np_min_is_minimum n mn) as [(lo & Hlo & Elo) _].
    destruct (Hbi lo Hlo) as (hi & Hhi & Hle). specialize (Hmax hi Hhi).
    rewrite V2, V3. apply round_mono. lra. }
  split; [exact Hrows|].
  intros w' df row H Hrow. unfold download_nasa_power_data in H.
  injection H as H _. fold ad in H.
  destruct (aggregate_rows _ _ _ _ H Hrow) as (rows & r & date & Hr & Hin & _ & ->).
  exact (Hrows rows r Hr Hin).
Qed.

Lemma ordered_response_january : ordered_response january_2020.
Proof.
  intros items H k v Hin. injection H as <-.
  repeat (apply elem_of_cons in Hin as [Hin|Hin];
          [injection Hin as -> ->; intros mx mn Hx Hn; vm_compute in Hx, Hn;
           injection Hx as <-; injection Hn as <-; vm_compute; discriminate|]).
  inversion Hin.
Qed.

Lemma ordered_days_order_extremes_witness :
  exists df w',
    download_nasa_power_data api_january no_other 10.52 7.44 2020 2020 "Kaduna" []
    = (Returned (Some df), w')
    /\ Forall (fun row => Monthly.Min_Temp_C row <= Monthly.Max_Temp_C row) df.
Proof.
  destruct (download_nasa_power_data api_january no_other 10.52 7.44 2020 2020 "Kaduna" [])
    as [[[df|]|] w'] eqn:E.
  - exists df, w'. split; [reflexivity|]. apply Forall_forall. intros row Hrow.
    refine (proj2 (ordered_days_order_extremes api_january no_other 10.52 7.44 2020 2020
                     "Kaduna" [] _) w' df row E Hrow).
    intros w0 r p H. injection H as <-. apply ordered_response_january.
  - vm_compute in E. discriminate E.
  - vm_compute in E. discriminate E.
Defined.

(** ** Chunk boundaries and buckets *)

Lemma index_absent k l : k ∉ l -> index k l = None.
Proof.
  induction l as [|x l IH]; intros H; [reflexivity|].
  cbn [index]. destruct (String.eqb x k) eqn:E.
  - apply String.eqb_eq in E. subst. exfalso. apply H. left.
  - rewrite IH; [reflexivity|]. intros Hin. apply H. right. exact Hin.
Qed.

Lemma index_lookup k l i : NoDup l -> l !! i = Some k -> index k l = Some i.
Proof.
  intros Hnd Hi.
  destruct (index_elem_of k l (list_elem_of_lookup_2 _ _ _ Hi)) as (j & Hj & Hl).
  rewrite Hj. f_equal. eapply NoDup_lookup; eassumption.
Qed.

Lemma bucket_lookup c key ad i :
  wf ad -> dates ad !! i = Some key -> bucket c key ad = default [] (get_column c ad !! i).
Proof.
  intros (_ & Hnd & _) Hi. unfold bucket. rewrite (index_lookup _ _ _ Hnd Hi). reflexivity.
Qed.

Lemma bucket_absent c key ad : key ∉ dates ad -> bucket c key ad = [].
Proof. intros H. unfold bucket. rewrite (index_absent _ _ H). reflexivity. Qed.

Lemma get_column_new_month c key ad :
  get_column c (new_month key ad) = get_column c ad ++ [[]].
Proof. destruct c; reflexivity. Qed.

(** A new month starts with empty buckets. *)
Lemma bucket_ensure_month c key key' ad :
  wf ad -> is_Some (key_date key') ->
  bucket c key (ensure_month key' ad) = bucket c key ad.
Proof.
  intros Hwf Hk. unfold ensure_month. case_bool_decide as Hin; [reflexivity|].
  pose proof (wf_new_month key' ad Hwf Hin Hk) as Hwf'.
  destruct Hwf as (Hlen & Hnd & Hdt).
  destruct (decide (key ∈ dates ad)) as [Hkey|Hkey].
  - apply list_elem_of_lookup_1 in Hkey as [i Hi].
    rewrite (bucket_lookup c key (new_month key' ad) i Hwf')
      by (cbn [new_month dates]; apply lookup_app_l_Some, Hi).
    rewrite (bucket_lookup c key ad i) by (repeat split; assumption).
    rewrite get_column_new_month, lookup_app_l; [reflexivity|].
    rewrite Hlen. eapply lookup_lt_Some, Hi.
  - rewrite (bucket_absent c key ad Hkey).
    destruct (decide (key = key')) as [->|Hne].
    + rewrite (bucket_lookup c key' (new_month key' ad) (length (dates ad)) Hwf').
      * rewrite get_column_new_month, <- (Hlen c), list_lookup_middle by reflexivity.
        reflexivity.
      * cbn [new_month dates]. apply list_lookup_middle. reflexivity.
    + apply bucket_absent. cbn [new_month dates]. rewrite elem_of_app, list_elem_of_singleton.
      tauto.
Qed.

Lemma wf_store_day p k v idx ad : wf ad -> wf (store_day p k v idx ad).
Proof.
  unfold store_day. generalize (available (day_values p k v)). intros l. revert ad.
  induction l as [|[c0 v0] l IH]; intros ad H; [exact H|].
  cbn [foldl fst snd]. apply IH, wf_append_value, H.
Qed.

(** A stored day reaches the bucket of its month and no other. *)
Lemma bucket_store_day c key p k v idx key' ad :
  wf ad -> dates ad !! idx = Some key' ->
  bucket c key (store_day p k v idx ad)
  = bucket c key ad ++ (if String.eqb key' key then stored p k v c else []).
Proof.
  intros Hwf Hidx. pose proof (wf_store_day p k v idx ad Hwf) as Hwf'.
  destruct (String.eqb key' key) eqn:E.
  - apply String.eqb_eq in E. subst key'.
    rewrite (bucket_lookup c key _ idx Hwf') by (rewrite dates_store_day; exact Hidx).
    rewrite (bucket_lookup c key ad idx Hwf Hidx), lookup_store_day.
    destruct (lookup_column_wf c ad idx key Hwf Hidx) as [b Hb]. rewrite Hb. reflexivity.
  - apply String.eqb_neq in E. rewrite app_nil_r.
    destruct (decide (key ∈ dates ad)) as [Hkey|Hkey].
    + apply list_elem_of_lookup_1 in Hkey as [i Hi].
      assert (Hne : i <> idx) by (intros ->; congruence).
      rewrite (bucket_lookup c key _ i Hwf') by (rewrite dates_store_day; exact Hi).
      rewrite (bucket_lookup c key ad i Hwf Hi), lookup_store_day_other by exact Hne.
      reflexivity.
    + rewrite !bucket_absent; [reflexivity|exact Hkey|rewrite dates_store_day; exact Hkey].
Qed.

Lemma parse_day_month k y m d :
  parse_day k = Some (y, m, d) -> (1 <= y <= 9999)%Z /\ (1 <= m <= 12)%Z.
Proof.
  unfold parse_day.
  destruct (int (substring 0 4 k)) as [y'|]; [|discriminate].
  destruct (int (substring 4 2 k)) as [m'|]; [|discriminate].
  destruct (int (substring 6 2 k)) as [d'|]; [|discriminate].
  cbn [mbind option_bind]. intros H.
  pose proof (datetime_value _ _ _ _ H) as [= <- <- <-].
  eapply datetime_Some, H.
Qed.

(** A day reaches the bucket of its month, whatever response it came in. *)
Lemma bucket_process_day c key p ad item :
  wf ad ->
  bucket c key (process_day p ad item) = bucket c key ad ++ day_contribution p c key item.
Proof.
  intros Hwf. destruct item as [k v].
  pose proof (day_step_spec p ad k v Hwf) as H. unfold day_contribution. cbn [fst snd].
  destruct (parse_day k) as [[[y m] d]|] eqn:Ep; [|rewrite H, app_nil_r; reflexivity].
  destruct H as (idx & Hidx & ->). apply index_Some in Hidx.
  destruct (parse_day_month _ _ _ _ Ep) as [Hy Hm].
  assert (Hk : is_Some (key_date (month_key y m)))
    by (rewrite key_date_month_key by assumption; eauto).
  rewrite (bucket_store_day c key p k v idx (month_key y m))
    by (try apply wf_ensure_month; assumption).
  rewrite bucket_ensure_month by assumption. reflexivity.
Qed.

Lemma bucket_process_items c key p items : forall ad,
  wf ad ->
  bucket c key (process_items p items ad)
  = bucket c key ad ++ concat (day_contribution p c key <$> items).
Proof.
  unfold process_items. induction items as [|item items IH]; intros ad Hwf.
  - cbn. rewrite app_nil_r. reflexivity.
  - cbn [foldl fmap list_fmap concat].
    rewrite IH by (apply wf_process_day, Hwf).
    rewrite bucket_process_day by exact Hwf. rewrite app_assoc. reflexivity.
Qed.

Lemma bucket_process_chunk c key p ad :
  wf ad -> bucket c key (process_chunk p ad) = bucket c key ad ++ contribution p c key.
Proof.
  intros Hwf. unfold process_chunk, contribution.
  destruct (T2M p) as [items|]; [apply bucket_process_items, Hwf|].
  cbn. rewrite app_nil_r. reflexivity.
Qed.

Lemma wf_chunks chunks : forall ad,
  wf ad -> wf (foldl (fun ad c => process_chunk c ad) ad chunks).
Proof.
  induction chunks as [|q chunks IH]; intros ad H; [exact H|].
  cbn [foldl]. apply IH, wf_process_chunk, H.
Qed.

Lemma bucket_chunks c key chunks : forall ad,
  wf ad ->
  bucket c key (foldl (fun ad c => process_chunk c ad) ad chunks)
  = bucket c key ad ++ concat ((fun q => contribution q c key) <$> chunks).
Proof.
  induction chunks as [|q chunks IH]; intros ad Hwf.
  - cbn. rewrite app_nil_r. reflexivity.
  - cbn [foldl fmap list_fmap concat].
    rewrite IH by (apply wf_process_chunk, Hwf).
    rewrite bucket_process_chunk by exact Hwf. rewrite app_assoc. reflexivity.
Qed.

(** A month is complete when none of its five buckets is empty. *)
Lemma complete_month_bucket ad key :
  wf ad -> (complete_month ad key <-> forall c, bucket c key ad <> []).
Proof.
  intros Hwf. split.
  - intros (i & Hi & Hc) c. rewrite (bucket_lookup c key ad i Hwf Hi).
    destruct (Hc c) as (x & xs & ->). discriminate.
  - intros H. destruct (decide (key ∈ dates ad)) as [Hkey|Hkey].
    + apply list_elem_of_lookup_1 in Hkey as [i Hi]. exists i. split; [exact Hi|].
      intros c. specialize (H c). rewrite (bucket_lookup c key ad i Hwf Hi) in H.
      destruct (get_column c ad !! i) as [[|x xs]|]; [destruct (H eq_refl)|eauto|].
      destruct (H eq_refl).
    + destruct (H Temps_avg). apply bucket_absent, Hkey.
Qed.

(** With a service whose answer depends on the request only, the chunk
    loop ends with the fold of [process_chunk] over the answers to the
    requests of the sub-ranges, in order. *)
Lemma chunk_loop_stateless answer lat lon start_year end_year w :
  cs_data (chunk_loop (fun _ r => answer r) lat lon start_year end_year w)
  = foldl (fun ad c => process_chunk c ad) all_data_init
      (omap (fun y => answer (chunk_request lat lon end_year y))
         (range start_year (end_year + 1) chunk_size)).
Proof.
  unfold chunk_loop.
  change all_data_init
    with (cs_data {| cs_data := all_data_init; all_chunks_successful := true;
                     cs_world := w |}) at 2.
  generalize {| cs_data := all_data_init; all_chunks_successful := true; cs_world := w |}.
  induction (range start_year (end_year + 1) chunk_size) as [|y l IH]; intros st;
    [reflexivity|].
  cbn [foldl]. rewrite IH.
  assert (Hstep : cs_data (chunk_step (fun _ r => answer r) lat lon end_year st y)
                  = match answer (chunk_request lat lon end_year y) with
                    | Some data => process_chunk data (cs_data st)
                    | None => cs_data st
                    end).
  { unfold chunk_step.
    pose proof (attempts_closed_form (fun _ r => answer r) lat lon (str y +:+ "0101")
                  (str (Z.min (y + chunk_size - 1) end_year) +:+ "1231") (cs_world st)) as H.
    cbv zeta in H. rewrite H. clear H. fold (chunk_request lat lon end_year y).
    destruct (answer (chunk_request lat lon end_year y)) as [data|]; reflexivity. }
  rewrite Hstep. cbn [omap list_omap].
  destruct (answer (chunk_request lat lon end_year y)) as [data|]; reflexivity.
Qed.

(** C9.  Let the response [p] carry, in the same order, the days that the
    responses [chunks] of consecutive sub-ranges carry.  Processing the
    chunks one after the other into an accumulator leaves it as processing
    [p] does.  Every bucket then holds what it held before, followed by
    what each chunk adds to it, in the order of the chunks: the days of a
    later chunk reach the bucket of their month, which an earlier chunk may
    have started.  The aggregation has the same outcome, and a month of
    pandas' calendar whose five buckets are filled, by one chunk or by
    several, has its record in the returned frame.  A fetcher whose service
    answers the requests of the sub-ranges with [chunks] returns what the
    aggregation of [p] alone returns. *)
Theorem chunking_independent other p chunks :
  splits_into p chunks ->
  (forall ad,
     wf ad ->
     let split := foldl (fun ad c => process_chunk c ad) ad chunks in
     split = process_chunk p ad
     /\ (forall c key,
           bucket c key split
           = bucket c key ad ++ concat ((fun q => contribution q c key) <$> chunks))
     /\ aggregate other split = aggregate other (process_chunk p ad)
     /\ (timestamped split ->
         forall key, (forall c, bucket c key split <> []) ->
         exists df row,
           aggregate other split = Returned (Some df)
           /\ row ∈ df /\ Monthly.Date row = key))
  /\ (forall answer lat lon start_year end_year state_name w,
        omap (fun y => answer (chunk_request lat lon end_year y))
          (range start_year (end_year + 1) chunk_size) = chunks ->
        (download_nasa_power_data (fun _ r => answer r) other lat lon
           start_year end_year state_name w).1
        = aggregate other (process_chunk p all_data_init)).
Proof.
  intros (itemss & HT & HF).
  assert (E : forall ad, foldl (fun ad c => process_chunk c ad) ad chunks
                         = process_chunk p ad).
  { intros ad. unfold process_chunk at 2. rewrite HT. clear HT. revert ad.
    induction HF as [|c items chunks itemss [Hc Hsame] HF IH]; intros ad;
      [reflexivity|].
    cbn [foldl concat]. rewrite process_items_app, IH.
    f_equal. unfold process_chunk. rewrite Hc.
    apply process_items_same_day. intros k v Hin.
    apply same_day_sym, (Hsame k v Hin). }
  split.
  - intros ad Hwf split. split; [apply E|].
    split; [intros c key; apply bucket_chunks, Hwf|].
    split; [unfold split; rewrite E; reflexivity|].
    intros Ht key Hkey. pose proof (wf_chunks chunks ad Hwf) as Hwf'. fold split in Hwf'.
    apply (complete_month_bucket split key Hwf') in Hkey.
    destruct (monthly_data_total split Hwf') as [rows Hrows].
    pose proof (proj2 (monthly_data_dates _ _ Hrows key) Hkey) as Hin.
    destruct rows as [|r rows]; [inversion Hin|].
    destruct (aggregate_total other split r rows Ht Hrows) as (df & Hdf & Hperm).
    rewrite <- Hperm in Hin. apply list_elem_of_fmap in Hin as (row & -> & Hrow).
    exists df, row. auto.
  - intros answer lat lon start_year end_year state_name w Hans.
    unfold download_nasa_power_data. cbn [fst].
    rewrite chunk_loop_stateless, Hans, E. reflexivity.
Qed.

Lemma chunking_independent_witness :
  (download_nasa_power_data (fun _ r => answer_split r) no_other 10.52 7.44
     2020 2023 "Kaduna" []).1
  = aggregate no_other (process_chunk single_chunk all_data_init)
  /\ bucket Temps_avg "2020-01-01"
       (foldl (fun ad c => process_chunk c ad) all_data_init [first_chunk; second_chunk])
     = contribution first_chunk Temps_avg "2020-01-01"
       ++ contribution second_chunk Temps_avg "2020-01-01"
  /\ contribution first_chunk Temps_avg "2020-01-01" = [30; 32]
  /\ contribution second_chunk Temps_avg "2020-01-01" = [34].
Proof.
  assert (H : splits_into single_chunk [first_chunk; second_chunk]).
  { exists [[("20200101"%string, 30); ("20200102"%string, 32)];
            [("20200103"%string, 34); ("20200201"%string, 31)]].
    split; [reflexivity|].
    constructor; [|constructor; [|constructor]];
      (split; [reflexivity|]); intros k v Hin;
      repeat (apply elem_of_cons in Hin as [Hin|Hin];
              [injection Hin as -> ->; vm_compute; repeat split|]);
      inversion Hin. }
  destruct (chunking_independent no_other single_chunk [first_chunk; second_chunk] H)
    as [Hacc Hrun].
  split; [apply Hrun; vm_compute; reflexivity|].
  destruct (Hacc all_data_init wf_init) as (_ & Hb & _).
  split; [rewrite Hb; cbn [fmap list_fmap concat]; rewrite app_nil_r; reflexivity|].
  split; vm_compute; reflexivity.
Defined.

Example chunking_example other :
  aggregate other (foldl (fun ad c => process_chunk c ad) all_data_init
                     [first_chunk; second_chunk])
  = Returned (Some
      [ {| Monthly.Date := "2020-01-01"; Monthly.Avg_Temp_C := round 32 2;
           Monthly.Max_Temp_C := round 37 2; Monthly.Min_Temp_C := round 25 2;
           Monthly.Rainfall_mm := round 3.5 1;
           Monthly.Humidity_Percent := round 62 1 |};
        {| Monthly.Date := "2020-02-01"; Monthly.Avg_Temp_C := round 31 2;
           Monthly.Max_Temp_C := round 33 2; Monthly.Min_Temp_C := round 28 2;
           Monthly.Rainfall_mm := round 4 1;
           Monthly.Humidity_Percent := round 55 1 |} ]).
Proof. vm_compute. reflexivity. Qed.

(** ** The returned frame *)

Lemma date_leb_total a b : date_leb a b = false -> date_leb b a = true.
Proof.
  destruct a as [[y1 m1] d1], b as [[y2 m2] d2]. unfold date_leb. intros H.
  destruct (Z.ltb_spec y1 y2), (Z.eqb_spec y1 y2), (Z.ltb_spec m1 m2),
    (Z.eqb_spec m1 m2), (Z.leb_spec d1 d2); simpl in H; try discriminate H;
    destruct (Z.ltb_spec y2 y1), (Z.eqb_spec y2 y1), (Z.ltb_spec m2 m1),
      (Z.eqb_spec m2 m1), (Z.leb_spec d2 d1); simpl; try reflexivity; lia.
Qed.

Lemma ascending_insert_sorted {A} (x : (Z * Z * Z) * A) l :
  ascending l.*1 -> ascending (insert_sorted x l).*1.
Proof.
  induction l as [|y l IH]; intros H; [exact I|].
  cbn [insert_sorted]. destruct (date_leb x.1 y.1) eqn:E.
  - cbn [fmap list_fmap ascending]. split; [exact E|exact H].
  - apply date_leb_total in E.
    destruct l as [|z l].
    + cbn [insert_sorted fmap list_fmap ascending]. auto.
    + cbn [fmap list_fmap ascending] in H. destruct H as [Hyz Hasc].
      specialize (IH Hasc). cbn [insert_sorted] in IH |- *.
      destruct (date_leb x.1 z.1) eqn:Ez;
        cbn [fmap list_fmap ascending] in IH |- *; auto.
Qed.

Lemma ascending_sort_values {A} (l : list ((Z * Z * Z) * A)) :
  ascending (sort_values l).*1.
Proof.
  induction l as [|x l IH]; [exact I|]. cbn [sort_values foldr].
  apply ascending_insert_sorted, IH.
Qed.

Lemma mapM_pairs {A} (f : A -> option (Z * Z * Z)) (l : list ((Z * Z * Z) * A)) :
  Forall (fun kr => f kr.2 = Some kr.1) l -> mapM f l.*2 = Some l.*1.
Proof.
  intros H. apply mapM_Some_2. induction H as [|[k r] l Hx Hl IH]; constructor; auto.
Qed.

(** X5.  The frame [download_nasa_power_data] returns is in ascending
    order of date, whatever the order in which the months were met and
    whatever pandas made of the month keys; each of its rows is an emitted
    record, with the date as printed by line 355.  When the months met are
    months of pandas' calendar, the frame holds the emitted records
    themselves, each once. *)
Theorem returned_frame_sorted other ad df :
  aggregate other ad = Returned (Some df) ->
  (exists when,
     mapM (fun r => to_datetime (Monthly.Date r)) df = Some when /\ ascending when)
  /\ (exists rows,
        monthly_data ad = Some rows
        /\ forall row, row ∈ df -> exists r, r ∈ rows /\ row = with_date (Monthly.Date row) r)
  /\ (timestamped ad -> exists rows, monthly_data ad = Some rows /\ df ≡ₚ rows).
Proof.
  intros H. split; [|split].
  - destruct (aggregate_returns _ _ _ H) as (rows & when & Hr & Hw & ->).
    exists (sort_values (zip when rows)).*1. split; [|apply ascending_sort_values].
    apply mapM_Some_2, Forall2_fmap, Forall_Forall2_diag.
    destruct (pd_to_datetime_timestamps _ _ _ Hw) as [_ Ht].
    apply Forall_forall. intros [d r] Hin. cbn.
    apply to_datetime_strftime. rewrite sort_values_perm in Hin.
    rewrite Forall_forall in Ht. apply Ht. eapply elem_of_zip_l, Hin.
  - destruct (aggregate_returns _ _ _ H) as (rows & when & Hr & Hw & E).
    exists rows. split; [exact Hr|]. intros row Hrow.
    destruct (aggregate_rows _ _ _ _ H Hrow) as (rows' & r & date & Hr' & Hin & _ & ->).
    rewrite Hr in Hr'. injection Hr' as <-. exists r. split; [exact Hin|reflexivity].
  - intros Ht. apply (aggregate_timestamped _ _ _ Ht H).
Qed.

Lemma timestamped_february_first :
  timestamped (process_chunk february_first all_data_init).
Proof.
  assert (E : dates (process_chunk february_first all_data_init)
              = ["2020-02-01"; "2020-01-01"]%string) by (vm_compute; reflexivity).
  unfold timestamped. rewrite E.
  constructor; [eexists; vm_compute; reflexivity|].
  constructor; [eexists; vm_compute; reflexivity|constructor].
Qed.

Lemma returned_frame_sorted_witness :
  dates (process_chunk february_first all_data_init)
  = ["2020-02-01"; "2020-01-01"]%string
  /\ exists df,
       aggregate no_other (process_chunk february_first all_data_init)
       = Returned (Some df)
       /\ Monthly.Date <$> df = ["2020-01-01"; "2020-02-01"]%string
       /\ (exists when,
             mapM (fun r => to_datetime (Monthly.Date r)) df = Some when
             /\ ascending when)
       /\ exists rows,
            monthly_data (process_chunk february_first all_data_init) = Some rows
            /\ df ≡ₚ rows.
Proof.
  split; [vm_compute; reflexivity|].
  eexists. split; [vm_compute; reflexivity|]. split; [reflexivity|].
  match goal with
  | |- (exists when, mapM _ ?df = _ /\ _) /\ _ =>
      destruct (returned_frame_sorted no_other
                  (process_chunk february_first all_data_init) df
                  ltac:(vm_compute; reflexivity)) as (H1 & _ & H3)
  end.
  split; [exact H1|exact (H3 timestamped_february_first)].
Defined.

Lemma aggregate_cases other ad :
  wf ad ->
  (dates ad = [] /\ aggregate other ad = Returned None)
  \/ (dates ad <> [] /\ monthly_data ad = Some [] /\ aggregate other ad = Raised)
  \/ (dates ad <> []
      /\ exists r rows,
           monthly_data ad = Some (r :: rows)
           /\ (aggregate other ad = Raised
               \/ exists row df, aggregate other ad = Returned (Some (row :: df)))).
Proof.
  intros Hwf. destruct (monthly_data_total ad Hwf) as [rows Hrows].
  unfold aggregate. rewrite Hrows.
  destruct (dates ad) as [|k ks]; [left; auto|].
  right. destruct rows as [|r rows]; [left; split; [discriminate|split; reflexivity]|].
  right. split; [discriminate|]. exists r, rows. split; [reflexivity|].
  destruct (pd_to_datetime other _) as [when|] eqn:Ew; [|left; reflexivity].
  right. destruct (pd_to_datetime_timestamps _ _ _ Ew) as [Hlen _].
  rewrite length_fmap in Hlen.
  destruct ((fun kr => with_date (strftime kr.1) kr.2)
              <$> sort_values (zip when (r :: rows))) as [|row df] eqn:E.
  - exfalso. apply (f_equal length) in E.
    rewrite length_fmap, (Permutation_length (sort_values_perm _)) in E.
    destruct when; [discriminate Hlen|discriminate E].
  - exists row, df. reflexivity.
Qed.

(** X6.  On the accumulator of a location the last part of the function
    returns [None] exactly when no month was met; it raises (the
    [KeyError] of [df['Date']] on a frame without columns) when months were
    met and none is complete; it returns a frame only when some month is
    complete, and the frame is then not empty: the test of line 359 never
    fails.  When the months met are months of pandas' calendar these are
    the three outcomes: it raises only when no month is complete and
    returns a frame whenever one is. *)
Theorem aggregate_outcomes other ad :
  wf ad ->
  (aggregate other ad = Returned None <-> dates ad = [])
  /\ (dates ad <> [] -> (forall k, ~ complete_month ad k) -> aggregate other ad = Raised)
  /\ ((exists df, aggregate other ad = Returned (Some df)) -> exists k, complete_month ad k)
  /\ aggregate other ad <> Returned (Some [])
  /\ (timestamped ad ->
      (aggregate other ad = Raised -> dates ad <> [] /\ forall k, ~ complete_month ad k)
      /\ ((exists k, complete_month ad k) ->
          exists df, aggregate other ad = Returned (Some df))).
Proof.
  intros Hwf.
  assert (Hd : forall rows, monthly_data ad = Some rows ->
                 forall k, k ∈ Monthly.Date <$> rows <-> complete_month ad k)
    by (intros rows; apply monthly_data_dates).
  destruct (aggregate_cases other ad Hwf)
    as [[E H]|[(Hne & Hrows & H)|(Hne & r & rows & Hrows & H)]].
  - split; [split; [intros _; exact E|intros _; exact H]|].
    split; [intros Hne; contradiction|].
    split; [intros [df Hdf]; rewrite H in Hdf; discriminate Hdf|].
    split; [rewrite H; discriminate|]. intros _.
    split; [intros HR; rewrite H in HR; discriminate HR|].
    intros [k (i & Hi & _)]. rewrite E in Hi. rewrite lookup_nil in Hi. discriminate Hi.
  - assert (Hnone : forall k, ~ complete_month ad k).
    { intros k Hk. apply (Hd _ Hrows) in Hk. inversion Hk. }
    split; [split; [intros HR; rewrite H in HR; discriminate HR|intros E; contradiction]|].
    split; [intros _ _; exact H|].
    split; [intros [df Hdf]; rewrite H in Hdf; discriminate Hdf|].
    split; [rewrite H; discriminate|]. intros _.
    split; [intros _; split; assumption|].
    intros [k Hk]. destruct (Hnone k Hk).
  - assert (Hsome : exists k, complete_month ad k).
    { exists (Monthly.Date r). apply (Hd _ Hrows). left. }
    split.
    { split; [|intros E; contradiction].
      intros HR. destruct H as [H|(row & df & H)]; rewrite H in HR; discriminate HR. }
    split.
    { intros _ Hno. destruct Hsome as [k Hk]. destruct (Hno k Hk). }
    split; [intros _; exact Hsome|].
    split.
    { destruct H as [H|(row & df & H)]; rewrite H; discriminate. }
    intros Ht. destruct (aggregate_total other ad r rows Ht Hrows) as (df & Hdf & _).
    split; [intros HR; rewrite Hdf in HR; discriminate HR|].
    intros _. exists df. exact Hdf.
Qed.

Lemma aggregate_outcomes_witness :
  aggregate no_other (process_chunk averages_only all_data_init) = Raised.
Proof.
  apply (proj1 (proj2 (aggregate_outcomes no_other
                         (process_chunk averages_only all_data_init)
                         (wf_process_chunk _ _ wf_init)))).
  - vm_compute. discriminate.
  - intros k (i & Hi & Hc). destruct (Hc Temps_max) as (x & xs & Hx).
    assert (E : get_column Temps_max (process_chunk averages_only all_data_init) = [[]])
      by (vm_compute; reflexivity).
    rewrite E in Hx. destruct i as [|i]; [discriminate Hx|].
    simpl in Hx. rewrite lookup_nil in Hx. discriminate Hx.
Defined.

(** ** The sub-ranges of the window *)

Lemma elem_of_range_from n : forall s step x,
  x ∈ range_from n s step
  <-> exists k, (k < n)%nat /\ x = (s + Z.of_nat k * step)%Z.
Proof.
  induction n as [|n IH]; intros s step x.
  - split; [intros H; inversion H|intros (k & Hk & _); lia].
  - cbn [range_from]. rewrite elem_of_cons, IH. split.
    + intros [->|(k & Hk & ->)].
      * exists 0%nat. split; lia.
      * exists (S k). split; lia.
    + intros (k & Hk & ->). destruct k as [|k].
      * left. lia.
      * right. exists k. split; lia.
Qed.

(** X7.  The sub-ranges [year_start .. min(year_start + 1, end_year)] that
    the chunk loop requests lie inside the window, hold one or two years,
    and every year of the window lies in exactly one of them. *)
Theorem sub_ranges_partition_window start_year end_year :
  (forall year_start,
     year_start ∈ range start_year (end_year + 1) chunk_size ->
     let year_end := Z.min (year_start + chunk_size - 1) end_year in
     (start_year <= year_start <= year_end)%Z /\ (year_end <= end_year)%Z
     /\ (year_end <= year_start + 1)%Z)
  /\ (forall y, (start_year <= y <= end_year)%Z ->
      exists year_start,
        year_start ∈ range start_year (end_year + 1) chunk_size
        /\ (year_start <= y <= Z.min (year_start + chunk_size - 1) end_year)%Z
        /\ forall other,
             other ∈ range start_year (end_year + 1) chunk_size ->
             (other <= y <= Z.min (other + chunk_size - 1) end_year)%Z ->
             other = year_start).
Proof.
  unfold range, chunk_size. split.
  - intros ys Hin. apply elem_of_range_from in Hin as (k & Hk & ->).
    assert (0 <= (end_year + 1 - start_year + 2 - 1) / 2)%Z
      by (destruct (Z.le_gt_cases 0 ((end_year + 1 - start_year + 2 - 1) / 2)); lia).
    assert (Z.of_nat k < (end_year + 1 - start_year + 2 - 1) / 2)%Z by lia.
    pose proof (Z.mul_div_le (end_year + 1 - start_year + 2 - 1) 2 ltac:(lia)).
    cbv zeta. lia.
  - intros y Hy.
    pose proof (Z.div_mod (y - start_year) 2 ltac:(lia)) as Hdm.
    pose proof (Z.mod_pos_bound (y - start_year) 2 ltac:(lia)) as Hmod.
    assert (Hq : (0 <= (y - start_year) / 2)%Z) by (apply Z.div_pos; lia).
    exists (start_year + Z.of_nat (Z.to_nat ((y - start_year) / 2)) * 2)%Z.
    rewrite Z2Nat.id by exact Hq. split; [|split; [lia|]].
    + apply elem_of_range_from. exists (Z.to_nat ((y - start_year) / 2)).
      rewrite Z2Nat.id by exact Hq. split; [|reflexivity].
      assert ((y - start_year) / 2 < (end_year + 1 - start_year + 2 - 1) / 2)%Z.
      { apply Z.div_lt_upper_bound; [lia|].
        pose proof (Z.div_mod (end_year + 1 - start_year + 2 - 1) 2 ltac:(lia)).
        pose proof (Z.mod_pos_bound (end_year + 1 - start_year + 2 - 1) 2 ltac:(lia)).
        lia. }
      lia.
    + intros other Hin Hother. apply elem_of_range_from in Hin as (k & Hk & ->).
      assert (Z.of_nat k = (y - start_year) / 2)%Z; [|lia].
      apply Z.div_unique with (r := (y - start_year - 2 * Z.of_nat k)%Z); lia.
Qed.

(** ** Requests of a location *)

Lemma gets_app w1 w2 : gets (w1 ++ w2) = (gets w1 + gets w2)%nat.
Proof. unfold gets. rewrite List.filter_app, length_app. reflexivity. Qed.

Lemma writes_app w1 w2 :
  existsb writes_file (w1 ++ w2) = existsb writes_file w1 || existsb writes_file w2.
Proof. apply existsb_app. Qed.

(** One iteration of the chunk loop extends the log by one to three
    requests and writes no file. *)
Lemma chunk_step_log api lat lon end_year st y :
  exists ev,
    cs_world (chunk_step api lat lon end_year st y) = cs_world st ++ ev
    /\ (1 <= gets ev <= 3)%nat /\ existsb writes_file ev = false.
Proof.
  unfold chunk_step.
  pose proof (attempts_closed_form api lat lon (str y +:+ "0101")
                (str (Z.min (y + chunk_size - 1) end_year) +:+ "1231") (cs_world st)) as H.
  cbv zeta in H. rewrite H. clear H.
  set (r := {| latitude := lat; longitude := lon; start := (str y +:+ "0101")%string;
               end_ := (str (Z.min (y + chunk_size - 1) end_year) +:+ "1231")%string |}).
  destruct (api (cs_world st) r) as [d0|].
  { exists [Get r; Sleep 1]. cbn [cs_world]. unfold sleep.
    rewrite <- app_assoc. split; [reflexivity|]. split; [unfold gets; simpl; lia|reflexivity]. }
  destruct (api (cs_world st ++ [Get r; Sleep 10]) r) as [d1|].
  { exists [Get r; Sleep 10; Get r; Sleep 1]. cbn [cs_world]. unfold sleep.
    rewrite <- !app_assoc. split; [reflexivity|]. split; [unfold gets; simpl; lia|reflexivity]. }
  destruct (api ((cs_world st ++ [Get r; Sleep 10]) ++ [Get r; Sleep 20]) r) as [d2|].
  { exists [Get r; Sleep 10; Get r; Sleep 20; Get r; Sleep 1]. cbn [cs_world]. unfold sleep.
    rewrite <- !app_assoc. split; [reflexivity|]. split; [unfold gets; simpl; lia|reflexivity]. }
  exists [Get r; Sleep 10; Get r; Sleep 20; Get r]. cbn [cs_world].
  rewrite <- !app_assoc. split; [reflexivity|]. split; [unfold gets; simpl; lia|reflexivity].
Qed.

Lemma chunk_fold_log api lat lon end_year l : forall st,
  exists ev,
    cs_world (foldl (chunk_step api lat lon end_year) st l) = cs_world st ++ ev
    /\ (length l <= gets ev <= 3 * length l)%nat /\ existsb writes_file ev = false.
Proof.
  induction l as [|y l IH]; intros st.
  - exists []. rewrite app_nil_r. split; [reflexivity|]. split; [unfold gets; simpl; lia|reflexivity].
  - cbn [foldl].
    destruct (chunk_step_log api lat lon end_year st y) as (ev1 & E1 & G1 & W1).
    destruct (IH (chunk_step api lat lon end_year st y)) as (ev2 & E2 & G2 & W2).
    exists (ev1 ++ ev2). rewrite E2, E1, <- app_assoc. split; [reflexivity|].
    rewrite gets_app, writes_app, W1, W2. simpl length. split; [lia|reflexivity].
Qed.

(** The events of one iteration of the chunk loop. *)
Lemma chunk_step_events api lat lon end_year st y :
  exists ev,
    cs_world (chunk_step api lat lon end_year st y) = cs_world st ++ ev
    /\ (1 <= gets ev <= 3)%nat
    /\ Forall (chunk_event (chunk_request lat lon end_year y)) ev.
Proof.
  unfold chunk_step.
  pose proof (attempts_closed_form api lat lon (str y +:+ "0101")
                (str (Z.min (y + chunk_size - 1) end_year) +:+ "1231") (cs_world st)) as H.
  cbv zeta in H. rewrite H. clear H.
  fold (chunk_request lat lon end_year y).
  set (r := chunk_request lat lon end_year y).
  destruct (api (cs_world st) r) as [d0|].
  { exists [Get r; Sleep 1]. cbn [cs_world]. unfold sleep.
    rewrite <- app_assoc. split; [reflexivity|].
    split; [unfold gets; simpl; lia|repeat constructor]. }
  destruct (api (cs_world st ++ [Get r; Sleep 10]) r) as [d1|].
  { exists [Get r; Sleep 10; Get r; Sleep 1]. cbn [cs_world]. unfold sleep.
    rewrite <- !app_assoc. split; [reflexivity|].
    split; [unfold gets; simpl; lia|repeat constructor]. }
  destruct (api ((cs_world st ++ [Get r; Sleep 10]) ++ [Get r; Sleep 20]) r) as [d2|].
  { exists [Get r; Sleep 10; Get r; Sleep 20; Get r; Sleep 1]. cbn [cs_world]. unfold sleep.
    rewrite <- !app_assoc. split; [reflexivity|].
    split; [unfold gets; simpl; lia|repeat constructor]. }
  exists [Get r; Sleep 10; Get r; Sleep 20; Get r]. cbn [cs_world].
  rewrite <- !app_assoc. split; [reflexivity|].
  split; [unfold gets; simpl; lia|repeat constructor].
Qed.

Lemma chunk_fold_events api lat lon end_year l : forall st,
  exists logs,
    cs_world (foldl (chunk_step api lat lon end_year) st l) = cs_world st ++ concat logs
    /\ Forall2 (fun year_start log =>
                  (1 <= gets log <= 3)%nat
                  /\ Forall (chunk_event (chunk_request lat lon end_year year_start)) log)
         l logs.
Proof.
  induction l as [|y l IH]; intros st.
  - exists []. cbn. rewrite app_nil_r. split; [reflexivity|constructor].
  - cbn [foldl].
    destruct (chunk_step_events api lat lon end_year st y) as (ev & E & G & F).
    destruct (IH (chunk_step api lat lon end_year st y)) as (logs & E2 & F2).
    exists (ev :: logs). cbn [concat]. rewrite E2, E, <- app_assoc.
    split; [reflexivity|]. constructor; [split; assumption|exact F2].
Qed.

(** X8.  A call of [download_nasa_power_data] only adds to the log.  What
    it adds is, in the order of the sub-ranges of the window, one run of
    events for each sub-range: at least one and at most three requests,
    each of them the request of that sub-range, with pauses between them
    and no file written. *)
Theorem requests_per_location api other lat lon start_year end_year state_name w :
  exists logs,
    (download_nasa_power_data api other lat lon start_year end_year state_name w).2
    = w ++ concat logs
    /\ Forall2 (fun year_start log =>
                  (1 <= gets log <= 3)%nat
                  /\ Forall (chunk_event (chunk_request lat lon end_year year_start)) log)
         (range start_year (end_year + 1) chunk_size) logs.
Proof.
  unfold download_nasa_power_data, chunk_loop. cbn [snd].
  apply (chunk_fold_events api lat lon end_year _
           {| cs_data := all_data_init; all_chunks_successful := true; cs_world := w |}).
Qed.

Lemma failed_fold api lat lon end_year l : forall st,
  (forall w r, api w r = None) ->
  foldl (chunk_step api lat lon end_year) st l
  = {| cs_data := cs_data st;
       all_chunks_successful :=
         match l with [] => all_chunks_successful st | _ :: _ => false end;
       cs_world :=
         cs_world st
         ++ concat ((fun y => failed_chunk_log (chunk_request lat lon end_year y)) <$> l) |}.
Proof.
  intros st Hdown. revert st. induction l as [|y l IH]; intros st.
  - cbn [foldl fmap list_fmap concat]. rewrite app_nil_r. destruct st; reflexivity.
  - cbn [foldl]. rewrite IH.
    assert (E : chunk_step api lat lon end_year st y
                = {| cs_data := cs_data st; all_chunks_successful := false;
                     cs_world := cs_world st
                                 ++ failed_chunk_log (chunk_request lat lon end_year y) |}).
    { unfold chunk_step.
      pose proof (attempts_closed_form api lat lon (str y +:+ "0101")
                    (str (Z.min (y + chunk_size - 1) end_year) +:+ "1231") (cs_world st)) as H.
      cbv zeta in H. rewrite H, !Hdown. unfold failed_chunk_log, chunk_request.
      rewrite <- !app_assoc. reflexivity. }
    rewrite E. cbn [cs_data cs_world all_chunks_successful fmap list_fmap concat].
    rewrite <- app_assoc. destruct l; reflexivity.
Qed.

(** X9.  When every request fails, [download_nasa_power_data] returns
    [None] for any location and window, after three requests for each
    sub-range with pauses of 10 and 20 seconds between them and no pause
    between sub-ranges. *)
Theorem service_down_returns_none api other lat lon start_year end_year state_name w :
  (forall w' r, api w' r = None) ->
  download_nasa_power_data api other lat lon start_year end_year state_name w
  = (Returned None,
     w ++ concat ((fun y => failed_chunk_log (chunk_request lat lon end_year y))
                    <$> range start_year (end_year + 1) chunk_size)).
Proof.
  intros Hdown. unfold download_nasa_power_data, chunk_loop.
  rewrite (failed_fold api lat lon end_year _ _ Hdown). reflexivity.
Qed.

Lemma service_down_returns_none_witness :
  download_nasa_power_data api_down no_other 10.52 7.44 2020 2022 "Kaduna" []
  = (Returned None,
     failed_chunk_log (chunk_request 10.52 7.44 2022 2020)
     ++ failed_chunk_log (chunk_request 10.52 7.44 2022 2022)).
Proof.
  rewrite (service_down_returns_none api_down no_other 10.52 7.44 2020 2022 "Kaduna" []
             (fun _ _ => eq_refl)).
  reflexivity.
Defined.

(** ** Bounds of the derived columns *)

Lemma clip_mono x y lo hi : lo <= hi -> x <= y -> clip x lo hi <= clip y lo hi.
Proof.
  intros Hlh Hxy. unfold clip.
  destruct (Qlt_le_dec x lo), (Qlt_le_dec y lo); try lra;
    destruct (Qlt_le_dec hi x), (Qlt_le_dec hi y); lra.
Qed.

(** Adding an integer to a rounded value gives a value with as many
    decimals. *)
Lemma round_shift x k n : round (round x n + inject_Z k) n == round x n + inject_Z k.
Proof.
  pose proof (pow10_pos n) as Hp.
  assert (E : round x n + inject_Z k
              == inject_Z (rint (x * inject_Z (10 ^ Z.of_nat n)) + k * 10 ^ Z.of_nat n)
                 / inject_Z (10 ^ Z.of_nat n)).
  { unfold round. rewrite inject_Z_plus, inject_Z_mult. field. lra. }
  rewrite (round_proper _ _ E n n eq_refl), round_decimal. symmetry. exact E.
Qed.

(** X10.  With draws between 10 and 20, the humidity band of a record lies
    10 to 20 points on each side of its average:
    [Avg - 20 <= Min <= Avg - 10] and [Avg + 10 <= Max <= Avg + 20].
    Nothing keeps the band inside [0, 100]. *)
Theorem humidity_band lo hi t :
  10 <= lo <= 20 -> 10 <= hi <= 20 ->
  let row := humidity_row lo hi t in
  Humid.Avg_Humidity_Percent row - 20 <= Humid.Min_Humidity_Percent row
  /\ Humid.Min_Humidity_Percent row <= Humid.Avg_Humidity_Percent row - 10
  /\ Humid.Avg_Humidity_Percent row + 10 <= Humid.Max_Humidity_Percent row
  /\ Humid.Max_Humidity_Percent row <= Humid.Avg_Humidity_Percent row + 20.
Proof.
  intros Hlo Hhi row. cbn [row humidity_row Humid.Avg_Humidity_Percent
                          Humid.Min_Humidity_Percent Humid.Max_Humidity_Percent].
  set (h := round (Monthly.Humidity_Percent (base t)) 1).
  pose proof (round_shift (Monthly.Humidity_Percent (base t)) (-20) 1) as E1.
  pose proof (round_shift (Monthly.Humidity_Percent (base t)) (-10) 1) as E2.
  pose proof (round_shift (Monthly.Humidity_Percent (base t)) 10 1) as E3.
  pose proof (round_shift (Monthly.Humidity_Percent (base t)) 20 1) as E4.
  fold h in E1, E2, E3, E4.
  change (inject_Z (-20)) with (-20) in E1. change (inject_Z (-10)) with (-10) in E2.
  change (inject_Z 10) with 10 in E3. change (inject_Z 20) with 20 in E4.
  assert (M1 : round (h + -20) 1 <= round (h - lo) 1) by (apply round_mono; lra).
  assert (M2 : round (h - lo) 1 <= round (h + -10) 1) by (apply round_mono; lra).
  assert (M3 : round (h + 10) 1 <= round (h + hi) 1) by (apply round_mono; lra).
  assert (M4 : round (h + hi) 1 <= round (h + 20) 1) by (apply round_mono; lra).
  rewrite E1 in M1. rewrite E2 in M2. rewrite E3 in M3. rewrite E4 in M4.
  repeat split; lra.
Qed.

Lemma humidity_band_witness :
  let row := humidity_row 15 15 {| base := monthly_row "2020-01-01" 0;
                                   tag_zone := "North-West"; tag_state := "Kano";
                                   tag_year := 2020; tag_month := 1 |} in
  Humid.Avg_Humidity_Percent row - 20 <= Humid.Min_Humidity_Percent row
  /\ Humid.Min_Humidity_Percent row <= Humid.Avg_Humidity_Percent row - 10
  /\ Humid.Avg_Humidity_Percent row + 10 <= Humid.Max_Humidity_Percent row
  /\ Humid.Max_Humidity_Percent row <= Humid.Avg_Humidity_Percent row + 20.
Proof.
  apply humidity_band; split; vm_compute; discriminate.
Defined.

(** X11.  In a temperature record, [Heat_Stress_Days] is 0 unless
    [Max_Temp_C] is above 35, where it is the draw, so it lies between 0 and
    9 for a draw of [randint(0, 10)]; [Cold_Stress_Days] is 0; and
    [Temp_Range_C] is not negative when the minimum is at most the
    maximum. *)
Theorem temperature_columns draw t :
  (0 <= draw < 10)%Z ->
  let row := temperature_row draw t in
  (0 <= Temp.Heat_Stress_Days row <= 9)%Z
  /\ (Temp.Max_Temp_C row <= 35 -> Temp.Heat_Stress_Days row = 0%Z)
  /\ (35 < Temp.Max_Temp_C row -> Temp.Heat_Stress_Days row = draw)
  /\ Temp.Cold_Stress_Days row = 0%Z
  /\ (Temp.Min_Temp_C row <= Temp.Max_Temp_C row -> 0 <= Temp.Temp_Range_C row).
Proof.
  intros Hd row. cbn [row temperature_row Temp.Heat_Stress_Days Temp.Max_Temp_C
                      Temp.Min_Temp_C Temp.Cold_Stress_Days Temp.Temp_Range_C].
  destruct (Qlt_le_dec 35 (Monthly.Max_Temp_C (base t))) as [Hgt|Hle].
  - split; [lia|]. split; [intros H; lra|]. split; [intros _; lia|].
    split; [reflexivity|]. intros H.
    rewrite <- (round_inject_Z 0 1). apply round_mono. change (inject_Z 0) with 0. lra.
  - split; [lia|]. split; [intros _; lia|]. split; [intros H; lra|].
    split; [reflexivity|]. intros H.
    rewrite <- (round_inject_Z 0 1). apply round_mono. change (inject_Z 0) with 0. lra.
Qed.

Lemma temperature_columns_witness :
  Temp.Heat_Stress_Days
    (temperature_row 3 {| base := monthly_row "2020-01-01" 0;
                          tag_zone := "North-West"; tag_state := "Kano";
                          tag_year := 2020; tag_month := 1 |}) = 0%Z.
Proof.
  refine (proj1 (proj2 (temperature_columns 3 _ _)) _).
  - lia.
  - vm_compute. discriminate.
Defined.

Lemma rain_mm_nonneg t : 0 <= Monthly.Rainfall_mm (base t) -> 0 <= rain_mm t.
Proof.
  intros H. unfold rain_mm. rewrite <- (round_inject_Z 0 1). apply round_mono.
  exact H.
Qed.

(** X12.  The estimates of a rainfall record.  [Rainy_Days] grows with the
    rainfall, is 0 up to 2.5 mm and 30 from 147.5 mm on.  For a rainfall
    that is not negative and a draw between 0 and 1,
    [Max_Daily_Rainfall_mm] lies between 0 and the rainfall of the month. *)
Theorem rainfall_estimates :
  (forall r1 r2, r1 <= r2 -> (rainy_days r1 <= rainy_days r2)%Z)
  /\ (forall r, r <= 2.5 -> rainy_days r = 0%Z)
  /\ (forall r, 147.5 <= r -> rainy_days r = 30%Z)
  /\ (forall df u t,
        0 <= Monthly.Rainfall_mm (base t) -> 0 <= u <= 1 ->
        0 <= Rain.Max_Daily_Rainfall_mm (rainfall_row df u t)
        /\ Rain.Max_Daily_Rainfall_mm (rainfall_row df u t)
           <= Rain.Rainfall_mm (rainfall_row df u t)).
Proof.
  assert (Hmono : forall r1 r2, r1 <= r2 -> (rainy_days r1 <= rainy_days r2)%Z).
  { intros r1 r2 H. unfold rainy_days. apply rint_mono, clip_mono.
    - unfold Qle; simpl; lia.
    - apply Qmult_le_compat_r; [exact H|]. unfold Qle; simpl; lia. }
  split; [exact Hmono|]. split; [|split].
  - intros r H. pose proof (rainy_days_bounds r). pose proof (Hmono r 2.5 H) as H1.
    change (rainy_days 2.5) with (rainy_days (5 # 2)) in H1.
    assert (E : rainy_days (5 # 2) = 0%Z) by (vm_compute; reflexivity).
    rewrite E in H1. lia.
  - intros r H. pose proof (rainy_days_bounds r). pose proof (Hmono 147.5 r H) as H1.
    assert (E : rainy_days 147.5 = 30%Z) by (vm_compute; reflexivity).
    rewrite E in H1. lia.
  - intros df u t Hr Hu. cbn [rainfall_row Rain.Max_Daily_Rainfall_mm Rain.Rainfall_mm].
    pose proof (rain_mm_nonneg t Hr) as H0. split.
    + rewrite <- (round_inject_Z 0 1). apply round_mono. change (inject_Z 0) with 0. nra.
    + assert (E : round (rain_mm t) 1 == rain_mm t) by (apply round_round; lia).
      rewrite <- E at 2. apply round_mono. nra.
Qed.

Lemma rainfall_estimates_witness :
  rainy_days 1 = 0%Z /\ rainy_days 200 = 30%Z.
Proof.
  split.
  - apply (proj1 (proj2 rainfall_estimates)). vm_compute. discriminate.
  - apply (proj1 (proj2 (proj2 rainfall_estimates))). vm_compute. discriminate.
Defined.

Lemma np_sum_nonneg l : (forall x, x ∈ l -> 0 <= x) -> 0 <= np_sum l.
Proof.
  induction l as [|a l IH]; intros H; [simpl; lra|].
  cbn [np_sum foldr]. fold (np_sum l).
  assert (0 <= a) by (apply H; left).
  assert (0 <= np_sum l) by (apply IH; intros x Hx; apply H; right; exact Hx). lra.
Qed.

Lemma np_mean_nonneg l : (forall x, x ∈ l -> 0 <= x) -> 0 <= np_mean l.
Proof.
  intros H. unfold np_mean. pose proof (np_sum_nonneg l H) as Hs.
  destruct l as [|a l].
  - vm_compute. discriminate.
  - apply Qle_shift_div_l; [|lra].
    change 0 with (inject_Z 0). rewrite <- Zlt_Qlt. simpl length. lia.
Qed.

Lemma replace_0_1_pos x : 0 <= x -> 0 < replace 0 1 x.
Proof.
  intros H. pose proof (replace_0_1_nonzero x) as Hnz. unfold replace in *.
  destruct (Qeq_bool x 0) eqn:E; [lra|].
  apply Qeq_bool_neq in E. destruct (Qlt_le_dec 0 x) as [Hlt|Hle]; [exact Hlt|].
  exfalso. apply E. lra.
Qed.

(** X13.  Among the records of one state and month of a frame whose
    rainfalls are not negative, more rain never gives a higher drought
    index. *)
Theorem drought_index_decreases df u1 u2 t1 t2 :
  (forall t, t ∈ df -> 0 <= Monthly.Rainfall_mm (base t)) ->
  tag_state t1 = tag_state t2 -> tag_month t1 = tag_month t2 ->
  Rain.Rainfall_mm (rainfall_row df u1 t1) <= Rain.Rainfall_mm (rainfall_row df u2 t2) ->
  Rain.Drought_Index (rainfall_row df u2 t2) <= Rain.Drought_Index (rainfall_row df u1 t1).
Proof.
  intros Hdf Hs Hm Hr. cbn [rainfall_row Rain.Rainfall_mm Rain.Drought_Index] in *.
  assert (Ee : expected_rainfall df t1 = expected_rainfall df t2).
  { unfold expected_rainfall. rewrite Hs, Hm. reflexivity. }
  rewrite Ee.
  assert (He : 0 <= expected_rainfall df t2).
  { unfold expected_rainfall. apply np_mean_nonneg. intros x Hx.
    apply list_elem_of_fmap in Hx as (t & -> & Ht). apply list_elem_of_filter in Ht as [_ Ht].
    apply rain_mm_nonneg, Hdf, Ht. }
  pose proof (replace_0_1_pos _ He) as Hb.
  apply round_mono, clip_mono; [lra|].
  assert (rain_mm t1 / replace 0 1 (expected_rainfall df t2)
          <= rain_mm t2 / replace 0 1 (expected_rainfall df t2)).
  { unfold Qdiv. apply Qmult_le_compat_r; [exact Hr|]. apply Qinv_le_0_compat. lra. }
  lra.
Qed.

Lemma drought_index_decreases_witness :
  Rain.Drought_Index (rainfall_row [dry_january; wet_january] 0.4 wet_january)
  <= Rain.Drought_Index (rainfall_row [dry_january; wet_january] 0.4 dry_january).
Proof.
  apply (drought_index_decreases [dry_january; wet_january] 0.4 0.4
           dry_january wet_january).
  - intros t Ht.
    repeat (apply elem_of_cons in Ht as [->|Ht]; [vm_compute; discriminate|]).
    inversion Ht.
  - reflexivity.
  - reflexivity.
  - vm_compute. discriminate.
Defined.

(** ** The frames of a location and the master tables *)

Lemma add_metadata_Some zone state r t :
  add_metadata zone state r = Some t ->
  base t = r /\ tag_zone t = zone /\ tag_state t = state.
Proof.
  unfold add_metadata. destruct (to_datetime _) as [[[y m] d]|]; [|discriminate].
  intros [= <-]. auto.
Qed.

Lemma mapM_add_metadata zone state df tdf :
  mapM (add_metadata zone state) df = Some tdf ->
  base <$> tdf = df /\ Forall (fun t => tag_zone t = zone /\ tag_state t = state) tdf.
Proof.
  intros H. apply mapM_Some_1 in H.
  induction H as [|r t df tdf Hrt _ [IH1 IH2]]; [split; [reflexivity|constructor]|].
  apply add_metadata_Some in Hrt as (Hb & Hz & Hs).
  cbn [fmap list_fmap]. split; [rewrite Hb; f_equal; exact IH1|].
  constructor; auto.
Qed.

Lemma imap_fmap_const {A B C} (f : nat -> A -> B) (g : B -> C) (h : A -> C) (l : list A) :
  (forall i a, g (f i a) = h a) -> g <$> imap f l = h <$> l.
Proof.
  intros H. revert f H. induction l as [|a l IH]; intros f H; [reflexivity|].
  cbn [imap fmap list_fmap]. rewrite H. f_equal. apply IH. intros i b. apply H.
Qed.

(** X14.  On a frame that [download_nasa_power_data] returned, the index
    computation does not raise.  It appends one frame to each of the three
    accumulators; each has the dates of the input frame, in the same order,
    and carries the zone and the state of the location on every row. *)
Theorem enrich_returned_frame other randint uniform k zone state ad df st :
  wf ad -> aggregate other ad = Returned (Some df) ->
  exists tf rf hf,
    enrich randint uniform k zone state df st
    = Returned {| all_temperature_data := all_temperature_data st ++ [tf];
                  all_rainfall_data := all_rainfall_data st ++ [rf];
                  all_humidity_data := all_humidity_data st ++ [hf];
                  current_state := current_state st;
                  failed_states := failed_states st |}
    /\ Temp.Date <$> tf = Monthly.Date <$> df
    /\ Rain.Date <$> rf = Monthly.Date <$> df
    /\ Humid.Date <$> hf = Monthly.Date <$> df
    /\ Forall (fun r => Temp.State r = state /\ Temp.Geopolitical_Zone r = zone) tf
    /\ Forall (fun r => Rain.State r = state /\ Rain.Geopolitical_Zone r = zone) rf
    /\ Forall (fun r => Humid.State r = state /\ Humid.Geopolitical_Zone r = zone) hf.
Proof.
  intros Hwf Hagg.
  assert (Hsome : is_Some (mapM (add_metadata zone state) df)).
  { apply mapM_is_Some_2, Forall_forall. intros row Hrow.
    destruct (aggregate_rows _ _ _ _ Hagg Hrow) as (rows & r & date & _ & _ & Ht & ->).
    unfold compose, add_metadata. cbn [with_date Monthly.Date].
    rewrite (to_datetime_strftime _ Ht). destruct date as [[y m] d]. eauto. }
  destruct Hsome as [tdf Htdf]. unfold enrich. rewrite Htdf.
  destruct (mapM_add_metadata _ _ _ _ Htdf) as [Hbase Htags].
  do 3 eexists. split; [reflexivity|].
  rewrite <- Hbase, <- list_fmap_compose.
  split; [apply imap_fmap_const; reflexivity|].
  split; [apply imap_fmap_const; reflexivity|].
  split; [apply imap_fmap_const; reflexivity|].
  rewrite Forall_forall in Htags.
  repeat split; apply Forall_forall; intros r Hr;
    apply elem_of_lookup_imap_1 in Hr as (i & t & -> & Ht);
    apply list_elem_of_lookup_2 in Ht; destruct (Htags t Ht) as [Hz Hs];
    cbn; auto.
Qed.

Lemma enrich_returned_frame_witness :
  exists tf rf hf,
    enrich fixed_randint fixed_uniform 1 "North-West" "Kano"
      [ {| Monthly.Date := "2020-01-01"; Monthly.Avg_Temp_C := round 32 2;
           Monthly.Max_Temp_C := round 37 2; Monthly.Min_Temp_C := round 25 2;
           Monthly.Rainfall_mm := round 3.5 1;
           Monthly.Humidity_Percent := round 62 1 |} ] collect_init
    = Returned {| all_temperature_data := [tf]; all_rainfall_data := [rf];
                  all_humidity_data := [hf]; current_state := 0;
                  failed_states := [] |}
    /\ Temp.Date <$> tf = ["2020-01-01"%string]
    /\ Rain.Date <$> rf = ["2020-01-01"%string]
    /\ Humid.Date <$> hf = ["2020-01-01"%string].
Proof.
  destruct (enrich_returned_frame no_other fixed_randint fixed_uniform 1 "North-West" "Kano"
              (process_chunk january_2020 all_data_init)
              [ {| Monthly.Date := "2020-01-01"; Monthly.Avg_Temp_C := round 32 2;
                   Monthly.Max_Temp_C := round 37 2; Monthly.Min_Temp_C := round 25 2;
                   Monthly.Rainfall_mm := round 3.5 1;
                   Monthly.Humidity_Percent := round 62 1 |} ] collect_init
              (wf_process_chunk _ _ wf_init) ltac:(vm_compute; reflexivity))
    as (tf & rf & hf & H & Ht & Hr & Hh & _).
  exists tf, rf, hf. auto.
Defined.

Section Run_facts.

Variable fetch : Q -> Q -> Z -> Z -> string -> world -> outcome (option (list Monthly.row)) * world.
Variable randint : nat -> nat -> Z.
Variable uniform : nat -> nat -> nat -> Q.

(** What a step of the location loop that returns did. *)
Lemma location_step_cases zone st w state lat lon st' w' :
  location_step fetch randint uniform zone st w (state, (lat, lon)) = (Returned st', w') ->
  st' = mark_failed state (next_state st)
  \/ exists df tdf,
       df <> [] /\ mapM (add_metadata zone state) df = Some tdf
       /\ st' = {| all_temperature_data :=
                     all_temperature_data st
                     ++ [imap (fun i => temperature_row (randint (S (current_state st)) i)) tdf];
                   all_rainfall_data :=
                     all_rainfall_data st
                     ++ [imap (fun i => rainfall_row tdf (uniform (S (current_state st)) 0%nat i)) tdf];
                   all_humidity_data :=
                     all_humidity_data st
                     ++ [imap (fun i => humidity_row (uniform (S (current_state st)) 1%nat i)
                                          (uniform (S (current_state st)) 2%nat i)) tdf];
                   current_state := S (current_state st);
                   failed_states := failed_states st |}.
Proof.
  unfold location_step.
  destruct (fetch lat lon START_YEAR END_YEAR state w) as [[[df|]|] w1];
    [|intros [= <- _]; left; reflexivity|discriminate].
  destruct (0 <? length df)%nat eqn:El; [|intros [= <- _]; left; reflexivity].
  unfold enrich. destruct (mapM (add_metadata zone state) df) as [tdf|] eqn:Em;
    [|discriminate].
  intros [= <- _]. right. exists df, tdf. split; [|split; [exact Em|reflexivity]].
  intros ->. discriminate El.
Qed.

(** A property of the accumulators that every step keeps holds when the
    loops end. *)
Lemma zones_loop_invariant (I : list (string * (Q * Q)) -> collect_state -> Prop) :
  (forall done zone st w loc st' w',
     I done st ->
     location_step fetch randint uniform zone st w loc = (Returned st', w') ->
     I (done ++ [loc]) st') ->
  forall zones done st w st' w',
    I done st ->
    zones_loop fetch randint uniform zones st w = (Returned st', w') ->
    I (done ++ locations zones) st'.
Proof.
  intros Hstep.
  assert (Hstates : forall zone states done st w st' w',
            I done st ->
            states_loop fetch randint uniform zone states st w = (Returned st', w') ->
            I (done ++ states) st').
  { intros zone states. induction states as [|loc states IH]; intros done st w st' w' HI H.
    - injection H as <- _. rewrite app_nil_r. exact HI.
    - cbn [states_loop] in H.
      destruct (location_step fetch randint uniform zone st w loc) as [[st1|] w1] eqn:E;
        [|discriminate H].
      rewrite (cons_middle loc), app_assoc. eapply IH; [|exact H].
      eapply Hstep; eassumption. }
  intros zones. induction zones as [|[zone states] zones IH]; intros done st w st' w' HI H.
  - injection H as <- _. unfold locations. simpl. rewrite app_nil_r. exact HI.
  - cbn [zones_loop] in H.
    destruct (states_loop fetch randint uniform zone states st w) as [[st1|] w1] eqn:E;
      [|discriminate H].
    unfold locations in *. cbn [fmap list_fmap concat snd]. rewrite app_assoc.
    eapply IH; [|exact H]. eapply Hstates; eassumption.
Qed.

Lemma nonempty_frame zone state (df : list Monthly.row) tdf :
  df <> [] -> mapM (add_metadata zone state) df = Some tdf -> tdf <> [].
Proof.
  intros Hne Hm. apply length_mapM in Hm. destruct df; [congruence|].
  destruct tdf; [discriminate Hm|discriminate].
Qed.

Lemma parallel_tables_step zone st w loc st' w' :
  parallel_tables st ->
  location_step fetch randint uniform zone st w loc = (Returned st', w') ->
  parallel_tables st'.
Proof.
  intros (H1 & H2 & H3) Hs. destruct loc as [state [lat lon]].
  apply location_step_cases in Hs as [->|(df & tdf & Hne & Hm & ->)];
    [split; [exact H1|split; [exact H2|exact H3]]|].
  unfold parallel_tables.
  cbn [all_temperature_data all_rainfall_data all_humidity_data].
  rewrite !concat_app, !fmap_app, H1, H2. cbn [concat]. rewrite !app_nil_r.
  split; [|split].
  - f_equal.
    rewrite (imap_fmap_const _ _ (fun t => (tag_state t, Monthly.Date (base t))))
      by reflexivity.
    symmetry. apply imap_fmap_const. reflexivity.
  - f_equal.
    rewrite (imap_fmap_const _ _ (fun t => (tag_state t, Monthly.Date (base t))))
      by reflexivity.
    symmetry. apply imap_fmap_const. reflexivity.
  - apply Forall_app. split; [exact H3|]. constructor; [|constructor].
    pose proof (nonempty_frame _ _ _ _ Hne Hm). destruct tdf; [congruence|discriminate].
Qed.

(** X15.  The three master tables of a run have the same rows: at every
    position the temperature, rainfall and humidity rows carry the same
    state and date.  A run that returns tables returns tables that are not
    empty. *)
Theorem master_tables_parallel zones w tb w' :
  collect_zones fetch randint uniform zones w = (Returned (Some tb), w') ->
  (fun r => (Temp.State r, Temp.Date r)) <$> temp_full tb
  = (fun r => (Rain.State r, Rain.Date r)) <$> rain_full tb
  /\ (fun r => (Rain.State r, Rain.Date r)) <$> rain_full tb
     = (fun r => (Humid.State r, Humid.Date r)) <$> humid_full tb
  /\ temp_full tb <> [].
Proof.
  unfold collect_zones.
  destruct (zones_loop fetch randint uniform zones collect_init w) as [[st|] w1] eqn:E;
    [|discriminate].
  assert (H : parallel_tables st).
  { apply (zones_loop_invariant (fun _ => parallel_tables)
             ltac:(intros; eapply parallel_tables_step; eassumption)
             zones [] collect_init w st w1); [|exact E].
    repeat split; constructor. }
  destruct H as (H1 & H2 & H3).
  unfold combine_and_save.
  destruct (all_temperature_data st) as [|f fs] eqn:Et; [discriminate|].
  intros [= <- _]. cbn [temp_full rain_full humid_full].
  split; [exact H1|]. split; [exact H2|].
  apply Forall_cons in H3 as [Hf _]. cbn [concat]. destruct f; [congruence|discriminate].
Qed.

Lemma elem_of_states_with_rows_failed state st s :
  s ∈ states_with_rows (mark_failed state (next_state st)) <-> s ∈ states_with_rows st.
Proof. reflexivity. Qed.

Lemma sorted_out_step done zone st w loc st' w' :
  sorted_out done st ->
  location_step fetch randint uniform zone st w loc = (Returned st', w') ->
  sorted_out (done ++ [loc]) st'.
Proof.
  intros Hinv Hs Hnd. destruct loc as [state [lat lon]].
  rewrite fmap_app in Hnd. cbn [fmap list_fmap fst] in Hnd.
  apply NoDup_app in Hnd as (Hnd & Hfresh & _).
  assert (Hnew : state ∉ fst <$> done).
  { intros Hin. apply (Hfresh state Hin). left. }
  destruct (Hinv Hnd) as [Hpart Hdisj].
  assert (Hmem : forall s, s ∈ fst <$> done ++ [(state, (lat, lon))]
                           <-> s ∈ fst <$> done \/ s = state).
  { intros s. rewrite fmap_app, elem_of_app. cbn [fmap list_fmap fst].
    rewrite list_elem_of_singleton. reflexivity. }
  apply location_step_cases in Hs as [->|(df & tdf & Hne & Hm & ->)].
  - split.
    + intros s. rewrite Hmem, Hpart. cbn [mark_failed failed_states].
      rewrite elem_of_app, list_elem_of_singleton, elem_of_states_with_rows_failed. tauto.
    + intros s Hs. cbn [mark_failed failed_states] in Hs.
      rewrite elem_of_states_with_rows_failed.
      apply elem_of_app in Hs as [Hs|Hs]; [apply Hdisj, Hs|].
      apply list_elem_of_singleton in Hs. subst s. intros Hrow.
      apply Hnew, Hpart. right. exact Hrow.
  - destruct (mapM_add_metadata _ _ _ _ Hm) as [_ Htags].
    pose proof (nonempty_frame _ _ _ _ Hne Hm) as Htdf.
    assert (Hrows : forall s,
              s ∈ states_with_rows
                    {| all_temperature_data :=
                         all_temperature_data st
                         ++ [imap (fun i => temperature_row (randint (S (current_state st)) i)) tdf];
                       all_rainfall_data :=
                         all_rainfall_data st
                         ++ [imap (fun i => rainfall_row tdf (uniform (S (current_state st)) 0%nat i)) tdf];
                       all_humidity_data :=
                         all_humidity_data st
                         ++ [imap (fun i => humidity_row (uniform (S (current_state st)) 1%nat i)
                                              (uniform (S (current_state st)) 2%nat i)) tdf];
                       current_state := S (current_state st);
                       failed_states := failed_states st |}
              <-> s ∈ states_with_rows st \/ s = state).
    { intros s. unfold states_with_rows.
      cbn [all_temperature_data all_rainfall_data all_humidity_data].
      rewrite !concat_app, !fmap_app. cbn [concat]. rewrite !app_nil_r.
      rewrite (imap_fmap_const _ Temp.State tag_state) by reflexivity.
      rewrite (imap_fmap_const _ Rain.State tag_state) by reflexivity.
      rewrite (imap_fmap_const _ Humid.State tag_state) by reflexivity.
      rewrite !elem_of_app.
      assert (Hst : s ∈ tag_state <$> tdf <-> s = state).
      { rewrite list_elem_of_fmap. split.
        - intros (t & -> & Ht). rewrite Forall_forall in Htags. apply (Htags t Ht).
        - intros ->. destruct tdf as [|t tdf]; [congruence|].
          exists t. split; [|left]. apply Forall_cons in Htags as [[_ Ht] _].
          symmetry. exact Ht. }
      rewrite Hst. tauto. }
    split.
    + intros s. rewrite Hmem, Hrows, Hpart. cbn [failed_states]. tauto.
    + intros s Hs. cbn [failed_states] in Hs. rewrite Hrows. intros [Hrow| ->].
      * exact (Hdisj s Hs Hrow).
      * apply Hnew, Hpart. left. exact Hs.
Qed.

(** X16.  In a registry whose state names are distinct, when the loops
    end every location is either in [failed_states] or has rows in the
    accumulators, never both: a failed location has no row in any table,
    and every other location has some. *)
Theorem locations_sorted_out zones w st w' :
  NoDup (fst <$> locations zones) ->
  zones_loop fetch randint uniform zones collect_init w = (Returned st, w') ->
  (forall s, s ∈ fst <$> locations zones
             <-> s ∈ failed_states st \/ s ∈ states_with_rows st)
  /\ (forall s, s ∈ failed_states st -> s ∉ states_with_rows st).
Proof.
  intros Hnd H.
  apply (zones_loop_invariant sorted_out sorted_out_step zones [] collect_init w st w');
    [|exact H|exact Hnd].
  intros _. split.
  - intros s. split; [intros Hs; inversion Hs|intros [Hs|Hs]; inversion Hs].
  - intros s Hs. inversion Hs.
Qed.

(** When the fetcher has no data for any location, the loops end with
    every location in [failed_states] and nothing in the accumulators. *)
Lemma zones_loop_no_data zones :
  (forall lat lon sy ey state w, exists w1,
     fetch lat lon sy ey state w = (Returned None, w1)) ->
  forall st w, exists st' w',
    zones_loop fetch randint uniform zones st w = (Returned st', w')
    /\ failed_states st' = failed_states st ++ (fst <$> locations zones)
    /\ all_temperature_data st' = all_temperature_data st.
Proof.
  intros Hfetch.
  assert (Hstates : forall zone states st w, exists st' w',
            states_loop fetch randint uniform zone states st w = (Returned st', w')
            /\ failed_states st' = failed_states st ++ (fst <$> states)
            /\ all_temperature_data st' = all_temperature_data st).
  { intros zone states. induction states as [|[state [lat lon]] states IH]; intros st w.
    - exists st, w. rewrite app_nil_r. auto.
    - destruct (Hfetch lat lon START_YEAR END_YEAR state w) as [w1 Hw1].
      cbn [states_loop]. unfold location_step. rewrite Hw1.
      destruct (IH (mark_failed state (next_state st)) (sleep 3 w1))
        as (st' & w' & H & Hf & Ht).
      exists st', w'. rewrite H, Hf, Ht. cbn [mark_failed failed_states fmap list_fmap fst].
      rewrite <- app_assoc. auto. }
  induction zones as [|[zone states] zones IH]; intros st w.
  - exists st, w. unfold locations. simpl. rewrite app_nil_r. auto.
  - destruct (Hstates zone states st w) as (st1 & w1 & H1 & Hf1 & Ht1).
    destruct (IH st1 w1) as (st' & w' & H & Hf & Ht).
    exists st', w'. cbn [zones_loop]. rewrite H1, H, Hf, Ht, Hf1, Ht1.
    unfold locations. cbn [fmap list_fmap concat snd]. rewrite fmap_app, app_assoc. auto.
Qed.

End Run_facts.

Lemma master_tables_parallel_witness :
  exists tb w',
    collect_zones fetch_januaries fixed_randint fixed_uniform two_states []
    = (Returned (Some tb), w')
    /\ (fun r => (Temp.State r, Temp.Date r)) <$> temp_full tb
       = [("Kaduna", "2020-01-01"); ("Kaduna", "2021-01-01");
          ("Kano", "2020-01-01"); ("Kano", "2021-01-01")]%string
    /\ (fun r => (Temp.State r, Temp.Date r)) <$> temp_full tb
       = (fun r => (Rain.State r, Rain.Date r)) <$> rain_full tb
    /\ (fun r => (Rain.State r, Rain.Date r)) <$> rain_full tb
       = (fun r => (Humid.State r, Humid.Date r)) <$> humid_full tb.
Proof.
  eexists. eexists. split; [vm_compute; reflexivity|].
  split; [vm_compute; reflexivity|].
  match goal with
  | |- context [temp_full ?tb] =>
      destruct (master_tables_parallel fetch_januaries fixed_randint fixed_uniform
                  two_states [] tb _ ltac:(vm_compute; reflexivity)) as (H1 & H2 & _)
  end.
  split; [exact H1|exact H2].
Defined.

Lemma locations_sorted_out_witness :
  exists st w',
    zones_loop fetch_kano_only fixed_randint fixed_uniform two_states collect_init []
    = (Returned st, w')
    /\ failed_states st = ["Kaduna"%string]
    /\ ("Kaduna"%string ∉ states_with_rows st)
    /\ "Kano"%string ∈ states_with_rows st.
Proof.
  eexists. eexists. split; [vm_compute; reflexivity|]. split; [reflexivity|].
  match goal with
  | |- context [states_with_rows ?st] =>
      destruct (locations_sorted_out fetch_kano_only fixed_randint fixed_uniform
                  two_states [] st _
                  ltac:(apply (bool_decide_unpack _); vm_compute; reflexivity)
                  ltac:(vm_compute; reflexivity)) as [Hpart Hdisj]
  end.
  split.
  - apply Hdisj. left.
  - destruct (proj1 (Hpart "Kano"%string)) as [Hf|Hr].
    + vm_compute. right. left.
    + apply list_elem_of_singleton in Hf. discriminate Hf.
    + exact Hr.
Defined.

(** X17.  When every request fails, the run visits the eighteen locations
    of the registry, puts each of them in [failed_states] in registry
    order, and returns no table. *)
Theorem service_down_run api other randint uniform w :
  (forall w' r, api w' r = None) ->
  exists st w',
    zones_loop (download_nasa_power_data api other) randint uniform ZONES collect_init w
    = (Returned st, w')
    /\ failed_states st = fst <$> locations ZONES
    /\ climate_run api other randint uniform w = (Returned None, w').
Proof.
  intros Hdown.
  destruct (zones_loop_no_data (download_nasa_power_data api other) randint uniform ZONES
              ltac:(intros lat lon sy ey state w0; eexists;
                    unfold download_nasa_power_data, chunk_loop;
                    rewrite (failed_fold api lat lon ey _ _ Hdown); reflexivity)
              collect_init w) as (st & w' & H & Hf & Ht).
  exists st, w'. split; [exact H|]. split; [exact Hf|].
  unfold climate_run, collect_all_nasa_climate_data, collect_zones, combine_and_save.
  rewrite H, Ht. reflexivity.
Qed.

Lemma service_down_run_witness :
  exists st w',
    zones_loop (download_nasa_power_data api_down no_other) fixed_randint fixed_uniform
      ZONES collect_init [] = (Returned st, w')
    /\ failed_states st
       = ["Kaduna"; "Kano"; "Sokoto"; "Borno"; "Bauchi"; "Adamawa"; "Benue";
          "Plateau"; "Niger"; "Oyo"; "Ogun"; "Ondo"; "Enugu"; "Abia"; "Ebonyi";
          "Rivers"; "Delta"; "Akwa Ibom"]%string
    /\ climate_run api_down no_other fixed_randint fixed_uniform [] = (Returned None, w').
Proof.
  exact (service_down_run api_down no_other fixed_randint fixed_uniform [] (fun _ _ => eq_refl)).
Defined.

(** ** The log of a run *)

Lemma pauses_app w1 w2 : pauses (w1 ++ w2) = (pauses w1 + pauses w2)%nat.
Proof. unfold pauses. rewrite List.filter_app, length_app. reflexivity. Qed.

Section Run_log.

Variable api : world -> request -> option properties.
Variable other : list string -> string -> option (Z * Z * Z).
Variable randint : nat -> nat -> Z.
Variable uniform : nat -> nat -> nat -> Q.

(** The pauses of the chunk loop are not those between locations. *)
Lemma chunk_step_pauses lat lon end_year st y :
  pauses (cs_world (chunk_step api lat lon end_year st y)) = pauses (cs_world st).
Proof.
  unfold chunk_step.
  pose proof (attempts_closed_form api lat lon (str y +:+ "0101")
                (str (Z.min (y + chunk_size - 1) end_year) +:+ "1231") (cs_world st)) as H.
  cbv zeta in H. rewrite H. clear H.
  set (r := {| latitude := lat; longitude := lon; start := (str y +:+ "0101")%string;
               end_ := (str (Z.min (y + chunk_size - 1) end_year) +:+ "1231")%string |}).
  destruct (api (cs_world st) r) as [d0|].
  { cbn [cs_world]. unfold sleep. rewrite !pauses_app. unfold pauses. simpl. lia. }
  destruct (api (cs_world st ++ [Get r; Sleep 10]) r) as [d1|].
  { cbn [cs_world]. unfold sleep. rewrite !pauses_app. unfold pauses. simpl. lia. }
  destruct (api ((cs_world st ++ [Get r; Sleep 10]) ++ [Get r; Sleep 20]) r) as [d2|].
  { cbn [cs_world]. unfold sleep. rewrite !pauses_app. unfold pauses. simpl. lia. }
  cbn [cs_world]. rewrite !pauses_app. unfold pauses. simpl. lia.
Qed.

Lemma chunk_fold_pauses lat lon end_year l : forall st,
  pauses (cs_world (foldl (chunk_step api lat lon end_year) st l)) = pauses (cs_world st).
Proof.
  induction l as [|y l IH]; intros st; [reflexivity|].
  cbn [foldl]. rewrite IH. apply chunk_step_pauses.
Qed.

(** What a location adds to the log: the requests of its seventeen
    sub-ranges, no file and, unless an exception leaves the loops, one
    pause. *)
Lemma location_step_trace zone st w loc :
  exists ev,
    (location_step (download_nasa_power_data api other) randint uniform zone st w loc).2 = w ++ ev
    /\ existsb writes_file ev = false
    /\ (17 <= gets ev <= 51)%nat
    /\ (pauses ev <= 1)%nat
    /\ forall st',
         (location_step (download_nasa_power_data api other) randint uniform zone st w loc).1
         = Returned st' -> pauses ev = 1%nat.
Proof.
  destruct loc as [state [lat lon]]. unfold location_step.
  destruct (chunk_fold_log api lat lon END_YEAR (range START_YEAR (END_YEAR + 1) chunk_size)
              {| cs_data := all_data_init; all_chunks_successful := true; cs_world := w |})
    as (ev & E & G & W).
  pose proof (chunk_fold_pauses lat lon END_YEAR (range START_YEAR (END_YEAR + 1) chunk_size)
                {| cs_data := all_data_init; all_chunks_successful := true; cs_world := w |})
    as P.
  cbn [cs_world] in E, P. rewrite E, pauses_app in P.
  assert (P0 : pauses ev = 0%nat) by lia.
  change (length (range START_YEAR (END_YEAR + 1) chunk_size)) with 17%nat in G.
  unfold download_nasa_power_data, chunk_loop. rewrite E.
  assert (Hquiet : exists ev0, w ++ ev = w ++ ev0 /\ existsb writes_file ev0 = false
                               /\ (17 <= gets ev0 <= 51)%nat /\ (pauses ev0 <= 1)%nat
                               /\ forall st' : collect_state,
                                    @Raised collect_state = Returned st' -> pauses ev0 = 1%nat).
  { exists ev. repeat split; try lia; try assumption. discriminate. }
  assert (Hpause : forall st1 : collect_state,
            exists ev0, sleep 3 (w ++ ev) = w ++ ev0 /\ existsb writes_file ev0 = false
                        /\ (17 <= gets ev0 <= 51)%nat /\ (pauses ev0 <= 1)%nat
                        /\ forall st', Returned st1 = Returned st' -> pauses ev0 = 1%nat).
  { intros st1. exists (ev ++ [Sleep 3]). unfold sleep. rewrite <- app_assoc.
    split; [reflexivity|]. rewrite writes_app, gets_app, pauses_app, W, P0.
    change (gets [Sleep 3]) with 0%nat. change (pauses [Sleep 3]) with 1%nat.
    repeat split; lia. }
  destruct (aggregate _) as [[df|]|]; cbn [fst snd].
  - destruct (0 <? length df)%nat; [|apply Hpause].
    destruct (enrich _ _ _ _ _ _ _) as [st2|]; cbn [fst snd]; [apply Hpause|apply Hquiet].
  - apply Hpause.
  - apply Hquiet.
Qed.

Lemma states_loop_trace zone states : forall st w,
  exists ev,
    (states_loop (download_nasa_power_data api other) randint uniform zone states st w).2 = w ++ ev
    /\ existsb writes_file ev = false
    /\ (gets ev <= 51 * length states)%nat
    /\ forall st',
         (states_loop (download_nasa_power_data api other) randint uniform zone states st w).1
         = Returned st' ->
         (17 * length states <= gets ev)%nat /\ pauses ev = length states.
Proof.
  induction states as [|loc states IH]; intros st w.
  - exists []. rewrite app_nil_r. cbn. repeat split; lia.
  - cbn [states_loop].
    destruct (location_step_trace zone st w loc) as (ev1 & E1 & W1 & G1 & P1 & R1).
    destruct (location_step _ _ _ zone st w loc) as [[st1|] w1]; cbn [fst snd] in *.
    + subst w1. destruct (IH st1 (w ++ ev1)) as (ev2 & E2 & W2 & G2 & R2).
      exists (ev1 ++ ev2). rewrite E2, <- app_assoc. split; [reflexivity|].
      rewrite writes_app, gets_app, pauses_app, W1, W2. cbn [length].
      split; [reflexivity|]. split; [lia|]. intros st' H.
      destruct (R2 st' H) as [G2' P2]. rewrite (R1 st1 eq_refl), P2. lia.
    + exists ev1. cbn [length]. repeat split; try assumption; try lia; discriminate.
Qed.

Lemma zones_loop_trace zones : forall st w,
  exists ev,
    (zones_loop (download_nasa_power_data api other) randint uniform zones st w).2 = w ++ ev
    /\ existsb writes_file ev = false
    /\ (gets ev <= 51 * length (locations zones))%nat
    /\ forall st',
         (zones_loop (download_nasa_power_data api other) randint uniform zones st w).1
         = Returned st' ->
         (17 * length (locations zones) <= gets ev)%nat
         /\ pauses ev = length (locations zones).
Proof.
  induction zones as [|[zone states] zones IH]; intros st w.
  - exists []. rewrite app_nil_r. cbn. repeat split; lia.
  - cbn [zones_loop]. unfold locations. cbn [fmap list_fmap concat snd].
    fold (locations zones). rewrite length_app.
    destruct (states_loop_trace zone states st w) as (ev1 & E1 & W1 & G1 & R1).
    destruct (states_loop _ _ _ zone states st w) as [[st1|] w1]; cbn [fst snd] in *.
    + subst w1. destruct (IH st1 (w ++ ev1)) as (ev2 & E2 & W2 & G2 & R2).
      exists (ev1 ++ ev2). rewrite E2, <- app_assoc. split; [reflexivity|].
      rewrite writes_app, gets_app, pauses_app, W1, W2.
      split; [reflexivity|]. split; [lia|]. intros st' H.
      destruct (R2 st' H) as [G2' P2]. destruct (R1 st1 eq_refl) as [G1' P1]. lia.
    + exists ev1. repeat split; try assumption; try lia; discriminate.
Qed.

(** X18.  The log of a whole run, whatever the service answers.  The run
    makes at most 918 requests and writes no file before the loops are
    over: when an exception leaves the loops nothing is saved.  A run that
    returns has made at least 306 requests and paused 3 seconds after each
    of the 18 locations; it has written the three tables, in this order,
    when it returns them and no file when it returns none. *)
Theorem run_log w :
  exists ev,
    (climate_run api other randint uniform w).2 = w ++ ev
    /\ (gets ev <= 918)%nat
    /\ match (climate_run api other randint uniform w).1 with
       | Raised => existsb writes_file ev = false
       | Returned None =>
           existsb writes_file ev = false /\ (306 <= gets ev)%nat /\ pauses ev = 18%nat
       | Returned (Some _) =>
           (306 <= gets ev)%nat /\ pauses ev = 18%nat
           /\ exists ev0, ev = ev0 ++ table_files /\ existsb writes_file ev0 = false
       end.
Proof.
  unfold climate_run, collect_all_nasa_climate_data, collect_zones.
  destruct (zones_loop_trace ZONES collect_init w) as (ev & E & W & G & R).
  change (length (locations ZONES)) with 18%nat in G, R.
  destruct (zones_loop _ _ _ ZONES collect_init w) as [[st|] w1]; cbn [fst snd] in *.
  - destruct (R st eq_refl) as [G' P]. unfold combine_and_save.
    destruct (all_temperature_data st); cbn [fst snd].
    + exists ev. repeat split; try assumption; lia.
    + exists (ev ++ table_files). rewrite E, <- app_assoc. split; [reflexivity|].
      rewrite gets_app, pauses_app.
      change (gets table_files) with 0%nat. change (pauses table_files) with 0%nat.
      split; [lia|]. split; [lia|]. split; [lia|].
      exists ev. split; [reflexivity|exact W].
  - exists ev. split; [exact E|]. split; [lia|exact W].
Qed.

End Run_log.

(** ** The CO2 file *)

Section Co2_facts.

Context {value : Type}.
Variable float : string -> option value.
Variable sub : value -> value -> value.

Lemma parse_line_in_window line (r : Co2.record value) :
  parse_line float line = Some r -> (START_YEAR <= Co2.Year r <= END_YEAR)%Z.
Proof.
  unfold parse_line. destruct (fields line) as [|p0 [|p1 [|p2 [|p3 ps]]]]; try discriminate.
  destruct (int (string_of_list_ascii p0)) as [year|]; [|discriminate].
  destruct (int (string_of_list_ascii p1)) as [month|]; [|discriminate].
  destruct (float (string_of_list_ascii p3)) as [co2|]; [|discriminate].
  cbn. destruct (Z.leb_spec START_YEAR year), (Z.leb_spec year END_YEAR);
    cbn; intros [= <-]; cbn; lia.
Qed.

Lemma parse_co2_in_window text :
  Forall (fun r : Co2.record value => (START_YEAR <= Co2.Year r <= END_YEAR)%Z)
    (parse_co2 float text).
Proof.
  apply Forall_forall. intros r Hr. unfold parse_co2 in Hr.
  apply list_elem_of_omap in Hr as (line & _ & Hline).
  eapply parse_line_in_window, Hline.
Qed.

Lemma observed_with_growth_rate (df : list (Co2.record value)) :
  Co2.observed <$> with_growth_rate sub df = df.
Proof.
  unfold with_growth_rate.
  rewrite (imap_fmap_const _ Co2.observed id) by reflexivity. apply list_fmap_id.
Qed.

Lemma growth_rate_with_growth_rate (df : list (Co2.record value)) :
  Co2.CO2_Growth_Rate_ppm_per_year <$> with_growth_rate sub df
  = imap (fun i r => group_diff sub 12 (take i df) r) df.
Proof.
  unfold with_growth_rate. rewrite fmap_imap. reflexivity.
Qed.

Lemma sort_by_year_month_perm (data : list (Co2.record value)) :
  sort_by_year_month data ≡ₚ data.
Proof.
  unfold sort_by_year_month. rewrite sort_values_perm, <- list_fmap_compose.
  rewrite <- (list_fmap_id data) at 2. reflexivity.
Qed.

Lemma sort_by_year_month_ascending (data : list (Co2.record value)) :
  ascending ((fun r => (Co2.Year r, Co2.Month r, 0%Z)) <$> sort_by_year_month data).
Proof.
  unfold sort_by_year_month.
  set (key := fun r : Co2.record value => (Co2.Year r, Co2.Month r, 0%Z)).
  assert (H : Forall (fun p => key p.2 = p.1) (sort_values ((fun r => (key r, r)) <$> data))).
  { rewrite sort_values_perm. apply Forall_fmap, Forall_forall. reflexivity. }
  assert (E : key <$> (snd <$> sort_values ((fun r => (key r, r)) <$> data))
              = (sort_values ((fun r => (key r, r)) <$> data)).*1).
  { rewrite <- list_fmap_compose. apply Forall_fmap_ext_1. exact H. }
  change (ascending (key <$> (snd <$> sort_values ((fun r => (key r, r)) <$> data)))).
  rewrite E. apply ascending_sort_values.
Qed.

(** The records of one month in a series: one for each year. *)
Lemma filter_year_records c y m :
  m ∈ months ->
  List.filter (fun r' : Co2.record value => (Co2.Month r' =? m)%Z) (year_records c y)
  = [{| Co2.Year := y; Co2.Month := m; Co2.CO2_ppm := c y m |}].
Proof.
  intros Hm. unfold months in Hm.
  repeat (apply elem_of_cons in Hm as [->|Hm]; [reflexivity|]).
  apply elem_of_nil in Hm. destruct Hm.
Qed.

Lemma monthly_series_S c first n :
  monthly_series c first (S n)
  = monthly_series c first n ++ year_records (value := value) c (first + Z.of_nat n).
Proof.
  unfold monthly_series. rewrite seq_S, fmap_app, concat_app. cbn [fmap list_fmap concat].
  rewrite app_nil_r. reflexivity.
Qed.

Lemma filter_monthly_series c first n m :
  m ∈ months ->
  List.filter (fun r' : Co2.record value => (Co2.Month r' =? m)%Z) (monthly_series c first n)
  = (fun k => {| Co2.Year := first + Z.of_nat k; Co2.Month := m;
                 Co2.CO2_ppm := c (first + Z.of_nat k)%Z m |}) <$> seq 0 n.
Proof.
  intros Hm. induction n as [|n IH]; [reflexivity|].
  rewrite monthly_series_S, List.filter_app, IH, (filter_year_records _ _ _ Hm), seq_S, fmap_app.
  reflexivity.
Qed.

Lemma filter_none {A} (p : A -> bool) l :
  forallb (fun a => negb (p a)) l = true -> List.filter p l = [].
Proof.
  induction l as [|a l IH]; [reflexivity|]. cbn [forallb List.filter].
  destruct (p a); [discriminate|]. exact IH.
Qed.

(** The growth rate of a record that comes after [n] whole years and some
    records of other months. *)
Lemma group_diff_after_years c first n prefix y m v :
  m ∈ months ->
  forallb (fun r' : Co2.record value => negb (Co2.Month r' =? m)%Z) prefix = true ->
  group_diff sub 12 (monthly_series c first n ++ prefix)
    {| Co2.Year := y; Co2.Month := m; Co2.CO2_ppm := v |}
  = if (12 <=? n)%nat then Some (sub v (c (first + Z.of_nat n - 12)%Z m)) else None.
Proof.
  intros Hm Hp. unfold group_diff. cbn [Co2.Month Co2.CO2_ppm].
  rewrite List.filter_app, (filter_monthly_series _ _ _ _ Hm), (filter_none _ _ Hp), app_nil_r.
  rewrite length_fmap, length_seq.
  destruct (Nat.leb_spec 12 n) as [Hn|Hn]; [|reflexivity].
  rewrite list_lookup_fmap, lookup_seq_lt by lia. cbn [fmap option_fmap option_map Co2.CO2_ppm].
  do 3 f_equal. lia.
Qed.

Lemma growth_rates_monthly_series c first n :
  imap (fun i r => group_diff sub 12 (take i (monthly_series c first n)) r)
    (monthly_series c first n)
  = twelve_year_differences sub c first n.
Proof.
  induction n as [|n IH]; [reflexivity|].
  rewrite monthly_series_S. unfold twelve_year_differences.
  rewrite seq_S, fmap_app, concat_app. fold (twelve_year_differences sub c first n).
  rewrite imap_app. f_equal.
  - rewrite <- IH. apply imap_ext. intros i r Hi.
    rewrite take_app_le; [reflexivity|]. apply lookup_lt_Some in Hi. lia.
  - cbn [fmap list_fmap concat]. rewrite app_nil_r.
    erewrite imap_ext; [|intros j r _; rewrite take_app_add; reflexivity].
    unfold year_records, months. cbn [fmap list_fmap imap compose take].
    rewrite !group_diff_after_years
      by (first [reflexivity | unfold months; repeat first [left | right]]).
    cbn [Nat.add]. reflexivity.
Qed.

(** X19.  The outcomes of [download_co2_data].  It returns [None] and
    writes nothing when the request failed or no line of the file gives a
    record of the years 1990 to 2023.  Otherwise it writes one file and
    returns a frame that is not empty, with the records of the file in these
    years, each once, in ascending order of year and month. *)
Theorem co2_outcomes response w :
  match download_co2_data float sub response w with
  | (None, w') =>
      w' = w
      /\ (response = None
          \/ exists text, response = Some text /\ parse_co2 float text = [])
  | (Some df, w') =>
      w' = w ++ [To_csv "co2_data.csv"]
      /\ df <> []
      /\ Forall (fun r => (START_YEAR <= Co2.Year (Co2.observed r) <= END_YEAR)%Z) df
      /\ ascending ((fun r => (Co2.Year (Co2.observed r), Co2.Month (Co2.observed r), 0%Z))
                      <$> df)
      /\ exists text, response = Some text
                      /\ Co2.observed <$> df ≡ₚ parse_co2 float text
  end.
Proof.
  unfold download_co2_data. destruct response as [text|]; [|split; [reflexivity|left; reflexivity]].
  destruct (parse_co2 float text) as [|r data] eqn:E.
  { split; [reflexivity|]. right. exists text. split; [reflexivity|exact E]. }
  pose proof (parse_co2_in_window text) as Hw. rewrite E in Hw.
  pose proof (observed_with_growth_rate (sort_by_year_month (r :: data))) as Ho.
  pose proof (sort_by_year_month_perm (r :: data)) as Hp.
  split; [reflexivity|]. split; [|split; [|split]].
  - intros Hnil. rewrite Hnil in Ho. rewrite <- Ho in Hp.
    apply Permutation_nil_cons in Hp. exact Hp.
  - rewrite <- Hp, <- Ho in Hw. apply Forall_fmap in Hw. exact Hw.
  - pose proof (sort_by_year_month_ascending (r :: data)) as Ha.
    rewrite <- Ho, <- list_fmap_compose in Ha. exact Ha.
  - exists text. split; [reflexivity|]. rewrite Ho, E. exact Hp.
Qed.

(** X20.  The column [CO2_Growth_Rate_ppm_per_year] of a file that has
    every month of [n] successive years once: the rows of the first twelve
    years have no growth rate, and every later row has its CO2 value minus
    the value of the same month twelve years earlier, not one year
    earlier. *)
Theorem growth_rate_spans_twelve_years text c first n w :
  sort_by_year_month (parse_co2 float text) = monthly_series c first n ->
  (0 < n)%nat ->
  exists df,
    download_co2_data float sub (Some text) w = (Some df, w ++ [To_csv "co2_data.csv"])
    /\ Co2.observed <$> df = monthly_series c first n
    /\ Co2.CO2_Growth_Rate_ppm_per_year <$> df = twelve_year_differences sub c first n.
Proof.
  intros Hs Hn. unfold download_co2_data.
  destruct (parse_co2 float text) as [|r data] eqn:E.
  { destruct n; [lia|]. rewrite monthly_series_S in Hs. cbn in Hs.
    apply (f_equal length) in Hs. rewrite length_app in Hs. cbn in Hs. lia. }
  eexists. split; [reflexivity|]. rewrite Hs. split.
  - apply observed_with_growth_rate.
  - rewrite growth_rate_with_growth_rate. apply growth_rates_monthly_series.
Qed.

End Co2_facts.

Lemma growth_rate_spans_twelve_years_witness :
  exists df,
    download_co2_data whole_float Qminus (Some (co2_text 1990 14)) []
    = (Some df, [To_csv "co2_data.csv"])
    /\ length df = 168%nat
    /\ Co2.CO2_Growth_Rate_ppm_per_year <$> df !! 0%nat = Some None
    /\ Co2.CO2_Growth_Rate_ppm_per_year <$> df !! 143%nat = Some None
    /\ Co2.CO2_Growth_Rate_ppm_per_year <$> df !! 144%nat = Some (Some (324 - 300)).
Proof.
  destruct (growth_rate_spans_twelve_years whole_float Qminus (co2_text 1990 14)
              (fun y m => inject_Z (300 + (y - 1990) * 2 + m / 6)) 1990 14 [])
    as (df & Hd & Ho & Hg).
  - vm_compute. reflexivity.
  - lia.
  - exists df. split; [exact Hd|].
    split; [rewrite <- (length_fmap Co2.observed), Ho; reflexivity|].
    rewrite <- !list_lookup_fmap, Hg. repeat split.
Defined.
